(** * Extractive summarisation pipeline of the file-converter backend

    A shallow embedding of the text pipeline shared by
    [backend/document_summary.py] and [backend/text_summary.py]:
    normaliser, sentence segmenter, sentence scorer, summary assembler and
    the statistics of the two request handlers; and of what the handlers
    add to a summary: key points and bullet points, topics and key
    concepts, the text type, and the extraction of the text of a document.

    Conventions.
    - A Python [str] is the list of its code points, restricted to Latin-1
      (U+0000 - U+00FF), one [ascii] per code point.  The character classes
      below are the ones CPython uses on that range ([str.isspace], [\s],
      [\w], [str.isupper], [str.isdigit], [str.lower]).
    - A Python [float] score is an exact rational ([Q]).  Doubles round, so
      two scores that tie as rationals can differ in the last bit as doubles
      (and the other way round); for that reason the selection steps take the
      score table as an argument and their properties are proved for every
      table, the one of the doubles included.  The integer quantities
      derived from a float product or quotient are discussed where they are
      defined.
    - A [dict] is the list of its items in insertion order, which is the
      order [dict.items()] yields and the order a stable sort falls back on.
    - scikit-learn and sumy are external: what the services use of them is
      a record of functions ([Sklearn], [FeatureRanking], [Sumy]), each call
      either returning a value or raising; the properties hold for every
      such record.  A PDF is the list of its page texts and a Word file the
      list of its paragraph texts, as PyMuPDF and python-docx return
      them. *)

From Stdlib Require Import String Ascii Bool Arith NArith ZArith QArith List.
From Stdlib Require Import Qminmax Qround PrimFloat Uint63 SpecFloat FloatOps.
From Stdlib Require Import Lia Lqa Permutation Sorting.Sorted.
Import ListNotations.

Open Scope nat_scope.
Open Scope list_scope.

(* ================================================================= *)
(** ** Python built-ins used by the pipeline *)

Module Py.

Definition str := list ascii.

Definition lit (s : string) : str := list_ascii_of_string s.

Definition code (c : ascii) : N := N_of_ascii c.

Definition in_range (lo hi : N) (c : ascii) : bool :=
  (lo <=? code c)%N && (code c <=? hi)%N.

(** [str.isspace], also the regex class [\s] and what [strip]/[split] use. *)
Definition isspace (c : ascii) : bool :=
  in_range 9 13 c || in_range 28 32 c || (code c =? 133)%N || (code c =? 160)%N.

(** The regex classes [[A-Z]], [[a-z]], [\d]. *)
Definition is_AZ (c : ascii) : bool := in_range 65 90 c.
Definition is_az (c : ascii) : bool := in_range 97 122 c.
Definition is_d (c : ascii) : bool := in_range 48 57 c.

(** The regex class [\w] of a [str] pattern. *)
Definition isword (c : ascii) : bool :=
  is_d c || is_AZ c || (code c =? 95)%N || is_az c
  || (code c =? 170)%N || in_range 178 179 c || (code c =? 181)%N
  || in_range 185 186 c || in_range 188 190 c
  || in_range 192 214 c || in_range 216 246 c || in_range 248 255 c.

(** [str.isupper] and [str.isdigit] on one character. *)
Definition isupper (c : ascii) : bool :=
  is_AZ c || in_range 192 214 c || in_range 216 222 c.
Definition isdigit (c : ascii) : bool :=
  is_d c || in_range 178 179 c || (code c =? 185)%N.

(** [str.lower]. *)
Definition lower_char (c : ascii) : ascii :=
  if isupper c then ascii_of_N (code c + 32) else c.
Definition lower (s : str) : str := map lower_char s.

Definition eqb_char (a b : ascii) : bool := Ascii.eqb a b.

Fixpoint eqb (a b : str) : bool :=
  match a, b with
  | [], [] => true
  | x :: a', y :: b' => eqb_char x y && eqb a' b'
  | _, _ => false
  end.

(** [s.startswith(p)] *)
Fixpoint startswith (p s : str) : bool :=
  match p, s with
  | [], _ => true
  | x :: p', y :: s' => eqb_char x y && startswith p' s'
  | _ :: _, [] => false
  end.

(** [s.endswith(p)] *)
Definition endswith (p s : str) : bool := startswith (rev p) (rev s).

(** [p in s] for strings. *)
Fixpoint contains (p s : str) : bool :=
  startswith p s || match s with [] => false | _ :: s' => contains p s' end.

(** [x in l] for a list of strings. *)
Definition mem (x : str) (l : list str) : bool := existsb (eqb x) l.

(** [s.lstrip()], [s.rstrip()], [s.strip()] *)
Fixpoint lstrip (s : str) : str :=
  match s with
  | c :: s' => if isspace c then lstrip s' else s
  | [] => []
  end.
Definition rstrip (s : str) : str := rev (lstrip (rev s)).
Definition strip (s : str) : str := rstrip (lstrip s).

(** [s.split()]: the maximal runs of non-whitespace. *)
Fixpoint split_from (cur : str) (s : str) : list str :=
  match s with
  | [] => match cur with [] => [] | _ => [rev cur] end
  | c :: s' =>
      if isspace c
      then match cur with
           | [] => split_from [] s'
           | _ => rev cur :: split_from [] s'
           end
      else split_from (c :: cur) s'
  end.
Definition split (s : str) : list str := split_from [] s.

(** [sep.join(l)] *)
Fixpoint join (sep : str) (l : list str) : str :=
  match l with
  | [] => []
  | [x] => x
  | x :: l' => x ++ sep ++ join sep l'
  end.

(** [s.replace(old, new)] for a non-empty [old]: left to right, without
    overlaps.  [skip] counts the characters of a match still to pass. *)
Fixpoint replace_from (old new : str) (skip : nat) (s : str) : str :=
  match s with
  | [] => []
  | c :: s' =>
      match skip with
      | S k => replace_from old new k s'
      | O =>
          if startswith old s
          then new ++ replace_from old new (length old - 1) s'
          else c :: replace_from old new 0 s'
      end
  end.
Definition replace (old new s : str) : str := replace_from old new 0 s.

(** [l[:n]] and [l[i]] *)
Definition slice_to {A} (n : nat) (l : list A) : list A := firstn n l.
Definition getitem (l : list str) (i : nat) : str := nth i l [].

(** [l.index(x)]; the callers only ask for members. *)
Fixpoint index_from (x : str) (l : list str) (i : nat) : option nat :=
  match l with
  | [] => None
  | y :: l' => if eqb y x then Some i else index_from x l' (S i)
  end.
Definition index (x : str) (l : list str) : option nat := index_from x l 0.

(** *** [sorted]

    CPython's sort is stable, and with [reverse=True] elements that compare
    equal still keep their input order.  Insertion from the right gives that
    unique result: the head, which came first, is put in front of the first
    element it may precede. *)
Section Sorted.
Context {A : Type} (before : A -> A -> bool).

Fixpoint insert (x : A) (l : list A) : list A :=
  match l with
  | [] => [x]
  | y :: l' => if before x y then x :: l else y :: insert x l'
  end.

Fixpoint sorted_by (l : list A) : list A :=
  match l with
  | [] => []
  | x :: l' => insert x (sorted_by l')
  end.
End Sorted.

(** [sorted(l)] on integers. *)
Definition sorted (l : list nat) : list nat := sorted_by Nat.leb l.

(** [sorted(items, key=lambda x: x[1], reverse=True)] *)
Definition sorted_by_value_desc {K} (items : list (K * Q)) : list (K * Q) :=
  sorted_by (fun x y => Qle_bool (snd y) (snd x)) items.

(** *** Regular expressions

    A pattern is given by its matcher: from the character before the
    position (for [\b] and look-behind) and the rest of the text, the length
    of the match starting here, if any.  None of the patterns of the pipeline
    matches the empty string.  [re.sub] and [re.split] scan left to right
    and resume after each match. *)
Definition matcher := option ascii -> str -> option nat.

Fixpoint sub_from (m : matcher) (repl : str) (skip : nat)
    (prev : option ascii) (s : str) : str :=
  match s with
  | [] => []
  | c :: s' =>
      match skip with
      | S k => sub_from m repl k (Some c) s'
      | O =>
          match m prev s with
          | Some (S k) => repl ++ sub_from m repl k (Some c) s'
          | _ => c :: sub_from m repl 0 (Some c) s'
          end
      end
  end.
Definition re_sub (m : matcher) (repl s : str) : str := sub_from m repl 0 None s.

Fixpoint re_split_from (m : matcher) (skip : nat) (prev : option ascii)
    (cur : str) (s : str) : list str :=
  match s with
  | [] => [rev cur]
  | c :: s' =>
      match skip with
      | S k => re_split_from m k (Some c) [] s'
      | O =>
          match m prev s with
          | Some (S k) => rev cur :: re_split_from m k (Some c) [] s'
          | _ => re_split_from m 0 (Some c) (c :: cur) s'
          end
      end
  end.
Definition re_split (m : matcher) (s : str) : list str :=
  re_split_from m 0 None [] s.

(** [len(re.findall(m, s))] for a pattern without groups. *)
Fixpoint findall_from (m : matcher) (skip : nat) (prev : option ascii) (s : str)
    : nat :=
  match s with
  | [] => 0
  | c :: s' =>
      match skip with
      | S k => findall_from m k (Some c) s'
      | O =>
          match m prev s with
          | Some (S k) => S (findall_from m k (Some c) s')
          | _ => findall_from m 0 (Some c) s'
          end
      end
  end.
Definition re_findall_count (m : matcher) (s : str) : nat := findall_from m 0 None s.

(** Length of the longest prefix whose characters satisfy [p] (a greedy
    [[..]*]). *)
Fixpoint run (p : ascii -> bool) (s : str) : nat :=
  match s with
  | c :: s' => if p c then S (run p s') else 0
  | [] => 0
  end.

Definition notspace (c : ascii) : bool := negb (isspace c).

(** [\b] between [prev] and the head of [s]. *)
Definition word_boundary (prev : option ascii) (s : str) : bool :=
  xorb (match prev with Some c => isword c | None => false end)
       (match s with c :: _ => isword c | [] => false end).

(** *** Exceptions

    Code inside [try:] is a computation that returns a value or raises:
    [None] stands for any exception that [except Exception] catches. *)
Definition bind {A B} (c : option A) (k : A -> option B) : option B :=
  match c with
  | Some a => k a
  | None => None
  end.

Definition try_except {A} (body : option A) (handler : A) : A :=
  match body with
  | Some a => a
  | None => handler
  end.

(** *** Numbers *)
Definition Qlt_bool (a b : Q) : bool := negb (Qle_bool b a).
Definition Qnat (n : nat) : Q := inject_Z (Z.of_nat n).

(** [sum(...)] of floats. *)
Definition Qsum (l : list Q) : Q := fold_left Qplus l 0%Q.

(** [round(n / d)] for integers [n] and [d > 0]: the nearest integer to the
    quotient, a tie going to the even neighbour.  The double [n / d] is the
    double nearest to the quotient and every [k + 1/2] is a double, so
    rounding the double and rounding the quotient give the same integer
    (checked against the doubles in [round_div_float] below). *)
Definition round_div (n d : nat) : nat :=
  let q := n / d in
  let r := n mod d in
  if 2 * r <? d then q
  else if d <? 2 * r then S q
  else if Nat.even q then q else S q.

(** *** dict

    [d[k] = v]: a new key goes to the end, an existing key keeps its place. *)
Fixpoint dict_set {V} (d : list (str * V)) (k : str) (v : V) : list (str * V) :=
  match d with
  | [] => [(k, v)]
  | (k', v') :: d' =>
      if eqb k' k then (k', v) :: d' else (k', v') :: dict_set d' k v
  end.

(** [for k in keys: d[k] = f(k)] *)
Definition dict_fill {V} (f : str -> V) (keys : list str) (d : list (str * V))
    : list (str * V) :=
  fold_left (fun d k => dict_set d k (f k)) keys d.

(** [d.get(k, default)] *)
Fixpoint dict_get {V} (d : list (nat * V)) (k : nat) (default : V) : V :=
  match d with
  | [] => default
  | (k', v) :: d' => if k' =? k then v else dict_get d' k default
  end.

Fixpoint dict_get_str {V} (d : list (str * V)) (k : str) (default : V) : V :=
  match d with
  | [] => default
  | (k', v) :: d' => if eqb k' k then v else dict_get_str d' k default
  end.

(** [[l[i:i+size] for i in range(0, len(l), size)]] for [size > 0];
    [room] is what the open chunk [cur] can still take. *)
Fixpoint chunks_from {A} (size room : nat) (cur : list A) (l : list A)
    : list (list A) :=
  match l with
  | [] => match cur with [] => [] | _ => [rev cur] end
  | x :: l' =>
      match room with
      | S (S r) => chunks_from size (S r) (x :: cur) l'
      | _ => rev (x :: cur) :: chunks_from size size [] l'
      end
  end.
Definition chunks {A} (size : nat) (l : list A) : list (list A) :=
  chunks_from size size [] l.

(** *** More of [str], [list] and [re], used by the key points, the topics
    and the clean-up *)

(** [s.lstrip(chars)], [s.rstrip(chars)] *)
Fixpoint lstrip_chars (chars : str) (s : str) : str :=
  match s with
  | c :: s' => if existsb (eqb_char c) chars then lstrip_chars chars s' else s
  | [] => []
  end.
Definition rstrip_chars (chars : str) (s : str) : str :=
  rev (lstrip_chars chars (rev s)).

(** [l[-n:]]: the last [n] elements; the whole list when [n] exceeds the
    length, and also when [n] is 0, since [-0] is [0]. *)
Definition last_n {A} (n : nat) (l : list A) : list A :=
  match n with
  | O => l
  | _ => skipn (length l - n) l
  end.

(** [re.search(m, s) is not None] *)
Fixpoint search_from (m : matcher) (prev : option ascii) (s : str) : bool :=
  match s with
  | [] => false
  | c :: s' =>
      match m prev s with
      | Some (S _) => true
      | _ => search_from m (Some c) s'
      end
  end.
Definition re_search (m : matcher) (s : str) : bool := search_from m None s.

(** [s.count(sub)] for a non-empty [sub]: the occurrences from left to
    right, without overlaps. *)
Fixpoint count_from (sub : str) (skip : nat) (s : str) : nat :=
  match s with
  | [] => 0
  | c :: s' =>
      match skip with
      | S k => count_from sub k s'
      | O =>
          if startswith sub s then S (count_from sub (length sub - 1) s')
          else count_from sub 0 s'
      end
  end.
Definition count (sub s : str) : nat := count_from sub 0 s.

End Py.

(* ================================================================= *)
(** ** IEEE doubles

    Where the result of the source depends on the rounding of a double the
    model computes with the kernel's binary64 numbers. *)

Module Float64.

Definition of_nat (n : nat) : float := PrimFloat.of_uint63 (Uint63.of_Z (Z.of_nat n)).

(** The exact value of a finite double. *)
Definition value (f : float) : option Q :=
  match Prim2SF f with
  | S754_zero _ => Some 0%Q
  | S754_finite s m e =>
      let n := if s then Z.neg m else Z.pos m in
      Some (match e with
            | Z.neg p => (n # (2 ^ p))%Q
            | _ => inject_Z (n * 2 ^ e)
            end)
  | _ => None
  end.

(** Nearest integer to a rational, ties to even. *)
Definition round_half_even (q : Q) : Z :=
  let f := Qfloor q in
  match Qcompare (q - inject_Z f) (1 # 2) with
  | Lt => f
  | Gt => (f + 1)%Z
  | Eq => if Z.even f then f else (f + 1)%Z
  end.

(** [int(x)]: truncation; [None] where Python raises (nan, inf). *)
Definition int (x : float) : option Z :=
  match value x with
  | Some q => Some (Z.quot (Qnum q) (Z.pos (Qden q)))
  | None => None
  end.

(** [round(x)] *)
Definition round (x : float) : option Z :=
  match value x with
  | Some q => Some (round_half_even q)
  | None => None
  end.

(** [round(x, 1)], in tenths: CPython rounds the exact value of [x] to one
    decimal, ties to even, and returns the double nearest to that decimal;
    the result here is the decimal times ten. *)
Definition round1_tenths (x : float) : option Z :=
  match value x with
  | Some q => Some (round_half_even (q * 10))
  | None => None
  end.

End Float64.

Import Py.

Local Open Scope char_scope.
Local Open Scope nat_scope.

(* ================================================================= *)
(** ** The regular expressions of the two summarisers *)

Module Patterns.

(** [http[s]?://\S+] *)
Definition url : matcher := fun _ s =>
  let scheme :=
    if startswith (lit "https://") s then Some 8
    else if startswith (lit "http://") s then Some 7
    else None in
  match scheme with
  | Some n =>
      match run notspace (skipn n s) with
      | O => None
      | r => Some (n + r)
      end
  | None => None
  end.

(** [\S+@\S+]: the run of non-whitespace starting here, when it has an [@]
    with a character on each side; the greedy tail takes the whole run. *)
Definition email : matcher := fun _ s =>
  let n := run notspace s in
  if existsb (eqb_char "@") (firstn (n - 2) (skipn 1 (firstn n s)))
  then Some n else None.

(** [\s+] *)
Definition spaces : matcher := fun _ s =>
  match run isspace s with O => None | n => Some n end.

(** [\n{3,}] *)
Definition newlines3 : matcher := fun _ s =>
  let n := run (eqb_char "010") s in
  if 3 <=? n then Some n else None.

(** The two quote patterns of [clean_text]: each character class holds one
    character, the straight double quote (34) and the straight single quote
    (39), written two or three times. *)
Definition dquotes : matcher := fun _ s =>
  match run (eqb_char "034") s with O => None | n => Some n end.
Definition squotes : matcher := fun _ s =>
  match run (eqb_char "039") s with O => None | n => Some n end.

(** The body of [\b{abbr}\.] under [re.IGNORECASE]: the abbreviation is
    pasted into the pattern unescaped, so a [.] inside it ([i.e], [ph.d])
    matches any character but a newline; the final [\.] is a real period. *)
Fixpoint abbr_body (abbr : str) (s : str) : bool :=
  match abbr, s with
  | [], c :: _ => eqb_char c "."
  | p :: abbr', c :: s' =>
      (if eqb_char p "." then negb (eqb_char c "010")
       else eqb_char (lower_char c) p)
      && abbr_body abbr' s'
  | _, [] => false
  end.

Definition abbr_period (abbr : str) : matcher := fun prev s =>
  if word_boundary prev s && abbr_body abbr s
  then Some (S (length abbr)) else None.

Definition is_end_punct (c : ascii) : bool :=
  eqb_char c "." || eqb_char c "!" || eqb_char c "?".

(** [(?<=[.!?])\s+(?=ahead)]: after a sentence mark, the whole run of
    whitespace, provided the character after it is in [ahead]; a shorter
    run would be followed by whitespace and fail the look-ahead. *)
Definition boundary (ahead : ascii -> bool) : matcher := fun prev s =>
  match prev with
  | Some p =>
      if is_end_punct p then
        match run isspace s with
        | O => None
        | n =>
            match skipn n s with
            | c :: _ => if ahead c then Some n else None
            | [] => None
            end
        end
      else None
  | None => None
  end.

(** [\b[A-Z][A-Z]+\b]: a whole run of capitals, two at least, with no word
    character on either side. *)
Definition acronym : matcher := fun prev s =>
  let n := run is_AZ s in
  if word_boundary prev s && (2 <=? n)
     && negb (match skipn n s with c :: _ => isword c | [] => false end)
  then Some n else None.

(** [\b[A-Z][a-z]+(?:\s+[A-Z][a-z]+)*\b]: capitalised words separated by
    white space.  Every run is taken whole (a shorter one is followed by a
    character of the same class, which fits neither the next item nor [\b]).
    The match ends after the last capitalised word that is followed by a
    word boundary; [last] is the end of the previous word, which white space
    follows, where the star falls back to. *)
Inductive entity_state :=
| Capital   (* the capital of a word is read: a lower-case letter must follow *)
| Letters   (* inside the lower-case run of a word *)
| Gap.      (* inside the white space after a word *)

Fixpoint entity_scan (st : entity_state) (n : nat) (last : option nat) (s : str)
    : option nat :=
  match s with
  | [] => match st with Letters => Some n | _ => last end
  | c :: s' =>
      match st with
      | Capital => if is_az c then entity_scan Letters (S n) last s' else last
      | Letters =>
          if is_az c then entity_scan Letters (S n) last s'
          else if isspace c then entity_scan Gap (S n) (Some n) s'
          else if isword c then last
          else Some n
      | Gap =>
          if isspace c then entity_scan Gap (S n) last s'
          else if is_AZ c then entity_scan Capital (S n) last s'
          else last
      end
  end.

Definition entity : matcher := fun prev s =>
  match s with
  | c :: s' =>
      if word_boundary prev s && is_AZ c then entity_scan Capital 1 None s'
      else None
  | [] => None
  end.

End Patterns.

Definition PERIOD : str := lit "<PERIOD>".

(** The loop [for abbr in abbreviations: temp = re.sub(...)] of both
    segmenters; the replacement is the lower-case list entry. *)
Definition mask_abbreviations (abbreviations : list str) (text : str) : str :=
  fold_left
    (fun temp abbr => re_sub (Patterns.abbr_period abbr) (abbr ++ PERIOD) temp)
    abbreviations text.

Definition restore (s : str) : str := strip (replace PERIOD (lit ".") s).

#[local] Set Warnings "-inexact-float".

(** [int(total * ratio)]; the product of a sentence count and a ratio is
    always finite. *)
Definition int_of_product (total : nat) (ratio : float) : nat :=
  match Float64.int (PrimFloat.mul (Float64.of_nat total) ratio) with
  | Some z => Z.to_nat z
  | None => 0
  end.

(** [round((1 - summary_words / word_count) * 100, 1)] in tenths of a
    percent; [None] is the [ZeroDivisionError] of an empty text. *)
Definition compression_ratio (summary_words word_count : nat) : option Z :=
  match word_count with
  | O => None
  | _ =>
      Float64.round1_tenths
        (PrimFloat.mul
           (PrimFloat.sub (Float64.of_nat 1)
              (PrimFloat.div (Float64.of_nat summary_words)
                 (Float64.of_nat word_count)))
           (Float64.of_nat 100))
  end.

(** [max(1, round(words / 200))] *)
Definition reading_time_minutes (words : nat) : nat :=
  Nat.max 1 (round_div words 200).

(** The same through the double [words / 200]. *)
Definition round_div_float (n d : nat) : option Z :=
  Float64.round (PrimFloat.div (Float64.of_nat n) (Float64.of_nat d)).

Record statistics := {
  word_count : nat;
  sentence_count : nat;
  summary_word_count : nat;
  compression_tenths : Z;
  reading_time : nat;
  summary_reading_time : nat
}.

Definition uniform_scores (n : nat) : list (nat * Q) :=
  map (fun i => (i, 1.0%Q)) (seq 0 n).

(** *** scikit-learn

    What the scorers use of scikit-learn, for one vectorizer configuration:
    each of the two services builds its own [TfidfVectorizer]. *)
Record Sklearn := {
  (** The sparse TF-IDF matrix. *)
  tfidf_matrix : Type;
  (** Whether [from sklearn ... import ...] succeeds. *)
  sklearn_imports : bool;
  (** [TfidfVectorizer(...).fit_transform(sentences)] *)
  fit_transform : list str -> option tfidf_matrix;
  (** [tfidf[idx].sum()] *)
  row_sum : tfidf_matrix -> nat -> Q;
  (** [cosine_similarity(tfidf[idx], centroid)[0][0]] with
      [centroid = tfidf.mean(axis=0)] *)
  centroid_similarity : tfidf_matrix -> nat -> option Q
}.

(** What the topic and the concept extractors use of scikit-learn, for one
    vectorizer configuration. *)
Record FeatureRanking := {
  (** Whether [from sklearn.feature_extraction.text import TfidfVectorizer]
      succeeds. *)
  ranking_imports : bool;
  (** [[features[i] for i in tfidf.sum(axis=0).A1.argsort()]] with
      [tfidf = vectorizer.fit_transform(sentences)] and
      [features = vectorizer.get_feature_names_out()]: the feature names by
      ascending total weight, or an exception of the vectorizer. *)
  ranked_features : list str -> option (list str)
}.

(** [sent.endswith(('.', '!', '?'))] *)
Definition ends_sentence (sent : str) : bool :=
  endswith (lit ".") sent || endswith (lit "!") sent || endswith (lit "?") sent.

(* ================================================================= *)
(** ** document_summary.py *)

Module DocumentSummary.

Definition clean_text (text : str) : str :=
  let text := re_sub Patterns.url [] text in
  let text := re_sub Patterns.email [] text in
  let text := re_sub Patterns.spaces (lit " ") text in
  let text := re_sub Patterns.newlines3 ["010"; "010"] text in
  let text := re_sub Patterns.dquotes ["034"] text in
  let text := re_sub Patterns.squotes ["039"] text in
  strip text.

Definition abbreviations : list str :=
  map lit ["dr"; "mr"; "mrs"; "ms"; "prof"; "sr"; "jr"; "etc"; "vs"; "i.e"; "e.g";
           "ph.d"; "inc"; "ltd"; "co"; "dept"; "fig"; "no"; "vol"; "u.s"; "u.k"]%string.

Definition valid (sent : str) : bool :=
  (15 <? length sent) && (4 <=? length (split sent))
  && match sent with
     | c :: _ => isupper c || isdigit c
     | [] => false
     end.

Definition split_sentences (text : str) : list str :=
  let temp := mask_abbreviations abbreviations text in
  let sentences := re_split (Patterns.boundary is_AZ) temp in
  let sentences := map restore sentences in
  filter valid sentences.

(** *** Scorer *)

(** Position importance: [rel_pos = idx / len(sentences)] against 0.1 and
    0.9.  The quotient of the doubles is below (above) the double 0.1 (0.9)
    exactly when the rational quotient is below 1/10 (above 9/10). *)
Definition position_score (idx total : nat) : Q :=
  let rel_pos := (Qnat idx / Qnat total)%Q in
  if Qlt_bool rel_pos 0.1 then 1.0%Q
  else if Qlt_bool 0.9 rel_pos then 0.85%Q
  else 0.4%Q.

Definition length_score (n : nat) : Q :=
  if (15 <=? n) && (n <=? 30) then 1.0%Q
  else if ((10 <=? n) && (n <? 15)) || ((30 <? n) && (n <=? 35)) then 0.7%Q
  else 0.3%Q.

Definition keywords : list str :=
  map lit ["important"; "key"; "main"; "significant"; "critical"; "essential";
           "research"; "study"; "analysis"; "conclusion"; "result"; "process"]%string.

Definition keyword_score (sent : str) : Q :=
  Qsum (map (fun _ => 0.1%Q) (filter (fun kw => contains kw (lower sent)) keywords)).

Record summary := {
  main_summary : str;
  executive : str;
  selected_count : nat
}.

(** *** Assembler, from the score table on

    The [try] block of [generate_professional_summary] after
    [scores = calculate_sentence_importance(sentences, text)].  Nothing in it
    raises: every selected index is a key of [scores], which are the
    positions of [sentences]; so its [except] branch (the first ten
    sentences) is never taken. *)

Definition target_count (level : str) (total : nat) : nat :=
  if eqb level (lit "brief") then
    Nat.max 4 (Nat.min 8 (int_of_product total 0.15))
  else if eqb level (lit "comprehensive") then
    Nat.max 12 (Nat.min 25 (int_of_product total 0.35))
  else
    Nat.max 6 (Nat.min 15 (int_of_product total 0.25)).

(** [sorted([idx for idx, _ in sorted_scores[:target]])] *)
Definition selected_idx (scores : list (nat * Q)) (target : nat) : list nat :=
  sorted (map fst (slice_to target (sorted_by_value_desc scores))).

(** [sorted([idx for idx, _ in sorted_scores[:2]])] *)
Definition exec_idx (scores : list (nat * Q)) : list nat :=
  sorted (map fst (slice_to 2 (sorted_by_value_desc scores))).

Definition summary_of_scores (scores : list (nat * Q)) (sentences : list str)
    (level : str) : summary :=
  let target := target_count level (length sentences) in
  let selected := map (getitem sentences) (selected_idx scores target) in
  let paragraphs := map (join (lit " ")) (chunks 4 selected) in
  let executive := join (lit " ") (map (getitem sentences) (exec_idx scores)) in
  {| main_summary := join ["010"; "010"] paragraphs;
     executive := executive;
     selected_count := length selected |}.

Section Sklearn.
(** [TfidfVectorizer(stop_words='english', ngram_range=(1, 2))] *)
Variable sk : Sklearn.

Definition sentence_score (tfidf : tfidf_matrix sk) (total idx : nat) (sent : str)
    : option Q :=
  let words := split sent in
  let tfidf_score := Qmin (row_sum sk tfidf idx / 10.0) 1.0 in
  bind (centroid_similarity sk tfidf idx) (fun sim =>
  let pos_score := position_score idx total in
  let len_score := length_score (length words) in
  let kw_score := keyword_score sent in
  Some (0.0 + tfidf_score * 0.30 + sim * 0.25 + pos_score * 0.20
        + len_score * 0.15 + Qmin kw_score 1.0 * 0.10)%Q).

(** [for idx, sent in enumerate(sentences): ... scores[idx] = score] *)
Fixpoint score_loop (tfidf : tfidf_matrix sk) (total idx : nat) (sentences : list str)
    : option (list (nat * Q)) :=
  match sentences with
  | [] => Some []
  | sent :: rest =>
      bind (sentence_score tfidf total idx sent) (fun score =>
      bind (score_loop tfidf total (S idx) rest) (fun scores =>
      Some ((idx, score) :: scores)))
  end.

(** The [try] block of the scorer. *)
Definition importance_body (sentences : list str) : option (list (nat * Q)) :=
  if negb (sklearn_imports sk) then None
  else if length sentences <? 3 then Some (uniform_scores (length sentences))
  else
    bind (fit_transform sk sentences) (fun tfidf =>
    score_loop tfidf (length sentences) 0 sentences).

Definition calculate_sentence_importance (sentences : list str) (text : str)
    : list (nat * Q) :=
  try_except (importance_body sentences) (uniform_scores (length sentences)).

(** *** Assembler *)

Definition generate_professional_summary (sentences : list str) (text level : str)
    : summary :=
  summary_of_scores (calculate_sentence_importance sentences text) sentences level.

(** *** Request handler, from the extracted text on *)

Inductive response :=
| Error (message : string)
| Ok (result : summary) (stats : statistics).

Definition document_summary (text level : str) : response :=
  if negb (sklearn_imports sk) then
    Error "Install: pip install scikit-learn PyMuPDF python-docx"
  else if (length (strip text) =? 0) || (length text <? 100) then
    Error "Document too short or empty"
  else
    let clean := clean_text text in
    let sentences := split_sentences clean in
    if length sentences <? 3 then Error "Insufficient content to summarize"
    else
      let result := generate_professional_summary sentences clean level in
      let word_count := length (split clean) in
      let summary_words := length (split (main_summary result)) in
      match compression_ratio summary_words word_count with
      | None => Error "division by zero"
      | Some compression =>
          Ok result
            {| word_count := word_count;
               sentence_count := length sentences;
               summary_word_count := summary_words;
               compression_tenths := compression;
               reading_time := reading_time_minutes word_count;
               summary_reading_time := reading_time_minutes summary_words |}
      end.

End Sklearn.

(** *** Key points *)

(** The body of the loop of [generate_key_points]. *)
Definition key_point (sentence : str) : str :=
  let sent := strip sentence in
  if ends_sentence sent then sent else sent ++ lit ".".

(** [generate_key_points] after [scores = ...]; the indices are those of
    [sorted([idx for idx, _ in sorted(...)[:count]])], the expression of
    [selected_idx]. *)
Definition key_points_of_scores (scores : list (nat * Q)) (sentences : list str)
    (count : nat) : list str :=
  map (fun idx => key_point (getitem sentences idx)) (selected_idx scores count).

Section KeyPoints.
Variable sk : Sklearn.

Definition generate_key_points (sentences : list str) (text : str) (count : nat)
    : list str :=
  key_points_of_scores (calculate_sentence_importance sk sentences text)
    sentences count.

End KeyPoints.

(** The [paragraph_count] of the statistics:
    [main_summary.count('\n\n') + 1]. *)
Definition paragraph_count (main_summary : str) : nat :=
  count ["010"; "010"] main_summary + 1.

(** *** Key concepts *)

(** The filter [len(f.split()) > 1 or f[0].isupper()] of the comprehension;
    [None] is the [IndexError] of [f[0]] on an empty feature. *)
Definition is_concept (feature : str) : option bool :=
  if 1 <? length (split feature) then Some true
  else match feature with
       | c :: _ => Some (isupper c)
       | [] => None
       end.

Fixpoint concepts_of (features : list str) : option (list str) :=
  match features with
  | [] => Some []
  | feature :: rest =>
      bind (is_concept feature) (fun keep =>
      bind (concepts_of rest) (fun concepts =>
      Some (if keep then feature :: concepts else concepts)))
  end.

Section Concepts.
(** [TfidfVectorizer(max_features=15, stop_words='english',
    ngram_range=(1, 3), min_df=1, max_df=0.8)] *)
Variable ranking : FeatureRanking.

(** The [try] block of [extract_key_concepts]. *)
Definition key_concepts_body (sentences : list str) : option (list str) :=
  if negb (ranking_imports ranking) then None
  else if length sentences <? 3 then Some []
  else
    bind (ranked_features ranking sentences) (fun ranked =>
    let top := rev (last_n 10 ranked) in
    bind (concepts_of top) (fun concepts =>
    Some (slice_to 6 concepts))).

Definition extract_key_concepts (text : str) (sentences : list str) : list str :=
  try_except (key_concepts_body sentences) [].

End Concepts.

(** *** Text extraction

    What [extract_text_from_pdf] uses of PyMuPDF is the text of each page,
    [page.get_text()], in the order of the pages; what
    [extract_text_from_word] uses of python-docx is [para.text] for each
    paragraph. *)
Record page := {
  page_num : nat;
  page_text : str;
  page_word_count : nat
}.

(** [for page_num, page in enumerate(pdf): ...] *)
Fixpoint pdf_loop (page_num : nat) (full_text : str) (pages_text : list page)
    (pdf : list str) : str * list page :=
  match pdf with
  | [] => (full_text, pages_text)
  | text :: rest =>
      pdf_loop (S page_num) (full_text ++ text ++ ["010"; "010"])
        (pages_text
         ++ [{| page_num := page_num + 1;
                page_text := text;
                page_word_count := length (split text) |}])
        rest
  end.

Definition extract_text_from_pdf (pdf : list str) : str * list page :=
  pdf_loop 0 [] [] pdf.

Definition extract_text_from_word (paragraphs : list str) : str * list page :=
  let full_text :=
    join ["010"] (filter (fun text => negb (length (strip text) =? 0)) paragraphs) in
  (full_text,
   [{| page_num := 1;
       page_text := full_text;
       page_word_count := length (split full_text) |}]).

End DocumentSummary.

(* ================================================================= *)
(** ** text_summary.py *)

Module TextSummary.

Definition preprocess_text (text : str) : str :=
  let text := re_sub Patterns.spaces (lit " ") text in
  let text := re_sub Patterns.url [] text in
  let text := re_sub Patterns.email [] text in
  strip text.

Definition abbreviations : list str :=
  map lit ["dr"; "mr"; "mrs"; "ms"; "prof"; "sr"; "jr"; "etc"; "vs"; "i.e"; "e.g";
           "ph.d"; "inc"; "ltd"; "co"; "corp"; "dept"; "fig"; "no"; "vol"; "approx";
           "jan"; "feb"; "mar"; "apr"; "may"; "jun"; "jul"; "aug"; "sep"; "oct";
           "nov"; "dec"]%string.

Definition ahead (c : ascii) : bool :=
  is_AZ c || eqb_char c "034" || eqb_char c "039".

Definition split_into_sentences (text : str) : list str :=
  let temp_text := mask_abbreviations abbreviations text in
  let sentences := re_split (Patterns.boundary ahead) temp_text in
  map restore (filter (fun s => 10 <? length (strip s)) sentences).

(** *** Scorer: the twelve factors *)

(** 3. Position: [idx] against [total * 0.10], [total * 0.25] and
    [total * 0.85].  The double products compare with the integer [idx] as
    the exact products do: [total * 0.25] is exact, and a product that is an
    integer in the rationals is that integer as a double. *)
Definition position_score (idx total : nat) : Q :=
  if Qlt_bool (Qnat idx) (Qnat total * 0.10) then 0.6%Q
  else if Qlt_bool (Qnat idx) (Qnat total * 0.25) then 0.3%Q
  else if Qlt_bool (Qnat total * 0.85) (Qnat idx) then 0.4%Q
  else 0.0%Q.

(** 4. Length *)
Definition length_score (word_count : nat) : Q :=
  if (15 <=? word_count) && (word_count <=? 30) then 1.0%Q
  else if ((10 <=? word_count) && (word_count <? 15))
          || ((30 <? word_count) && (word_count <=? 40)) then 0.8%Q
  else 0.4%Q.

(** 5. Keyword indicators *)
Definition indicators : list (str * Q) :=
  map (fun p => (lit (fst p), snd p))
    [("important", 0.35); ("significant", 0.35); ("critical", 0.35);
     ("key", 0.25); ("essential", 0.35); ("main", 0.25); ("primary", 0.25);
     ("conclude", 0.45); ("therefore", 0.35); ("thus", 0.35);
     ("however", 0.25); ("moreover", 0.25); ("furthermore", 0.25);
     ("result", 0.25); ("found", 0.25); ("show", 0.25);
     ("demonstrate", 0.25); ("indicate", 0.25); ("suggest", 0.25);
     ("reveals", 0.3); ("highlights", 0.3); ("emphasizes", 0.3)]%string%Q.

Definition keyword_score (sentence_lower : str) : Q :=
  Qmin (fold_left
          (fun acc kw => if contains (fst kw) sentence_lower then acc + snd kw else acc)%Q
          indicators 0.0%Q)
       0.6.

(** 6. Numeric data: [re.search(r'\d+', sentence)] *)
Definition numeric_score (sentence : str) : Q :=
  if existsb is_d sentence then 0.2%Q else 0.0%Q.

(** 7. Named entities *)
Definition entity_score (sentence : str) : Q :=
  Qmin (Qnat (re_findall_count Patterns.entity sentence) * 0.03) 0.25.

(** 8. Question and answer patterns; the alternatives of the [re.match] are
    compared without case. *)
Definition answer_openers : list str :=
  map lit ["the answer is"; "this means"; "in other words"; "to address"]%string.

Definition qa_score (sentence : str) : Q :=
  if endswith (lit "?") sentence then 0.2%Q
  else if existsb (fun p => startswith p (lower sentence)) answer_openers then 0.25%Q
  else 0.0%Q.

(** 9. Proper nouns *)
Definition proper_noun_score (sentence : str) : Q :=
  Qmin (Qnat (re_findall_count Patterns.acronym sentence) * 0.06) 0.2.

(** 10. Completeness *)
Definition completeness_score (sentence : str) : Q :=
  let s := strip sentence in
  if endswith (lit ".") s || endswith (lit "!") s || endswith (lit "?") s
  then 0.15%Q else 0.0%Q.

(** 11. Technical terms *)
Definition technical_terms : list str :=
  map lit ["data"; "system"; "process"; "method"; "approach"; "technique";
           "analysis"; "research"]%string.

Definition tech_score (sentence_lower : str) : Q :=
  Qmin (Qsum (map (fun _ => 0.03%Q)
                (filter (fun term => contains term sentence_lower) technical_terms)))
       0.2.

(** [set(l)] as the list of the distinct elements. *)
Fixpoint distinct_from (seen : list str) (l : list str) : list str :=
  match l with
  | [] => []
  | x :: l' =>
      if mem x seen then distinct_from seen l'
      else x :: distinct_from (x :: seen) l'
  end.
Definition distinct (l : list str) : list str := distinct_from [] l.

(** 12. Coherence with the previous sentence *)
Definition coherence_score (sentences : list str) (idx : nat) (sentence : str) : Q :=
  match idx with
  | O => 0.0%Q
  | S prev =>
      let prev_words := distinct (split (lower (getitem sentences prev))) in
      let curr_words := distinct (split (lower sentence)) in
      let overlap := length (filter (fun w => mem w curr_words) prev_words) in
      Qmin (Qnat overlap * 0.02) 0.15
  end.

Record level_config := { ratio : float; min_count : nat; max_count : nat }.

Definition brief : level_config := {| ratio := 0.15; min_count := 3; max_count := 6 |}.
Definition detailed : level_config := {| ratio := 0.25; min_count := 5; max_count := 12 |}.
Definition comprehensive : level_config :=
  {| ratio := 0.40; min_count := 10; max_count := 20 |}.

Definition level_configs : list (str * level_config) :=
  [(lit "brief", brief); (lit "detailed", detailed); (lit "comprehensive", comprehensive)].

Definition config_of (summary_level : str) : level_config :=
  dict_get_str level_configs summary_level detailed.

Definition main_count (summary_level : str) (sentence_count : nat) : nat :=
  let config := config_of summary_level in
  Nat.max (min_count config)
    (Nat.min (max_count config) (int_of_product sentence_count (ratio config))).

(** The five sumy summarizers of the ensemble, in the order of the dict. *)
Inductive summarizer := lsa | lexrank | textrank | luhn | kl.
Definition summarizers : list summarizer := [lsa; lexrank; textrank; luhn; kl].

(** What the ensemble uses of sumy. *)
Record Sumy := {
  document : Type;
  (** Whether [from sumy.parsers.plaintext import PlaintextParser] succeeds. *)
  sumy_imports : bool;
  (** The imports of the summarizers,
      [PlaintextParser.from_string(text, Tokenizer("english"))], the stemmer
      and the stop words: the parsed document, or an exception (a missing
      module, missing tokenizer data). *)
  sumy_parse : str -> option document;
  (** [summarizer(parser.document, target_count)] as the list of
      [str(sentence)], or an exception. *)
  summarize : summarizer -> document -> nat -> option (list str)
}.

(** *** Selection, from the score tables on *)

(** [combined_scores]: one entry per distinct sentence text, in the order of
    first occurrence; [sentences.index(sent)] is that first occurrence. *)
Definition combined_score (votes : str -> nat) (custom_scores : list (nat * Q))
    (sentences : list str) (sent : str) : Q :=
  let vote_score := (Qnat (votes sent) / Qnat (Nat.max (length summarizers) 1))%Q in
  let custom_score :=
    match index sent sentences with
    | Some i => dict_get custom_scores i 0%Q
    | None => 0%Q
    end in
  (vote_score * 0.55 + custom_score * 0.45)%Q.

Definition combined_scores (votes : str -> nat) (custom_scores : list (nat * Q))
    (sentences : list str) : list (str * Q) :=
  dict_fill (combined_score votes custom_scores sentences) sentences [].

(** [[sent for sent, score in sorted(...)[:target_count]]] *)
Definition ensemble_selected (combined : list (str * Q)) (target_count : nat)
    : list str :=
  map fst (slice_to target_count (sorted_by_value_desc combined)).

(** [for sentence in sentences: if sentence in selected: append; break once
    target_count are taken]; [count] is [len(ordered_summary)]. *)
Fixpoint ordered_from (selected : list str) (target_count count : nat)
    (sentences : list str) : list str :=
  match sentences with
  | [] => []
  | sentence :: rest =>
      if mem sentence selected then
        sentence ::
          (if target_count <=? S count then []
           else ordered_from selected target_count (S count) rest)
      else ordered_from selected target_count count rest
  end.
Definition ordered_summary (selected : list str) (target_count : nat)
    (sentences : list str) : list str :=
  ordered_from selected target_count 0 sentences.

(** The [except] branch of the ensemble: ranking by the custom scores. *)
Definition fallback_indices (scores : list (nat * Q)) (target_count : nat) : list nat :=
  sorted (map fst (slice_to target_count (sorted_by_value_desc scores))).

(** [generate_executive_summary] after [scores = ...]. *)
Definition executive_candidates (scores : list (nat * Q)) (sentences : list str)
    : list str :=
  let first_sentences := slice_to 2 sentences in
  let top_scored := slice_to 3 (sorted_by_value_desc scores) in
  first_sentences ++ map (fun p => getitem sentences (fst p)) top_scored.

Definition candidate_score (scores : list (nat * Q)) (sentences : list str)
    (sent : str) : Q :=
  let idx :=
    if mem sent sentences
    then match index sent sentences with Some i => i | None => 0 end
    else 0 in
  dict_get scores idx 0%Q.

Definition unique_scores (scores : list (nat * Q)) (sentences : list str)
    : list (str * Q) :=
  dict_fill (candidate_score scores sentences)
    (distinct (executive_candidates scores sentences)) [].

Definition executive_sentences (scores : list (nat * Q)) (sentences : list str)
    : list str :=
  map fst (slice_to 2 (sorted_by_value_desc (unique_scores scores sentences))).

Section Libraries.
(** [TfidfVectorizer(stop_words='english', ngram_range=(1, 3),
    max_features=500)] *)
Variable sk : Sklearn.
Variable sumy : Sumy.

Definition sentence_score (tfidf : tfidf_matrix sk) (sentences : list str)
    (idx : nat) (sentence : str) : option Q :=
  let tfidf_score := row_sum sk tfidf idx in
  bind (centroid_similarity sk tfidf idx) (fun centroid_sim =>
  let position := position_score idx (length sentences) in
  let words := split sentence in
  let sentence_lower := lower sentence in
  Some (tfidf_score * 0.22
        + centroid_sim * 0.18
        + position * 0.14
        + length_score (length words) * 0.12
        + keyword_score sentence_lower * 0.10
        + numeric_score sentence * 0.05
        + entity_score sentence * 0.05
        + qa_score sentence * 0.04
        + proper_noun_score sentence * 0.03
        + completeness_score sentence * 0.03
        + tech_score sentence_lower * 0.02
        + coherence_score sentences idx sentence * 0.02)%Q).

Fixpoint score_loop (tfidf : tfidf_matrix sk) (sentences : list str) (idx : nat)
    (rest : list str) : option (list (nat * Q)) :=
  match rest with
  | [] => Some []
  | sentence :: rest' =>
      bind (sentence_score tfidf sentences idx sentence) (fun score =>
      bind (score_loop tfidf sentences (S idx) rest') (fun scores =>
      Some ((idx, score) :: scores)))
  end.

(** The [try] block of the scorer. *)
Definition advanced_body (sentences : list str) : option (list (nat * Q)) :=
  if negb (sklearn_imports sk) then None
  else if length sentences <? 3 then Some (uniform_scores (length sentences))
  else
    bind (fit_transform sk sentences) (fun tfidf =>
    score_loop tfidf sentences 0 sentences).

Definition calculate_advanced_scores (sentences : list str) (text : str)
    : list (nat * Q) :=
  try_except (advanced_body sentences) (uniform_scores (length sentences)).

(** *** Ensemble selection *)

(** [sentence_votes]: a summarizer that raises is skipped. *)
Definition sentence_votes (doc : document sumy) (target_count : nat) (sent : str)
    : nat :=
  fold_left
    (fun votes name =>
       match summarize sumy name doc target_count with
       | Some summary => votes + length (filter (eqb sent) summary)
       | None => votes
       end)
    summarizers 0.

(** The sentences of the main summary, before they are joined: the [try]
    block when sumy loads and parses, its [except] branch otherwise. *)
Definition ensemble_sentences (text : str) (sentences : list str) (target_count : nat)
    : list str :=
  let custom_scores := calculate_advanced_scores sentences text in
  match sumy_parse sumy text with
  | Some doc =>
      let combined :=
        combined_scores (sentence_votes doc target_count) custom_scores sentences in
      ordered_summary (ensemble_selected combined target_count) target_count sentences
  | None => map (getitem sentences) (fallback_indices custom_scores target_count)
  end.

Definition generate_ensemble_summary (text : str) (sentences : list str)
    (target_count : nat) : str :=
  join (lit " ") (ensemble_sentences text sentences target_count).

(** *** Executive summary *)

Definition generate_executive_summary (text : str) (sentences : list str) : str :=
  join (lit " ")
    (executive_sentences (calculate_advanced_scores sentences text) sentences).

(** *** Request handler, from the posted text on *)

Record summaries := {
  summary : str;
  executive_summary : str
}.

Inductive response :=
| Error (message : string)
| Ok (result : summaries) (stats : statistics).

Definition text_summary (posted level : str) : response :=
  let text := strip posted in
  if negb (sumy_imports sumy) || negb (sklearn_imports sk) then
    Error "Missing dependency. Run: pip install sumy nltk scikit-learn"
  else if length text =? 0 then Error "No text provided"
  else if length text <? 50 then
    Error "Text too short. Minimum 50 characters required"
  else
    let clean_text := preprocess_text text in
    let sentences := split_into_sentences clean_text in
    let word_count := length (split clean_text) in
    let sentence_count := length sentences in
    if sentence_count <? 3 then
      Error "Text must contain at least 3 complete sentences"
    else
      let main_count := main_count level sentence_count in
      let main_summary := generate_ensemble_summary clean_text sentences main_count in
      let executive := generate_executive_summary clean_text sentences in
      let summary_words := length (split main_summary) in
      match compression_ratio summary_words word_count with
      | None => Error "Summarization failed: division by zero"
      | Some compression =>
          Ok {| summary := main_summary; executive_summary := executive |}
            {| word_count := word_count;
               sentence_count := sentence_count;
               summary_word_count := summary_words;
               compression_tenths := compression;
               reading_time := reading_time_minutes word_count;
               summary_reading_time := reading_time_minutes summary_words |}
      end.

End Libraries.

(** *** Text type *)

Definition technical_keywords : list str :=
  map lit ["algorithm"; "methodology"; "hypothesis"; "analysis"; "implementation";
           "framework"; "optimization"; "evaluation"; "parameter"; "coefficient";
           "statistical"; "empirical"; "theoretical"; "experimental"; "research";
           "dataset"; "machine learning"; "model"; "training"; "accuracy"]%string.

Definition technical_count (text : str) : nat :=
  let text_lower := lower text in
  length (filter (fun keyword => contains keyword text_lower) technical_keywords).

(** The three strings [detect_text_type] returns. *)
Inductive text_type := Technical | Academic | General.

Definition detect_text_type (text : str) : text_type :=
  let technical_count := technical_count text in
  if 5 <=? technical_count then Technical
  else if 2 <=? technical_count then Academic
  else General.

(** *** Topics *)

Definition default_topics : list str :=
  map lit ["analysis"; "information"; "content"]%string.

Section Topics.
(** [TfidfVectorizer(max_features=50, stop_words='english',
    ngram_range=(1, 2), min_df=1)] *)
Variable ranking : FeatureRanking.

(** The outer [try] block of [extract_topics]; the inner one has a bare
    [except] that returns the empty list. *)
Definition topics_body (text : str) (num_topics : nat) : option (list str) :=
  if negb (ranking_imports ranking) then None
  else
    let sentences := split_into_sentences text in
    if length sentences <? 3 then Some []
    else
      Some (try_except
              (bind (ranked_features ranking sentences) (fun ranked =>
               Some (rev (last_n num_topics ranked))))
              []).

Definition extract_topics (text : str) (num_topics : nat) : list str :=
  try_except (topics_body text num_topics) [].

(** The [topics] field of the response:
    [topics if topics else ['analysis', 'information', 'content']]. *)
Definition response_topics (clean_text : str) : list str :=
  match extract_topics clean_text 5 with
  | [] => default_topics
  | topics => topics
  end.

End Topics.

(** *** Bullet points *)

(** The body of the loop of [generate_complete_bullet_points]. *)
Definition bullet_point (sentence : str) : str :=
  let sentence := strip sentence in
  if ends_sentence sentence then sentence
  else rstrip_chars (lit " ,;:") sentence ++ lit ".".

(** [for idx in top_indices: ...]; [made] is [len(bullet_points)]. *)
Fixpoint bullets_from (sentences : list str) (count : nat) (seen : list nat)
    (made : nat) (top_indices : list nat) : list str :=
  match top_indices with
  | [] => []
  | idx :: rest =>
      if existsb (Nat.eqb idx) seen || (length sentences <=? idx)
      then bullets_from sentences count seen made rest
      else
        bullet_point (getitem sentences idx) ::
          (if count <=? S made then []
           else bullets_from sentences count (idx :: seen) (S made) rest)
  end.

(** [generate_complete_bullet_points] after [scores = ...]. *)
Definition bullet_points_of_scores (scores : list (nat * Q)) (sentences : list str)
    (count : nat) : list str :=
  let count := Nat.min count (Nat.max 1 (length sentences)) in
  let top_indices := map fst (slice_to count (sorted_by_value_desc scores)) in
  let top_indices := sorted top_indices in
  bullets_from sentences count [] 0 top_indices.

(** [bullet_count = min(7, max(3, sentence_count // 3))] of the handler. *)
Definition bullet_count (sentence_count : nat) : nat :=
  Nat.min 7 (Nat.max 3 (sentence_count / 3)).

Section BulletPoints.
Variable sk : Sklearn.

Definition generate_complete_bullet_points (sentences : list str) (text : str)
    (count : nat) : list str :=
  bullet_points_of_scores (calculate_advanced_scores sk sentences text)
    sentences count.

(** The [key_points] field of the response. *)
Definition response_key_points (clean_text : str) (sentences : list str) : list str :=
  generate_complete_bullet_points sentences clean_text
    (bullet_count (length sentences)).

End BulletPoints.

End TextSummary.

(* ================================================================= *)
(** ** Vocabulary of the properties *)

(** A score table over the sentence positions [0 .. n-1], in that order:
    what both scorers build, on the normal path and on the fallback. *)
Definition total_table (scores : list (nat * Q)) (n : nat) : Prop :=
  map fst scores = seq 0 n.

(** [p] ranks before [q]: a higher score, or the same score and a lower
    index. *)
Definition ranks (p q : nat * Q) : Prop :=
  (snd q < snd p)%Q \/ ((snd p == snd q)%Q /\ fst p < fst q).

(** [idxs] are positions of [sentences] in reading order. *)
Definition reading_order (sentences : list str) (idxs : list nat) : Prop :=
  StronglySorted lt idxs /\ Forall (fun i => i < length sentences) idxs.

(** "Rounded up": the least number of minutes that covers [words] at
    [per_minute] words a minute. *)
Definition rounded_up (words per_minute : nat) : nat :=
  (words + per_minute - 1) / per_minute.

(** [r] is the integer nearest to [n / d], a tie going to the even one. *)
Definition nearest_ties_even (r n d : nat) : Prop :=
  2 * d * r <= 2 * n + d
  /\ 2 * n <= 2 * d * r + d
  /\ (2 * d * r = 2 * n + d \/ 2 * n = 2 * d * r + d -> Nat.even r = true).

(** The statistics of a response, as the handlers compute them from the
    word counts of the cleaned text and of the main summary. *)
Definition statistics_as_coded (stats : statistics) (words summary_words : nat)
    : Prop :=
  word_count stats = words
  /\ summary_word_count stats = summary_words
  /\ (exists r, nearest_ties_even r words 200 /\ reading_time stats = Nat.max 1 r)
  /\ (exists r, nearest_ties_even r summary_words 200
                /\ summary_reading_time stats = Nat.max 1 r)
  /\ compression_ratio summary_words words = Some (compression_tenths stats).

(** Every whitespace character of [s] is a blank and no two of them are
    adjacent; after a blank ([after_space]) [s] does not start with one. *)
Fixpoint single_spaced (after_space : bool) (s : str) : bool :=
  match s with
  | [] => true
  | c :: s' =>
      if isspace c then eqb_char c " " && negb after_space && single_spaced true s'
      else single_spaced false s'
  end.

(** The shortest texts that [http[s]?://\S+] and [\S+@\S+] match: a scheme
    and one more character, an at sign between two characters. *)
Definition url_start (P : str) : Prop :=
  exists x, notspace x = true
            /\ (P = lit "https://" ++ [x] \/ P = lit "http://" ++ [x]).

Definition email_core (P : str) : Prop :=
  exists a b, notspace a = true /\ notspace b = true /\ P = [a; "@"; b].

(** An abbreviation whose first character is neither the wildcard nor white
    space, as all of both lists are. *)
Definition starts_plain (abbr : str) : bool :=
  match abbr with
  | p :: _ => negb (eqb_char p ".") && notspace p
  | [] => false
  end.

(** The number of words [split] finds in [s], the scan being inside a word
    ([inword]) or not. *)
Fixpoint words_from (inword : bool) (s : str) : nat :=
  match s with
  | [] => if inword then 1 else 0
  | c :: s' =>
      if isspace c then (if inword then 1 else 0) + words_from false s'
      else words_from true s'
  end.

(** Not a line feed. *)
Definition notnewline (c : ascii) : bool := negb (eqb_char "010" c).

(* ================================================================= *)
(** ** Concrete libraries and inputs used in the examples *)

Module Examples.

(** scikit-learn is not installed: the import raises. *)
Definition sklearn_missing : Sklearn :=
  {| tfidf_matrix := unit;
     sklearn_imports := false;
     fit_transform := fun _ => None;
     row_sum := fun _ _ => 0%Q;
     centroid_similarity := fun _ _ => None |}.

(** A vectorizer whose matrix has the given row sums and similarities to the
    centroid. *)
Definition sklearn_rows (rows : list (Q * Q)) : Sklearn :=
  {| tfidf_matrix := unit;
     sklearn_imports := true;
     fit_transform := fun _ => Some tt;
     row_sum := fun _ idx => fst (nth idx rows (0%Q, 0%Q));
     centroid_similarity := fun _ idx => Some (snd (nth idx rows (0%Q, 0%Q))) |}.

(** A vectorizer that fits, and a similarity computation that raises. *)
Definition sklearn_similarity_raises : Sklearn :=
  {| tfidf_matrix := unit;
     sklearn_imports := true;
     fit_transform := fun _ => Some tt;
     row_sum := fun _ _ => 1%Q;
     centroid_similarity := fun _ _ => None |}.

(** sumy is not installed. *)
Definition sumy_missing : TextSummary.Sumy :=
  {| TextSummary.document := unit;
     TextSummary.sumy_imports := false;
     TextSummary.sumy_parse := fun _ => None;
     TextSummary.summarize := fun _ _ _ => None |}.

(** sumy is installed, the data of its tokenizer is not: the parser raises. *)
Definition sumy_no_tokenizer : TextSummary.Sumy :=
  {| TextSummary.document := unit;
     TextSummary.sumy_imports := true;
     TextSummary.sumy_parse := fun _ => None;
     TextSummary.summarize := fun _ _ _ => None |}.

(** A sumy whose five summarizers all return the first [n] of the given
    sentences. *)
Definition sumy_first (sentences : list str) : TextSummary.Sumy :=
  {| TextSummary.document := unit;
     TextSummary.sumy_imports := true;
     TextSummary.sumy_parse := fun _ => Some tt;
     TextSummary.summarize := fun _ _ n => Some (firstn n sentences) |}.

Definition three_sentences : list str :=
  map lit ["Alpha systems were measured first in the study.";
           "Beta systems were measured second in the study.";
           "Gamma systems were measured third in the study."]%string.

Definition smith : str := lit "Dr. Smith met Prof. Lee on Jan. 5.".

(** A text of three sentences and 24 words. *)
Definition short_text : str := join (lit " ") three_sentences.

(** A document of 25 sentences of ten words: 250 words. *)
Definition long_text : str :=
  concat (repeat (lit "Alpha systems were measured first in the study today ok. ") 25).

(** A posted text with a link in it. *)
Definition linked_text : str :=
  lit "See the full report at https://example.org/report for all the details.".

(** A sentence that spells out the placeholder of the segmenters. *)
Definition placeholder_text : str := lit "Use the <PERIOD> marker in templates.".

(** Every text made of four pieces out of: nothing, the two URL schemes, an
    at sign, letters, a period, blank, newline and the two quotes. *)
Definition pieces : list str :=
  [[]; lit "http://"; lit "https://"; lit "@"; lit "a"; lit "x."; lit " ";
   ["010"]; ["034"]; ["039"]]%char.

Fixpoint texts (n : nat) : list str :=
  match n with
  | O => [[]]
  | S k => flat_map (fun t => map (app t) (texts k)) pieces
  end.

(** Rising row sums: the later a sentence, the higher its score. *)
Definition sklearn_rising : Sklearn :=
  sklearn_rows [(1.0, 0.5); (2.0, 0.5); (3.0, 0.5)]%Q.

End Examples.

(* ================================================================= *)
(** * Properties *)

(** ** Lists, strings and sorting *)

Module Facts.

Lemma eqb_char_eq (a b : ascii) : eqb_char a b = true <-> a = b.
Proof. unfold eqb_char. apply Ascii.eqb_eq. Qed.

Lemma eqb_eq (a b : str) : Py.eqb a b = true <-> a = b.
Proof.
  revert b. induction a as [|x a IH]; intros [|y b]; simpl; split;
    try congruence; try discriminate.
  - rewrite andb_true_iff, eqb_char_eq, IH. intros [-> ->]. reflexivity.
  - intros H. injection H as -> ->. rewrite andb_true_iff, eqb_char_eq, IH. auto.
Qed.

Lemma eqb_refl (a : str) : Py.eqb a a = true.
Proof. apply eqb_eq. reflexivity. Qed.

Lemma mem_In (x : str) (l : list str) : mem x l = true <-> In x l.
Proof.
  unfold mem. rewrite existsb_exists. split.
  - intros [y [Hy He]]. apply eqb_eq in He. subst. exact Hy.
  - intros H. exists x. split; [exact H | apply eqb_refl].
Qed.

Lemma mem_false (x : str) (l : list str) : mem x l = false <-> ~ In x l.
Proof.
  rewrite <- mem_In. destruct (mem x l); split; congruence.
Qed.

Section SortedBy.
Context {A : Type} (before : A -> A -> bool).

Lemma insert_perm (x : A) (l : list A) :
  Permutation (insert before x l) (x :: l).
Proof.
  induction l as [|y l IH]; simpl.
  - apply Permutation_refl.
  - destruct (before x y).
    + apply Permutation_refl.
    + eapply perm_trans; [apply perm_skip, IH | apply perm_swap].
Qed.

Lemma sorted_by_perm (l : list A) : Permutation (sorted_by before l) l.
Proof.
  induction l as [|x l IH]; simpl.
  - apply perm_nil.
  - eapply perm_trans; [apply insert_perm | apply perm_skip, IH].
Qed.

Lemma sorted_by_length (l : list A) : length (sorted_by before l) = length l.
Proof. apply Permutation_length, sorted_by_perm. Qed.

Lemma sorted_by_In (x : A) (l : list A) : In x (sorted_by before l) <-> In x l.
Proof.
  split; apply Permutation_in;
    [apply sorted_by_perm | apply Permutation_sym, sorted_by_perm].
Qed.

(** The sort orders by any relation that [before] decides between an
    element and the ones that came after it in the input. *)
Variables (came_first ranks : A -> A -> Prop).
Hypothesis ranks_trans : forall x y z, ranks x y -> ranks y z -> ranks x z.
Hypothesis before_ranks :
  forall x y, came_first x y -> before x y = true -> ranks x y.
Hypothesis after_ranks :
  forall x y, came_first x y -> before x y = false -> ranks y x.

Lemma insert_ranked (x : A) (l : list A) :
  Forall (came_first x) l ->
  StronglySorted ranks l ->
  StronglySorted ranks (insert before x l).
Proof.
  induction l as [|y l IH]; intros Hx Hs; simpl.
  - constructor; [constructor | constructor].
  - inversion Hx as [|? ? Hxy Hxl]; subst.
    inversion Hs as [|? ? Hsl Hyl]; subst.
    destruct (before x y) eqn:E.
    + constructor; [exact Hs|].
      constructor; [apply before_ranks; assumption|].
      rewrite Forall_forall in Hyl |- *. intros z Hz.
      apply ranks_trans with y; [apply before_ranks; assumption | auto].
    + constructor; [apply IH; assumption|].
      rewrite Forall_forall. intros z Hz.
      apply (Permutation_in _ (insert_perm x l)) in Hz.
      destruct Hz as [<- | Hz].
      * apply after_ranks; assumption.
      * rewrite Forall_forall in Hyl. auto.
Qed.

Lemma sorted_by_ranked (l : list A) :
  StronglySorted came_first l -> StronglySorted ranks (sorted_by before l).
Proof.
  induction l as [|x l IH]; intros Hs; simpl.
  - constructor.
  - inversion Hs as [|? ? Hsl Hxl]; subst.
    apply insert_ranked; [|apply IH; exact Hsl].
    rewrite Forall_forall in Hxl |- *. intros y Hy.
    apply Hxl. apply (proj1 (sorted_by_In _ _)). exact Hy.
Qed.
End SortedBy.


Lemma StronglySorted_any {A} (l : list A) : StronglySorted (fun _ _ => True) l.
Proof.
  induction l; constructor; [assumption|].
  rewrite Forall_forall. intros; exact I.
Qed.

Lemma StronglySorted_app_cross {A} (R : A -> A -> Prop) (l1 l2 : list A) :
  StronglySorted R (l1 ++ l2) ->
  forall a b, In a l1 -> In b l2 -> R a b.
Proof.
  induction l1 as [|x l1 IH]; simpl; intros Hs a b Ha Hb.
  - contradiction.
  - inversion Hs as [|? ? Hs' Hx]; subst.
    destruct Ha as [<- | Ha].
    + rewrite Forall_forall in Hx. apply Hx, in_or_app. right. exact Hb.
    + apply IH; assumption.
Qed.

Lemma firstn_In {A} (n : nat) (l : list A) (x : A) :
  In x (firstn n l) -> In x l.
Proof.
  intros H. rewrite <- (firstn_skipn n l). apply in_or_app. left. exact H.
Qed.

Lemma firstn_NoDup {A} (n : nat) (l : list A) : NoDup l -> NoDup (firstn n l).
Proof.
  revert l. induction n as [|n IH]; intros [|x l] H; simpl; try constructor.
  - inversion H as [|? ? Hx _]; subst. intros Hin. apply Hx.
    eapply firstn_In. exact Hin.
  - apply IH. inversion H; assumption.
Qed.

Lemma StronglySorted_firstn {A} (R : A -> A -> Prop) (n : nat) (l : list A) :
  StronglySorted R l -> StronglySorted R (firstn n l).
Proof.
  revert l. induction n as [|n IH]; intros [|x l] Hs; simpl; try constructor.
  - apply IH. inversion Hs; assumption.
  - inversion Hs as [|? ? _ Hx]; subst.
    rewrite Forall_forall in Hx |- *. intros y Hy.
    apply Hx. eapply firstn_In. exact Hy.
Qed.

Lemma StronglySorted_weaken {A} (R S : A -> A -> Prop) (l : list A) :
  (forall x y, In x l -> In y l -> R x y -> S x y) ->
  StronglySorted R l -> StronglySorted S l.
Proof.
  induction l as [|x l IH]; intros HRS Hs; constructor;
    inversion Hs as [|? ? Hs' Hx]; subst.
  - apply IH; [|exact Hs']. intros a b Ha Hb. apply HRS; right; assumption.
  - rewrite Forall_forall in Hx |- *. intros y Hy.
    apply HRS; [left; reflexivity | right; exact Hy | apply Hx, Hy].
Qed.

(** A prefix of a list sorted by an asymmetric relation holds every element
    that ranks before one of its members. *)
Lemma prefix_closed {A} (R : A -> A -> Prop) (n : nat) (l : list A) (p q : A) :
  (forall x y, R x y -> R y x -> False) ->
  StronglySorted R l ->
  In p l -> In q (firstn n l) -> R p q -> In p (firstn n l).
Proof.
  intros Has Hs Hp Hq Hpq.
  rewrite <- (firstn_skipn n l) in Hp, Hs.
  apply in_app_or in Hp. destruct Hp as [Hp | Hp]; [exact Hp|].
  exfalso. apply (Has p q Hpq).
  apply (StronglySorted_app_cross R _ _ Hs); assumption.
Qed.

(** *** [sorted] on integers *)

Lemma sorted_perm (l : list nat) : Permutation (sorted l) l.
Proof. apply sorted_by_perm. Qed.

Lemma sorted_length (l : list nat) : length (sorted l) = length l.
Proof. apply sorted_by_length. Qed.

Lemma sorted_In (x : nat) (l : list nat) : In x (sorted l) <-> In x l.
Proof. apply sorted_by_In. Qed.

Lemma sorted_le (l : list nat) : StronglySorted le (sorted l).
Proof.
  apply (sorted_by_ranked Nat.leb (fun _ _ => True) le).
  - intros x y z. apply Nat.le_trans.
  - intros x y _ H. apply Nat.leb_le. exact H.
  - intros x y _ H. apply Nat.leb_gt in H. lia.
  - apply StronglySorted_any.
Qed.

Lemma sorted_lt (l : list nat) : NoDup l -> StronglySorted lt (sorted l).
Proof.
  intros Hnd.
  assert (Hnd' : NoDup (sorted l)).
  { eapply Permutation_NoDup; [apply Permutation_sym, sorted_perm | exact Hnd]. }
  generalize (sorted_le l). generalize dependent (sorted l).
  induction l0 as [|x l0 IH]; intros Hnd' Hs; constructor;
    inversion Hs as [|? ? Hs' Hx]; inversion Hnd' as [|? ? Hnx Hnd'']; subst.
  - apply IH; assumption.
  - rewrite Forall_forall in Hx |- *. intros y Hy.
    specialize (Hx y Hy).
    assert (x <> y) by (intros ->; contradiction).
    lia.
Qed.

(** *** [sorted(..., key=score, reverse=True)] *)

Lemma ranks_asym (p q : nat * Q) : ranks p q -> ranks q p -> False.
Proof.
  unfold ranks. intros [H1 | [H1 H1']] [H2 | [H2 H2']].
  - apply (Qlt_irrefl (snd p)). eapply Qlt_trans; eassumption.
  - rewrite H2 in H1. apply (Qlt_irrefl _ H1).
  - rewrite H1 in H2. apply (Qlt_irrefl _ H2).
  - lia.
Qed.

Lemma ranks_trans (p q r : nat * Q) : ranks p q -> ranks q r -> ranks p r.
Proof.
  unfold ranks. intros [H1 | [H1 H1']] [H2 | [H2 H2']].
  - left. eapply Qlt_trans; eassumption.
  - left. rewrite <- H2. exact H1.
  - left. rewrite H1. exact H2.
  - right. split; [rewrite H1; exact H2 | lia].
Qed.

Lemma Qle_bool_false (a b : Q) : Qle_bool a b = false -> (b < a)%Q.
Proof.
  intros H. apply Qnot_le_lt. intros Hle.
  apply Qle_bool_iff in Hle. congruence.
Qed.

Lemma sorted_desc_perm {K} (items : list (K * Q)) :
  Permutation (sorted_by_value_desc items) items.
Proof. apply sorted_by_perm. Qed.

Lemma sorted_desc_length {K} (items : list (K * Q)) :
  length (sorted_by_value_desc items) = length items.
Proof. apply sorted_by_length. Qed.

(** The scores never increase along the sorted list. *)
Lemma sorted_desc_descending {K} (items : list (K * Q)) :
  StronglySorted (fun p q => (snd q <= snd p)%Q) (sorted_by_value_desc items).
Proof.
  apply (sorted_by_ranked _ (fun _ _ => True) (fun p q => (snd q <= snd p)%Q)).
  - intros x y z H1 H2. eapply Qle_trans; eassumption.
  - intros x y _ H. apply Qle_bool_iff. exact H.
  - intros x y _ H. apply Qlt_le_weak, Qle_bool_false. exact H.
  - apply StronglySorted_any.
Qed.

(** On a table whose keys increase (the insertion order of the scorers),
    the sorted list is ordered by [ranks]. *)
Lemma sorted_desc_ranked (scores : list (nat * Q)) :
  StronglySorted (fun p q => fst p < fst q) scores ->
  StronglySorted ranks (sorted_by_value_desc scores).
Proof.
  apply sorted_by_ranked.
  - apply ranks_trans.
  - intros x y Hxy H. apply Qle_bool_iff in H.
    apply Qle_lt_or_eq in H. destruct H as [H | H].
    + left. exact H.
    + right. split; [symmetry; exact H | exact Hxy].
  - intros x y Hxy H. left. apply Qle_bool_false. exact H.
Qed.

(** *** Score tables *)

Lemma seq_increasing (a n : nat) : StronglySorted lt (seq a n).
Proof.
  revert a. induction n as [|n IH]; intros a; simpl; constructor.
  - apply IH.
  - rewrite Forall_forall. intros y Hy. apply in_seq in Hy. lia.
Qed.

Lemma keys_increasing (scores : list (nat * Q)) (a n : nat) :
  map fst scores = seq a n ->
  StronglySorted (fun p q => fst p < fst q) scores.
Proof.
  revert a n. induction scores as [|p scores IH]; intros a n H; constructor.
  - destruct n as [|n]; [discriminate|]. simpl in H. injection H as _ H.
    eapply IH. exact H.
  - destruct n as [|n]; [discriminate|]. simpl in H. injection H as Hp H.
    rewrite Forall_forall. intros q Hq.
    apply (in_map fst) in Hq. rewrite H in Hq. apply in_seq in Hq. lia.
Qed.

Lemma total_table_length (scores : list (nat * Q)) (n : nat) :
  total_table scores n -> length scores = n.
Proof.
  unfold total_table. intros H.
  rewrite <- (length_map fst), H. apply length_seq.
Qed.

Lemma total_table_NoDup (scores : list (nat * Q)) (n : nat) :
  total_table scores n -> NoDup (map fst scores).
Proof. unfold total_table. intros ->. apply seq_NoDup. Qed.

Lemma uniform_total (n : nat) : total_table (uniform_scores n) n.
Proof.
  unfold total_table, uniform_scores. rewrite map_map. simpl. apply map_id.
Qed.

(** The keys of the top of the ranking: distinct positions of the table. *)
Lemma top_keys_NoDup (scores : list (nat * Q)) (n t : nat) :
  total_table scores n ->
  NoDup (map fst (slice_to t (sorted_by_value_desc scores))).
Proof.
  intros Ht. unfold slice_to. rewrite <- firstn_map.
  apply firstn_NoDup.
  eapply Permutation_NoDup;
    [apply Permutation_sym, Permutation_map, sorted_desc_perm|].
  eapply total_table_NoDup. exact Ht.
Qed.

Lemma top_keys_bound (scores : list (nat * Q)) (n t i : nat) :
  total_table scores n ->
  In i (map fst (slice_to t (sorted_by_value_desc scores))) -> i < n.
Proof.
  intros Ht Hi. apply in_map_iff in Hi. destruct Hi as [p [<- Hp]].
  apply firstn_In in Hp.
  apply (Permutation_in _ (sorted_desc_perm scores)) in Hp.
  apply (in_map fst) in Hp. rewrite Ht in Hp. apply in_seq in Hp. lia.
Qed.

Lemma top_keys_length (scores : list (nat * Q)) (n t : nat) :
  total_table scores n ->
  length (map fst (slice_to t (sorted_by_value_desc scores))) = Nat.min t n.
Proof.
  intros Ht. unfold slice_to.
  rewrite length_map, length_firstn, sorted_desc_length.
  rewrite (total_table_length _ _ Ht). reflexivity.
Qed.

End Facts.

(* ================================================================= *)
(** ** The scorers *)

Module ScorerFacts.
Import Facts.

Lemma bind_Some {A B} (c : option A) (k : A -> option B) (b : B) :
  bind c k = Some b -> exists a, c = Some a /\ k a = Some b.
Proof. destruct c as [a|]; simpl; [eauto | discriminate]. Qed.

Section Document.
Variable sk : Sklearn.
Import DocumentSummary.

Lemma doc_loop_keys (tfidf : tfidf_matrix sk) (total : nat) (rest : list str) :
  forall idx scores,
    score_loop sk tfidf total idx rest = Some scores ->
    map fst scores = seq idx (length rest).
Proof.
  induction rest as [|sent rest IH]; simpl; intros idx scores H.
  - injection H as <-. reflexivity.
  - apply bind_Some in H. destruct H as [score [_ H]].
    apply bind_Some in H. destruct H as [scores' [Hl H]].
    injection H as <-. simpl. f_equal. apply IH. exact Hl.
Qed.

Lemma doc_loop_raises (tfidf : tfidf_matrix sk) (total : nat) (rest : list str) :
  forall idx k,
    k < length rest ->
    centroid_similarity sk tfidf (idx + k) = None ->
    score_loop sk tfidf total idx rest = None.
Proof.
  induction rest as [|sent rest IH]; simpl; intros idx k Hk Hsim.
  - lia.
  - destruct k as [|k].
    + rewrite Nat.add_0_r in Hsim.
      unfold sentence_score. rewrite Hsim. reflexivity.
    + destruct (sentence_score sk tfidf total idx sent); [simpl | reflexivity].
      rewrite (IH (S idx) k); [reflexivity | lia |].
      replace (S idx + k) with (idx + S k) by lia. exact Hsim.
Qed.

Lemma doc_scores_total (sentences : list str) (text : str) :
  total_table (calculate_sentence_importance sk sentences text) (length sentences).
Proof.
  unfold calculate_sentence_importance, importance_body, try_except.
  destruct (negb (sklearn_imports sk)); [apply uniform_total|].
  destruct (length sentences <? 3); [apply uniform_total|].
  destruct (fit_transform sk sentences) as [tfidf|]; simpl;
    [|apply uniform_total].
  destruct (score_loop sk tfidf (length sentences) 0 sentences) as [scores|] eqn:E;
    [|apply uniform_total].
  apply doc_loop_keys in E. exact E.
Qed.

Lemma doc_body_raises (sentences : list str) (text : str) :
  importance_body sk sentences = None ->
  calculate_sentence_importance sk sentences text
  = uniform_scores (length sentences).
Proof. unfold calculate_sentence_importance. intros ->. reflexivity. Qed.

Lemma doc_few_sentences (sentences : list str) (text : str) :
  length sentences < 3 ->
  calculate_sentence_importance sk sentences text
  = uniform_scores (length sentences).
Proof.
  intros H. apply Nat.ltb_lt in H.
  unfold calculate_sentence_importance, importance_body.
  rewrite H. destruct (negb (sklearn_imports sk)); reflexivity.
Qed.

Lemma doc_similarity_raises (sentences : list str) (tfidf : tfidf_matrix sk)
    (idx : nat) :
  3 <= length sentences ->
  fit_transform sk sentences = Some tfidf ->
  idx < length sentences ->
  centroid_similarity sk tfidf idx = None ->
  importance_body sk sentences = None.
Proof.
  intros Hn Hfit Hidx Hsim. unfold importance_body.
  destruct (negb (sklearn_imports sk)); [reflexivity|].
  apply Nat.ltb_ge in Hn. rewrite Hn, Hfit. simpl.
  apply (doc_loop_raises tfidf _ sentences 0 idx); assumption.
Qed.
End Document.

Section Text.
Variable sk : Sklearn.
Import TextSummary.

Lemma text_loop_keys (tfidf : tfidf_matrix sk) (sentences rest : list str) :
  forall idx scores,
    score_loop sk tfidf sentences idx rest = Some scores ->
    map fst scores = seq idx (length rest).
Proof.
  induction rest as [|sent rest IH]; simpl; intros idx scores H.
  - injection H as <-. reflexivity.
  - apply bind_Some in H. destruct H as [score [_ H]].
    apply bind_Some in H. destruct H as [scores' [Hl H]].
    injection H as <-. simpl. f_equal. apply IH. exact Hl.
Qed.

Lemma text_loop_raises (tfidf : tfidf_matrix sk) (sentences rest : list str) :
  forall idx k,
    k < length rest ->
    centroid_similarity sk tfidf (idx + k) = None ->
    score_loop sk tfidf sentences idx rest = None.
Proof.
  induction rest as [|sent rest IH]; simpl; intros idx k Hk Hsim.
  - lia.
  - destruct k as [|k].
    + rewrite Nat.add_0_r in Hsim.
      unfold sentence_score. rewrite Hsim. reflexivity.
    + destruct (sentence_score sk tfidf sentences idx sent); [simpl | reflexivity].
      rewrite (IH (S idx) k); [reflexivity | lia |].
      replace (S idx + k) with (idx + S k) by lia. exact Hsim.
Qed.

Lemma text_scores_total (sentences : list str) (text : str) :
  total_table (calculate_advanced_scores sk sentences text) (length sentences).
Proof.
  unfold calculate_advanced_scores, advanced_body, try_except.
  destruct (negb (sklearn_imports sk)); [apply uniform_total|].
  destruct (length sentences <? 3); [apply uniform_total|].
  destruct (fit_transform sk sentences) as [tfidf|]; simpl;
    [|apply uniform_total].
  destruct (score_loop sk tfidf sentences 0 sentences) as [scores|] eqn:E;
    [|apply uniform_total].
  apply text_loop_keys in E. exact E.
Qed.

Lemma text_body_raises (sentences : list str) (text : str) :
  advanced_body sk sentences = None ->
  calculate_advanced_scores sk sentences text
  = uniform_scores (length sentences).
Proof. unfold calculate_advanced_scores. intros ->. reflexivity. Qed.

Lemma text_few_sentences (sentences : list str) (text : str) :
  length sentences < 3 ->
  calculate_advanced_scores sk sentences text
  = uniform_scores (length sentences).
Proof.
  intros H. apply Nat.ltb_lt in H.
  unfold calculate_advanced_scores, advanced_body.
  rewrite H. destruct (negb (sklearn_imports sk)); reflexivity.
Qed.

Lemma text_similarity_raises (sentences : list str) (tfidf : tfidf_matrix sk)
    (idx : nat) :
  3 <= length sentences ->
  fit_transform sk sentences = Some tfidf ->
  idx < length sentences ->
  centroid_similarity sk tfidf idx = None ->
  advanced_body sk sentences = None.
Proof.
  intros Hn Hfit Hidx Hsim. unfold advanced_body.
  destruct (negb (sklearn_imports sk)); [reflexivity|].
  apply Nat.ltb_ge in Hn. rewrite Hn, Hfit. simpl.
  apply (text_loop_raises tfidf _ sentences 0 idx); assumption.
Qed.
End Text.

End ScorerFacts.

(* ================================================================= *)
(** ** Selection in document_summary.py *)

Module DocumentFacts.
Import Facts DocumentSummary.

Lemma keys_inj (scores : list (nat * Q)) (p q : nat * Q) :
  NoDup (map fst scores) -> In p scores -> In q scores -> fst p = fst q -> p = q.
Proof.
  induction scores as [|x scores IH]; simpl; intros Hnd Hp Hq Hpq; [contradiction|].
  inversion Hnd as [|? ? Hx Hnd']; subst.
  destruct Hp as [-> | Hp], Hq as [-> | Hq].
  - reflexivity.
  - exfalso. apply Hx. rewrite Hpq. apply in_map. exact Hq.
  - exfalso. apply Hx. rewrite <- Hpq. apply in_map. exact Hp.
  - apply IH; assumption.
Qed.

Section Table.
Variables (scores : list (nat * Q)) (n : nat).
Hypothesis Htable : total_table scores n.

Lemma selected_length (target : nat) :
  length (selected_idx scores target) = Nat.min target n.
Proof.
  unfold selected_idx. rewrite sorted_length.
  apply top_keys_length. exact Htable.
Qed.

Lemma selected_reading_order (sentences : list str) (target : nat) :
  length sentences = n ->
  reading_order sentences (selected_idx scores target).
Proof.
  intros Hn. unfold reading_order, selected_idx. split.
  - apply sorted_lt. eapply top_keys_NoDup. exact Htable.
  - rewrite Forall_forall. intros i Hi. apply (proj1 (sorted_In _ _)) in Hi.
    rewrite Hn. eapply top_keys_bound; eassumption.
Qed.

Lemma ranked : StronglySorted ranks (sorted_by_value_desc scores).
Proof.
  apply sorted_desc_ranked. eapply keys_increasing. exact Htable.
Qed.

(** Whoever ranks before a selected sentence is selected. *)
Lemma selected_priority (target : nat) (p q : nat * Q) :
  In p scores -> In q scores -> ranks p q ->
  In (fst q) (selected_idx scores target) ->
  In (fst p) (selected_idx scores target).
Proof.
  intros Hp Hq Hpq Hsel. unfold selected_idx in *.
  apply sorted_In. apply (proj1 (sorted_In _ _)) in Hsel.
  apply in_map_iff in Hsel. destruct Hsel as [q' [Hfst Hq']].
  assert (q' = q) as ->.
  { apply (keys_inj scores); [eapply total_table_NoDup; exact Htable | | exact Hq | exact Hfst].
    apply firstn_In in Hq'.
    apply (Permutation_in _ (sorted_desc_perm scores)). exact Hq'. }
  apply in_map. unfold slice_to in *.
  apply (prefix_closed ranks target _ p q ranks_asym ranked); [|exact Hq'|exact Hpq].
  apply (Permutation_in _ (Permutation_sym (sorted_desc_perm scores))). exact Hp.
Qed.

(** No sentence left out scores above a selected one. *)
Lemma selected_top (target : nat) (p q : nat * Q) :
  In p scores -> In q scores ->
  In (fst p) (selected_idx scores target) ->
  ~ In (fst q) (selected_idx scores target) ->
  (snd q <= snd p)%Q.
Proof.
  intros Hp Hq Hsel Hout.
  destruct (Qlt_le_dec (snd p) (snd q)) as [Hlt | Hle]; [|exact Hle].
  exfalso. apply Hout.
  apply (selected_priority target q p Hq Hp); [|exact Hsel].
  left. exact Hlt.
Qed.
End Table.

End DocumentFacts.

(* ================================================================= *)
(** ** Selection in text_summary.py *)

Module TextFacts.
Import Facts TextSummary.

(** *** dict with string keys *)

Lemma dict_set_fresh {V} (d : list (str * V)) (k : str) (v : V) :
  ~ In k (map fst d) -> dict_set d k v = d ++ [(k, v)].
Proof.
  induction d as [|[k' v'] d IH]; simpl; intros H; [reflexivity|].
  destruct (Py.eqb k' k) eqn:E.
  - apply eqb_eq in E. exfalso. apply H. left. exact E.
  - f_equal. apply IH. intros Hin. apply H. right. exact Hin.
Qed.

Lemma dict_set_keys {V} (d : list (str * V)) (k : str) (v : V) :
  In k (map fst d) -> map fst (dict_set d k v) = map fst d.
Proof.
  induction d as [|[k' v'] d IH]; simpl; intros H; [contradiction|].
  destruct (Py.eqb k' k) eqn:E; simpl; [reflexivity|].
  f_equal. apply IH. destruct H as [H | H]; [|exact H].
  subst. rewrite eqb_refl in E. discriminate.
Qed.

Section Build.
Context {V : Type} (f : str -> V).

Lemma dict_fill_cons (s : str) (l : list str) (d : list (str * V)) :
  dict_fill f (s :: l) d = dict_fill f l (dict_set d s (f s)).
Proof. reflexivity. Qed.

Lemma dict_fill_keys (l : list str) :
  forall d, NoDup (map fst d) ->
    NoDup (map fst (dict_fill f l d))
    /\ (forall x, In x (map fst (dict_fill f l d)) <-> In x (map fst d) \/ In x l).
Proof.
  induction l as [|s l IH]; intros d Hd.
  - split; [exact Hd | intros x; simpl; tauto].
  - rewrite dict_fill_cons.
    assert (Hstep : NoDup (map fst (dict_set d s (f s)))
                    /\ forall x, In x (map fst (dict_set d s (f s)))
                                 <-> In x (map fst d) \/ x = s).
    { destruct (in_dec (list_eq_dec ascii_dec) s (map fst d)) as [Hin | Hout].
      - rewrite (dict_set_keys d s (f s) Hin). split; [exact Hd|].
        intros x. split; [tauto | intros [H | ->]; assumption].
      - rewrite (dict_set_fresh d s (f s) Hout), map_app. simpl. split.
        + apply NoDup_app_remove_l with (l := []). simpl.
          apply Permutation_NoDup with (l := s :: map fst d).
          * apply Permutation_cons_append.
          * constructor; assumption.
        + intros x. rewrite in_app_iff. simpl. split.
          * intros [H | [H | []]]; auto.
          * intros [H | H]; auto. }
    destruct Hstep as [Hnd Hin].
    destruct (IH _ Hnd) as [Hnd' Hin'].
    split; [exact Hnd'|].
    intros x. rewrite Hin', Hin. simpl. intuition (subst; auto).
Qed.

Lemma dict_fill_fresh (l : list str) :
  forall d, NoDup l -> (forall x, In x l -> ~ In x (map fst d)) ->
    dict_fill f l d = d ++ map (fun s => (s, f s)) l.
Proof.
  induction l as [|s l IH]; intros d Hnd Hd.
  - symmetry. apply app_nil_r.
  - inversion Hnd as [|? ? Hs Hnd']; subst.
    rewrite dict_fill_cons.
    rewrite (dict_set_fresh d s (f s)) by (apply Hd; left; reflexivity).
    rewrite IH.
    + rewrite <- app_assoc. reflexivity.
    + exact Hnd'.
    + intros x Hx. rewrite map_app, in_app_iff. simpl.
      intros [H | [H | []]].
      * apply (Hd x); [right; exact Hx | exact H].
      * subst. contradiction.
Qed.
End Build.

(** *** [distinct] *)

Lemma distinct_from_spec (l : list str) :
  forall seen,
    NoDup (distinct_from seen l)
    /\ (forall x, In x (distinct_from seen l) <-> In x l /\ ~ In x seen).
Proof.
  induction l as [|y l IH]; simpl; intros seen.
  - split; [constructor | intros x; tauto].
  - destruct (mem y seen) eqn:E.
    + apply mem_In in E. destruct (IH seen) as [Hnd Hin]. split; [exact Hnd|].
      intros x. rewrite Hin. split.
      * intros [H1 H2]. auto.
      * intros [[-> | H1] H2]; [contradiction | auto].
    + apply mem_false in E. destruct (IH (y :: seen)) as [Hnd Hin]. split.
      * constructor; [|exact Hnd]. rewrite Hin. simpl. tauto.
      * intros x. simpl. rewrite Hin. simpl. split.
        -- intros [<- | [H1 H2]]; [auto | split; [auto | tauto]].
        -- intros [[<- | H1] H2]; [auto|].
           destruct (list_eq_dec ascii_dec y x) as [-> | Hne]; [auto|].
           right. split; [exact H1 | intros [H | H]; auto].
Qed.

Lemma distinct_NoDup (l : list str) : NoDup (distinct l).
Proof. apply (distinct_from_spec l []). Qed.

Lemma distinct_In (l : list str) (x : str) : In x (distinct l) <-> In x l.
Proof.
  unfold distinct. rewrite (proj2 (distinct_from_spec l [])). simpl. tauto.
Qed.

(** *** The loop that restores the reading order *)

Lemma ordered_from_none (t c : nat) (l : list str) :
  ordered_from [] t c l = [].
Proof. induction l; simpl; auto. Qed.

Lemma ordered_from_spec (sel : list str) (t : nat) (l : list str) :
  forall c, c < t ->
    ordered_from sel t c l = firstn (t - c) (filter (fun s => mem s sel) l).
Proof.
  induction l as [|s l IH]; simpl; intros c Hc.
  - rewrite firstn_nil. reflexivity.
  - destruct (mem s sel).
    + destruct (t - c) as [|k] eqn:E; [lia|]. simpl. f_equal.
      destruct (t <=? S c) eqn:Et.
      * apply Nat.leb_le in Et. replace k with 0 by lia. reflexivity.
      * apply Nat.leb_gt in Et. rewrite IH by exact Et.
        replace (t - S c) with k by lia. reflexivity.
    + apply IH. exact Hc.
Qed.

Lemma shift_sorted (l : list nat) :
  StronglySorted lt l -> StronglySorted lt (map S l).
Proof.
  induction l as [|x l IH]; simpl; intros H; constructor;
    inversion H as [|? ? Hs Hx]; subst.
  - apply IH. exact Hs.
  - rewrite Forall_forall in Hx |- *. intros y Hy.
    apply in_map_iff in Hy. destruct Hy as [z [<- Hz]].
    specialize (Hx z Hz). lia.
Qed.

(** What the loop returns is read off [l] at increasing positions. *)
Lemma ordered_from_positions (sel : list str) (t : nat) (l : list str) :
  forall c, exists idxs,
    reading_order l idxs /\ ordered_from sel t c l = map (getitem l) idxs.
Proof.
  unfold reading_order.
  induction l as [|s l IH]; simpl; intros c.
  - exists []. repeat split; constructor.
  - assert (Hshift : forall idxs,
              StronglySorted lt idxs /\ Forall (fun i => i < length l) idxs ->
              StronglySorted lt (map S idxs)
              /\ Forall (fun i => i < S (length l)) (map S idxs)
              /\ map (getitem (s :: l)) (map S idxs) = map (getitem l) idxs).
    { intros idxs [H1 H2]. split; [apply shift_sorted; exact H1|]. split.
      - rewrite Forall_forall in H2 |- *. intros y Hy.
        apply in_map_iff in Hy. destruct Hy as [z [<- Hz]].
        specialize (H2 z Hz). lia.
      - rewrite map_map. reflexivity. }
    destruct (mem s sel).
    + destruct (t <=? S c).
      * exists [0]. repeat split.
        -- constructor; constructor.
        -- constructor; [lia | constructor].
      * destruct (IH (S c)) as [idxs [Hord Heq]].
        destruct (Hshift idxs Hord) as [H1 [H2 H3]].
        exists (0 :: map S idxs). repeat split.
        -- constructor; [exact H1|].
           rewrite Forall_forall. intros y Hy.
           apply in_map_iff in Hy. destruct Hy as [z [<- _]]. lia.
        -- constructor; [lia | exact H2].
        -- simpl. f_equal. rewrite H3. exact Heq.
    + destruct (IH c) as [idxs [Hord Heq]].
      destruct (Hshift idxs Hord) as [H1 [H2 H3]].
      exists (map S idxs). repeat split; [exact H1 | exact H2 |].
      rewrite H3. exact Heq.
Qed.

(** *** The ensemble *)

Section Ensemble.
Variables (votes : str -> nat) (custom_scores : list (nat * Q)).
Variable sentences : list str.

Local Abbreviation combined := (combined_scores votes custom_scores sentences).

Lemma combined_keys :
  NoDup (map fst combined) /\ forall x, In x (map fst combined) <-> In x sentences.
Proof.
  destruct (dict_fill_keys (combined_score votes custom_scores sentences) sentences []
              (NoDup_nil _)) as [H1 H2].
  split; [exact H1|]. intros x. unfold combined_scores.
  rewrite H2. simpl. tauto.
Qed.

Lemma selected_keys (t : nat) :
  NoDup (ensemble_selected combined t)
  /\ incl (ensemble_selected combined t) sentences
  /\ length (ensemble_selected combined t) = Nat.min t (length (map fst combined))
  /\ (length (map fst combined) <= t ->
      forall x, In x sentences -> In x (ensemble_selected combined t)).
Proof.
  destruct combined_keys as [Hnd Hin].
  assert (Hperm : Permutation (map fst (sorted_by_value_desc combined))
                              (map fst combined))
    by apply Permutation_map, sorted_desc_perm.
  unfold ensemble_selected, slice_to. rewrite <- firstn_map.
  repeat split.
  - apply firstn_NoDup.
    eapply Permutation_NoDup; [apply Permutation_sym, Hperm | exact Hnd].
  - intros x Hx. apply firstn_In in Hx.
    apply Hin. eapply Permutation_in; [exact Hperm | exact Hx].
  - rewrite length_firstn, (Permutation_length Hperm). reflexivity.
  - intros Ht x Hx. rewrite firstn_all2.
    + eapply Permutation_in; [apply Permutation_sym, Hperm|]. apply Hin, Hx.
    + rewrite (Permutation_length Hperm). exact Ht.
Qed.

Lemma ensemble_length (t : nat) :
  length (ordered_summary (ensemble_selected combined t) t sentences)
  = Nat.min t (length sentences).
Proof.
  unfold ordered_summary.
  destruct t as [|t].
  { unfold ensemble_selected, slice_to. simpl. rewrite ordered_from_none. reflexivity. }
  rewrite ordered_from_spec by lia. rewrite Nat.sub_0_r, length_firstn.
  destruct (selected_keys (S t)) as [Hnd [Hincl [Hlen Hall]]].
  destruct combined_keys as [Hknd Hkin].
  set (sel := ensemble_selected combined (S t)) in *.
  assert (Hfl : length (filter (fun s => mem s sel) sentences) <= length sentences)
    by apply filter_length_le.
  assert (Hk : length (map fst combined) <= length sentences).
  { apply NoDup_incl_length; [exact Hknd|]. intros x Hx. apply Hkin, Hx. }
  destruct (le_lt_dec (length (map fst combined)) (S t)) as [Hle | Hlt].
  - replace (filter (fun s => mem s sel) sentences) with sentences; [reflexivity|].
    symmetry. apply forallb_filter_id. apply forallb_forall.
    intros x Hx. apply mem_In. apply Hall; assumption.
  - assert (Hsel : length sel <= length (filter (fun s => mem s sel) sentences)).
    { apply NoDup_incl_length; [exact Hnd|]. intros x Hx.
      apply filter_In. split; [apply Hincl, Hx | apply mem_In, Hx]. }
    lia.
Qed.

Lemma ensemble_reading_order (t : nat) :
  exists idxs,
    reading_order sentences idxs
    /\ ordered_summary (ensemble_selected combined t) t sentences
       = map (getitem sentences) idxs.
Proof. apply ordered_from_positions. Qed.
End Ensemble.

(** *** The executive summary *)

Lemma StronglySorted_map {A B} (R : B -> B -> Prop) (g : A -> B) (l : list A) :
  StronglySorted (fun a b => R (g a) (g b)) l -> StronglySorted R (map g l).
Proof.
  induction l as [|x l IH]; simpl; intros H; constructor;
    inversion H as [|? ? Hs Hx]; subst.
  - apply IH. exact Hs.
  - rewrite Forall_forall in Hx |- *. intros y Hy.
    apply in_map_iff in Hy. destruct Hy as [z [<- Hz]]. apply Hx, Hz.
Qed.

Section Executive.
Variables (scores : list (nat * Q)) (sentences : list str).
Hypothesis Htable : total_table scores (length sentences).

Local Abbreviation f := (candidate_score scores sentences).
Local Abbreviation candidates := (executive_candidates scores sentences).
Local Abbreviation items := (map (fun s => (s, f s)) (distinct candidates)).

Lemma unique_scores_items : unique_scores scores sentences = items.
Proof.
  unfold unique_scores.
  change (dict_fill f (distinct (executive_candidates scores sentences)) []
          = map (fun s => (s, f s)) (distinct candidates)).
  rewrite dict_fill_fresh; [reflexivity | apply distinct_NoDup | intros x _ []].
Qed.

Lemma candidates_members : incl candidates sentences.
Proof.
  intros x Hx. unfold executive_candidates in Hx.
  apply in_app_or in Hx. destruct Hx as [Hx | Hx].
  - eapply firstn_In. exact Hx.
  - apply in_map_iff in Hx. destruct Hx as [p [<- Hp]].
    apply nth_In. eapply top_keys_bound; [exact Htable|].
    apply in_map. exact Hp.
Qed.

Lemma executive_items :
  executive_sentences scores sentences
  = map fst (firstn 2 (sorted_by_value_desc items)).
Proof. unfold executive_sentences. rewrite unique_scores_items. reflexivity. Qed.

Lemma sorted_items_In (p : str * Q) :
  In p (sorted_by_value_desc items) -> In (fst p) candidates /\ snd p = f (fst p).
Proof.
  intros Hp. apply (Permutation_in _ (sorted_desc_perm items)) in Hp.
  apply in_map_iff in Hp. destruct Hp as [x [<- Hx]].
  split; [apply distinct_In, Hx | reflexivity].
Qed.

Lemma executive_length :
  length (executive_sentences scores sentences)
  = Nat.min 2 (length (distinct candidates)).
Proof.
  rewrite executive_items, length_map, length_firstn, sorted_desc_length, length_map.
  reflexivity.
Qed.

Lemma executive_nonempty :
  sentences <> [] -> 1 <= length (executive_sentences scores sentences).
Proof.
  intros Hne. rewrite executive_length.
  assert (Hin : exists s0, In s0 (distinct candidates)).
  { destruct sentences as [|s0 rest]; [contradiction|].
    exists s0. apply distinct_In. unfold executive_candidates.
    apply in_or_app. left. unfold slice_to. simpl. left. reflexivity. }
  destruct Hin as [s0 Hin].
  destruct (distinct candidates); [contradiction | simpl; lia].
Qed.

Lemma executive_members : incl (executive_sentences scores sentences) sentences.
Proof.
  intros x Hx. rewrite executive_items in Hx.
  apply in_map_iff in Hx. destruct Hx as [p [<- Hp]].
  apply firstn_In in Hp. apply candidates_members.
  apply (sorted_items_In p Hp).
Qed.

Lemma executive_NoDup : NoDup (executive_sentences scores sentences).
Proof.
  rewrite executive_items, <- firstn_map. apply firstn_NoDup.
  eapply Permutation_NoDup;
    [apply Permutation_sym, Permutation_map, sorted_desc_perm|].
  rewrite map_map. simpl. rewrite map_id. apply distinct_NoDup.
Qed.

(** The chosen sentences come in the order of the ranking: the score never
    increases from one to the next. *)
Lemma executive_descending :
  StronglySorted (fun a b => (f b <= f a)%Q) (executive_sentences scores sentences).
Proof.
  rewrite executive_items. apply StronglySorted_map.
  apply StronglySorted_weaken
    with (R := fun p q : str * Q => (snd q <= snd p)%Q).
  - intros p q Hp Hq Hpq.
    apply firstn_In in Hp. apply firstn_In in Hq.
    rewrite <- (proj2 (sorted_items_In p Hp)), <- (proj2 (sorted_items_In q Hq)).
    exact Hpq.
  - apply StronglySorted_firstn, sorted_desc_descending.
Qed.

(** No candidate left out scores above a chosen one. *)
Lemma executive_best (a b : str) :
  In a (executive_sentences scores sentences) ->
  In b candidates ->
  ~ In b (executive_sentences scores sentences) ->
  (f b <= f a)%Q.
Proof.
  rewrite executive_items. intros Ha Hb Hout.
  apply in_map_iff in Ha. destruct Ha as [p [<- Hp]].
  assert (Hb' : In (b, f b) (sorted_by_value_desc items)).
  { apply (Permutation_in _ (Permutation_sym (sorted_desc_perm items))).
    apply in_map_iff. exists b. split; [reflexivity|].
    apply distinct_In, Hb. }
  rewrite <- (firstn_skipn 2 (sorted_by_value_desc items)) in Hb'.
  apply in_app_or in Hb'. destruct Hb' as [Hb' | Hb'].
  - exfalso. apply Hout. apply in_map_iff. exists (b, f b). auto.
  - pose proof (sorted_desc_descending items) as Hs.
    rewrite <- (firstn_skipn 2 (sorted_by_value_desc items)) in Hs.
    pose proof (StronglySorted_app_cross _ _ _ Hs p (b, f b) Hp Hb') as Hle.
    simpl in Hle.
    rewrite <- (proj2 (sorted_items_In p (firstn_In _ _ _ Hp))). exact Hle.
Qed.
End Executive.

End TextFacts.

(* ================================================================= *)
(** * The properties of the specification *)

Lemma level_other (level : str) (name : string) :
  level <> lit name -> Py.eqb level (lit name) = false.
Proof.
  intros H. destruct (Py.eqb level (lit name)) eqn:E; [|reflexivity].
  apply Facts.eqb_eq in E. contradiction.
Qed.

Lemma key_other (level : str) (name : string) :
  level <> lit name -> Py.eqb (lit name) level = false.
Proof.
  intros H. destruct (Py.eqb (lit name) level) eqn:E; [|reflexivity].
  apply Facts.eqb_eq in E. congruence.
Qed.

Lemma clamp_band (lo hi x : nat) :
  lo <= hi -> lo <= Nat.max lo (Nat.min hi x) <= hi.
Proof. lia. Qed.

(** C1 (count bound).  Whatever the libraries return, the main summary of
    [document_summary.py] holds [min(target, total)] sentences, and so does
    the one of [text_summary.py] (on the ensemble path and on its fallback);
    the target lies in the band of the requested level: brief 4..8,
    comprehensive 12..25 and otherwise (detailed) 6..15 for documents; brief
    3..6, detailed 5..12, comprehensive 10..20 and any other level as
    detailed for posted text. *)
Theorem count_bound :
  forall (sk : Sklearn) (sumy : TextSummary.Sumy)
         (sentences : list str) (text level : str),
    let total := length sentences in
    (let target := DocumentSummary.target_count level total in
     DocumentSummary.selected_count
       (DocumentSummary.generate_professional_summary sk sentences text level)
     = Nat.min target total
     /\ (level = lit "brief" -> 4 <= target <= 8)
     /\ (level = lit "comprehensive" -> 12 <= target <= 25)
     /\ (level <> lit "brief" -> level <> lit "comprehensive" ->
         6 <= target <= 15))
    /\
    (let target := TextSummary.main_count level total in
     length (TextSummary.ensemble_sentences sk sumy text sentences target)
     = Nat.min target total
     /\ (level = lit "brief" -> 3 <= target <= 6)
     /\ (level = lit "detailed" -> 5 <= target <= 12)
     /\ (level = lit "comprehensive" -> 10 <= target <= 20)
     /\ (level <> lit "brief" -> level <> lit "comprehensive" ->
         5 <= target <= 12)).
Proof.
  intros sk sumy sentences text level total. split.
  - cbv zeta. split; [|split; [|split]].
    + unfold DocumentSummary.generate_professional_summary,
        DocumentSummary.summary_of_scores. simpl. rewrite length_map.
      apply DocumentFacts.selected_length.
      apply ScorerFacts.doc_scores_total.
    + intros ->. unfold DocumentSummary.target_count.
      rewrite Facts.eqb_refl. lia.
    + intros ->. unfold DocumentSummary.target_count.
      change (Py.eqb (lit "comprehensive") (lit "brief")) with false.
      rewrite Facts.eqb_refl. lia.
    + intros H1 H2. unfold DocumentSummary.target_count.
      rewrite (level_other _ _ H1), (level_other _ _ H2). lia.
  - cbv zeta. split; [|split; [|split; [|split]]].
    + unfold TextSummary.ensemble_sentences.
      destruct (TextSummary.sumy_parse sumy text) as [doc|].
      * apply TextFacts.ensemble_length.
      * rewrite length_map.
        apply (DocumentFacts.selected_length _ _
                 (ScorerFacts.text_scores_total sk sentences text)).
    + intros ->. unfold TextSummary.main_count, TextSummary.config_of.
      change (dict_get_str TextSummary.level_configs (lit "brief") TextSummary.detailed)
        with TextSummary.brief.
      apply (clamp_band 3 6). lia.
    + intros ->. unfold TextSummary.main_count, TextSummary.config_of.
      change (dict_get_str TextSummary.level_configs (lit "detailed") TextSummary.detailed)
        with TextSummary.detailed.
      apply (clamp_band 5 12). lia.
    + intros ->. unfold TextSummary.main_count, TextSummary.config_of.
      change (dict_get_str TextSummary.level_configs (lit "comprehensive")
                TextSummary.detailed)
        with TextSummary.comprehensive.
      apply (clamp_band 10 20). lia.
    + intros H1 H2. unfold TextSummary.main_count, TextSummary.config_of,
        TextSummary.level_configs, dict_get_str.
      rewrite (key_other _ _ H1), (key_other _ _ H2).
      destruct (Py.eqb (lit "detailed") level); apply (clamp_band 5 12); lia.
Qed.

(** C2 (order preservation).  The indices of the sentences of the main
    summary of [document_summary.py] are strictly increasing positions of
    the document, and the summary is those sentences in groups of four; the
    sentences of the main summary of [text_summary.py] are read off the
    document at strictly increasing positions, on the ensemble path and on
    its fallback. *)
Theorem order_preservation :
  forall (sk : Sklearn) (sumy : TextSummary.Sumy)
         (sentences : list str) (text level : str) (target_count : nat),
    (let idxs :=
       DocumentSummary.selected_idx
         (DocumentSummary.calculate_sentence_importance sk sentences text)
         (DocumentSummary.target_count level (length sentences)) in
     reading_order sentences idxs
     /\ DocumentSummary.main_summary
          (DocumentSummary.generate_professional_summary sk sentences text level)
        = join ["010"; "010"]%char
            (map (join (lit " ")) (chunks 4 (map (getitem sentences) idxs))))
    /\
    (exists idxs,
       reading_order sentences idxs
       /\ TextSummary.ensemble_sentences sk sumy text sentences target_count
          = map (getitem sentences) idxs).
Proof.
  intros sk sumy sentences text level target_count. split.
  - cbv zeta. split; [|reflexivity].
    apply (DocumentFacts.selected_reading_order _ (length sentences));
      [apply ScorerFacts.doc_scores_total | reflexivity].
  - unfold TextSummary.ensemble_sentences.
    destruct (TextSummary.sumy_parse sumy text) as [doc|].
    + apply TextFacts.ensemble_reading_order.
    + exists (TextSummary.fallback_indices
                (TextSummary.calculate_advanced_scores sk sentences text)
                target_count).
      split; [|reflexivity].
      apply (DocumentFacts.selected_reading_order _ (length sentences));
        [apply ScorerFacts.text_scores_total | reflexivity].
Qed.

(** C3 (ranking and ties).  On every score table over the positions of the
    document (both scorers build such tables), the ranking is by score
    descending with ties in ascending index: a sentence with a higher score
    than a selected one, or with the same score and a lower index, is
    selected too.  This holds for the selection of [document_summary.py]
    and for the fallback selection of [text_summary.py]. *)
Theorem ranking_and_ties :
  forall (scores : list (nat * Q)) (n target : nat) (p q : nat * Q),
    total_table scores n ->
    In p scores -> In q scores -> ranks p q ->
    StronglySorted ranks (sorted_by_value_desc scores)
    /\ (In (fst q) (DocumentSummary.selected_idx scores target) ->
        In (fst p) (DocumentSummary.selected_idx scores target))
    /\ (In (fst q) (TextSummary.fallback_indices scores target) ->
        In (fst p) (TextSummary.fallback_indices scores target)).
Proof.
  intros scores n target p q Htable Hp Hq Hpq. split; [|split].
  - apply (DocumentFacts.ranked _ _ Htable).
  - apply (DocumentFacts.selected_priority _ _ Htable); assumption.
  - apply (DocumentFacts.selected_priority _ _ Htable); assumption.
Qed.

(** The first two of three sentences with the scorer's uniform scores: the
    second is selected, so the first, which ties with it, is selected. *)
Lemma ranking_and_ties_witness :
  let scores :=
    DocumentSummary.calculate_sentence_importance
      Examples.sklearn_missing Examples.three_sentences [] in
  In 0 (DocumentSummary.selected_idx scores 2)
  /\ In 0 (TextSummary.fallback_indices scores 2).
Proof.
  cbv zeta.
  destruct (ranking_and_ties
              (DocumentSummary.calculate_sentence_importance
                 Examples.sklearn_missing Examples.three_sentences [])
              3 2 (0, 1.0%Q) (1, 1.0%Q)) as [_ [H1 H2]].
  - apply ScorerFacts.doc_scores_total.
  - left. reflexivity.
  - right. left. reflexivity.
  - right. split; [reflexivity | simpl; lia].
  - split; [apply H1 | apply H2]; right; left; reflexivity.
Defined.

(** The same at the level of the handler: a response is produced only for
    three sentences or more, and it reports [min(target, total)] selected
    sentences. *)
Lemma document_response_count (sk : Sklearn) (text level : str)
    (result : DocumentSummary.summary) (stats : statistics) :
  DocumentSummary.document_summary sk text level = DocumentSummary.Ok result stats ->
  3 <= sentence_count stats
  /\ DocumentSummary.selected_count result
     = Nat.min (DocumentSummary.target_count level (sentence_count stats))
         (sentence_count stats).
Proof.
  intros H. unfold DocumentSummary.document_summary in H.
  set (clean := DocumentSummary.clean_text text) in *.
  set (sentences := DocumentSummary.split_sentences clean) in *.
  remember (DocumentSummary.generate_professional_summary sk sentences clean level)
    as res eqn:Hres.
  clearbody sentences clean.
  destruct (negb _) in H; [discriminate|].
  destruct (_ || _) in H; [discriminate|].
  destruct (length sentences <? 3) eqn:Hn in H; [discriminate|].
  destruct (compression_ratio _ _) as [compression|] in H; [|discriminate].
  injection H as <- <-. simpl. apply Nat.ltb_ge in Hn. split; [exact Hn|].
  rewrite Hres.
  unfold DocumentSummary.generate_professional_summary,
    DocumentSummary.summary_of_scores. simpl. rewrite length_map.
  apply DocumentFacts.selected_length.
  apply ScorerFacts.doc_scores_total.
Qed.

(** Three sentences at brief level, with a similarity computation that
    raises and a sumy without tokenizer data: both services select all
    three sentences, and the targets 4 and 3 lie in the brief bands. *)
Lemma count_bound_witness :
  (DocumentSummary.selected_count
     (DocumentSummary.generate_professional_summary
        Examples.sklearn_similarity_raises Examples.three_sentences []
        (lit "brief")) = 3
   /\ 4 <= DocumentSummary.target_count (lit "brief") 3 <= 8)
  /\ (length (TextSummary.ensemble_sentences
                Examples.sklearn_similarity_raises Examples.sumy_no_tokenizer []
                Examples.three_sentences (TextSummary.main_count (lit "brief") 3)) = 3
      /\ 3 <= TextSummary.main_count (lit "brief") 3 <= 6).
Proof.
  destruct (count_bound Examples.sklearn_similarity_raises Examples.sumy_no_tokenizer
              Examples.three_sentences [] (lit "brief"))
    as [[H1 [H2 _]] [H3 [H4 _]]].
  split; split.
  - exact H1.
  - apply H2. reflexivity.
  - exact H3.
  - apply H4. reflexivity.
Defined.

(** C7 (the scorer never raises).  Both scorers are total: whatever
    scikit-learn does, they return a score for every index [0 .. n-1], in
    that order.  With fewer than three sentences, when the import fails,
    when the vectorizer raises, when the similarity computation raises for
    some sentence, and generally whenever the [try] block raises, the table
    is the uniform one, 1.0 at every index. *)
Theorem scorer_never_raises :
  forall (sk : Sklearn) (sentences : list str) (text : str),
    let n := length sentences in
    let doc := DocumentSummary.calculate_sentence_importance sk sentences text in
    let txt := TextSummary.calculate_advanced_scores sk sentences text in
    (total_table doc n /\ total_table txt n)
    /\ (n < 3 -> doc = uniform_scores n /\ txt = uniform_scores n)
    /\ (sklearn_imports sk = false -> doc = uniform_scores n /\ txt = uniform_scores n)
    /\ (fit_transform sk sentences = None ->
        doc = uniform_scores n /\ txt = uniform_scores n)
    /\ (forall (tfidf : tfidf_matrix sk) (idx : nat),
          fit_transform sk sentences = Some tfidf -> idx < n ->
          centroid_similarity sk tfidf idx = None ->
          doc = uniform_scores n /\ txt = uniform_scores n)
    /\ (DocumentSummary.importance_body sk sentences = None -> doc = uniform_scores n)
    /\ (TextSummary.advanced_body sk sentences = None -> txt = uniform_scores n).
Proof.
  intros sk sentences text n doc txt.
  assert (Hfew : n < 3 -> doc = uniform_scores n /\ txt = uniform_scores n).
  { intros H. split.
    - apply ScorerFacts.doc_few_sentences. exact H.
    - apply ScorerFacts.text_few_sentences. exact H. }
  split; [|split; [|split; [|split; [|split; [|split]]]]].
  - split; [apply ScorerFacts.doc_scores_total | apply ScorerFacts.text_scores_total].
  - exact Hfew.
  - intros H. split.
    + apply ScorerFacts.doc_body_raises.
      unfold DocumentSummary.importance_body. rewrite H. reflexivity.
    + apply ScorerFacts.text_body_raises.
      unfold TextSummary.advanced_body. rewrite H. reflexivity.
  - intros H. destruct (le_lt_dec 3 n) as [Hn | Hn]; [|apply Hfew, Hn].
    apply Nat.ltb_ge in Hn. split.
    + apply ScorerFacts.doc_body_raises.
      unfold DocumentSummary.importance_body. fold n. rewrite Hn, H.
      destruct (negb (sklearn_imports sk)); reflexivity.
    + apply ScorerFacts.text_body_raises.
      unfold TextSummary.advanced_body. fold n. rewrite Hn, H.
      destruct (negb (sklearn_imports sk)); reflexivity.
  - intros tfidf idx Hfit Hidx Hsim.
    destruct (le_lt_dec 3 n) as [Hn | Hn]; [|apply Hfew, Hn]. split.
    + apply ScorerFacts.doc_body_raises.
      exact (ScorerFacts.doc_similarity_raises sk sentences tfidf idx Hn Hfit Hidx Hsim).
    + apply ScorerFacts.text_body_raises.
      exact (ScorerFacts.text_similarity_raises sk sentences tfidf idx Hn Hfit Hidx Hsim).
  - apply ScorerFacts.doc_body_raises.
  - apply ScorerFacts.text_body_raises.
Qed.

(** Three sentences and a similarity computation that raises at the first
    of them: both scorers hand out 1.0 three times. *)
Lemma scorer_never_raises_witness :
  DocumentSummary.calculate_sentence_importance
    Examples.sklearn_similarity_raises Examples.three_sentences []
  = [(0, 1.0%Q); (1, 1.0%Q); (2, 1.0%Q)]
  /\ TextSummary.calculate_advanced_scores
       Examples.sklearn_similarity_raises Examples.three_sentences []
     = [(0, 1.0%Q); (1, 1.0%Q); (2, 1.0%Q)].
Proof.
  destruct (scorer_never_raises Examples.sklearn_similarity_raises
              Examples.three_sentences [])
    as [_ [_ [_ [_ [H _]]]]].
  apply (H tt 0).
  - reflexivity.
  - simpl. lia.
  - reflexivity.
Defined.

(* ================================================================= *)
(** ** Position signal *)

Lemma Qlt_bool_iff (a b : Q) : Qlt_bool a b = true <-> (a < b)%Q.
Proof.
  unfold Qlt_bool. split.
  - intros H. apply Facts.Qle_bool_false. apply negb_true_iff. exact H.
  - intros H. apply negb_true_iff.
    destruct (Qle_bool b a) eqn:E; [|reflexivity].
    apply Qle_bool_iff in E. exfalso. apply (Qlt_not_le _ _ H E).
Qed.

Lemma Qlt_bool_nat (a b : Q) (c : bool) :
  ((a < b)%Q <-> c = true) -> Qlt_bool a b = c.
Proof.
  intros H. destruct c.
  - apply Qlt_bool_iff, H. reflexivity.
  - destruct (Qlt_bool a b) eqn:E; [|reflexivity].
    apply Qlt_bool_iff, H in E. discriminate.
Qed.

Lemma text_first_tenth (idx total : nat) :
  Qlt_bool (Qnat idx) (Qnat total * 0.10) = (10 * idx <? total).
Proof.
  apply Qlt_bool_nat. rewrite Nat.ltb_lt.
  unfold Qlt, Qnat. simpl. lia.
Qed.

Lemma text_first_quarter (idx total : nat) :
  Qlt_bool (Qnat idx) (Qnat total * 0.25) = (4 * idx <? total).
Proof.
  apply Qlt_bool_nat. rewrite Nat.ltb_lt.
  unfold Qlt, Qnat. simpl. lia.
Qed.

Lemma text_last_part (idx total : nat) :
  Qlt_bool (Qnat total * 0.85) (Qnat idx) = (85 * total <? 100 * idx).
Proof.
  apply Qlt_bool_nat. rewrite Nat.ltb_lt.
  unfold Qlt, Qnat. simpl. lia.
Qed.

Lemma doc_first_tenth (idx total : nat) :
  0 < total ->
  Qlt_bool (Qnat idx / Qnat total) 0.1 = (10 * idx <? total).
Proof.
  intros Ht. apply Qlt_bool_nat. rewrite Nat.ltb_lt.
  destruct total as [|t]; [lia|].
  unfold Qlt, Qnat, Qdiv, Qinv, Qmult. simpl.
  pose proof (Zpos_P_of_succ_nat t). lia.
Qed.

Lemma doc_last_tenth (idx total : nat) :
  0 < total ->
  Qlt_bool 0.9 (Qnat idx / Qnat total) = (9 * total <? 10 * idx).
Proof.
  intros Ht. apply Qlt_bool_nat. rewrite Nat.ltb_lt.
  destruct total as [|t]; [lia|].
  unfold Qlt, Qnat, Qdiv, Qinv, Qmult. simpl.
  pose proof (Zpos_P_of_succ_nat t). lia.
Qed.

(** C5, as the code has it.  For sentence [idx] of [total]:
    [text_summary.py] gives 0.6 in the first tenth, 0.3 from there to the
    first quarter, 0.4 beyond 85 percent and 0.0 to every other sentence;
    [document_summary.py] gives 1.0 in the first tenth, 0.85 beyond 90
    percent and 0.4, its lowest value, to every other sentence, the range
    from 10 to 25 percent included. *)
Theorem position_tiers :
  forall idx total : nat,
    idx < total ->
    TextSummary.position_score idx total
    = (if 10 * idx <? total then 0.6
       else if 4 * idx <? total then 0.3
       else if 85 * total <? 100 * idx then 0.4
       else 0.0)%Q
    /\ DocumentSummary.position_score idx total
       = (if 10 * idx <? total then 1.0
          else if 9 * total <? 10 * idx then 0.85
          else 0.4)%Q.
Proof.
  intros idx total H. split.
  - unfold TextSummary.position_score.
    rewrite text_first_tenth, text_first_quarter, text_last_part. reflexivity.
  - unfold DocumentSummary.position_score.
    rewrite doc_first_tenth, doc_last_tenth by lia. reflexivity.
Qed.

(** The third of ten sentences: the medium value in one service, the lowest
    in the other. *)
Lemma position_tiers_witness :
  TextSummary.position_score 2 10 = 0.3%Q
  /\ DocumentSummary.position_score 2 10 = 0.4%Q.
Proof.
  apply (position_tiers 2 10). lia.
Defined.

(** C5, as stated, fails in [document_summary.py]: the third of ten
    sentences lies between 10 and 25 percent of the document and gets 0.4,
    the score of a sentence from the middle and the lowest the function
    hands out, not a medium tier. *)
Lemma position_tiers_counterexample :
  (10 * 2 >= 10 /\ 4 * 2 < 10)
  /\ DocumentSummary.position_score 2 10 = 0.4%Q
  /\ DocumentSummary.position_score 5 10 = 0.4%Q
  /\ DocumentSummary.position_score 0 10 = 1.0%Q
  /\ DocumentSummary.position_score 9 10 = 0.4%Q
  /\ DocumentSummary.position_score 19 20 = 0.85%Q
  /\ (forall idx total,
        DocumentSummary.position_score idx total = 1.0%Q
        \/ DocumentSummary.position_score idx total = 0.85%Q
        \/ DocumentSummary.position_score idx total = 0.4%Q).
Proof.
  split; [lia|].
  repeat (split; [reflexivity|]).
  intros idx total. unfold DocumentSummary.position_score.
  destruct (Qlt_bool _ _); [auto|].
  destruct (Qlt_bool _ _); auto.
Qed.

(* ================================================================= *)
(** ** Statistics *)

Lemma round_div_nearest (n d : nat) :
  0 < d -> nearest_ties_even (round_div n d) n d.
Proof.
  intros Hd. unfold nearest_ties_even, round_div.
  pose proof (Nat.div_mod_eq n d) as Hn.
  pose proof (Nat.mod_upper_bound n d ltac:(lia)) as Hr.
  set (q := n / d) in *. set (r := n mod d) in *.
  set (dq := d * q) in *.
  replace (2 * d * q) with (2 * dq) by (unfold dq; lia).
  replace (2 * d * S q) with (2 * dq + 2 * d) by (unfold dq; lia).
  destruct (2 * r <? d) eqn:E1; [apply Nat.ltb_lt in E1 | apply Nat.ltb_ge in E1].
  - repeat split; try lia.
  - destruct (d <? 2 * r) eqn:E2; [apply Nat.ltb_lt in E2 | apply Nat.ltb_ge in E2].
    + repeat split; try lia.
    + destruct (Nat.even q) eqn:E3.
      * repeat split; try lia. intros _. exact E3.
      * repeat split; try lia. intros _.
        rewrite Nat.even_succ, <- Nat.negb_even, E3. reflexivity.
Qed.

(** The nearest integer with ties to even is unique, so
    [nearest_ties_even] pins the rounding down. *)
Lemma nearest_ties_even_unique (r r' n d : nat) :
  0 < d -> nearest_ties_even r n d -> nearest_ties_even r' n d -> r = r'.
Proof.
  unfold nearest_ties_even. intros Hd [H1 [H2 H3]] [H1' [H2' H3']].
  assert (Hmul : forall a b, a < b -> 2 * d * a + 2 * d <= 2 * d * b).
  { intros a b Hab. replace b with (S a + (b - S a)) by lia. nia. }
  destruct (Nat.lt_trichotomy r r') as [Hlt | [Heq | Hgt]]; [|exact Heq|].
  - exfalso. pose proof (Hmul r r' Hlt) as Hm.
    assert (Hr : r' = S r).
    { destruct (Nat.eq_dec r' (S r)) as [|Hne]; [assumption|].
      pose proof (Hmul (S r) r' ltac:(lia)). nia. }
    subst r'. assert (Hd2 : 2 * d * S r = 2 * d * r + 2 * d) by lia.
    assert (E : Nat.even r = true) by (apply H3; lia).
    assert (E' : Nat.even (S r) = true) by (apply H3'; lia).
    rewrite Nat.even_succ, <- Nat.negb_even, E in E'. discriminate.
  - exfalso. pose proof (Hmul r' r Hgt) as Hm.
    assert (Hr : r = S r').
    { destruct (Nat.eq_dec r (S r')) as [|Hne]; [assumption|].
      pose proof (Hmul (S r') r ltac:(lia)). nia. }
    subst r. assert (Hd2 : 2 * d * S r' = 2 * d * r' + 2 * d) by lia.
    assert (E : Nat.even r' = true) by (apply H3'; lia).
    assert (E' : Nat.even (S r') = true) by (apply H3; lia).
    rewrite Nat.even_succ, <- Nat.negb_even, E in E'. discriminate.
Qed.

(** The integer rounding agrees with the rounding of the double quotient on
    every word count up to 5000. *)
Lemma round_div_float_agrees :
  forallb
    (fun words =>
       match round_div_float words 200 with
       | Some z => Z.eqb z (Z.of_nat (round_div words 200))
       | None => false
       end)
    (seq 0 (50 * 100 + 1))
  = true.
Proof. vm_compute. reflexivity. Qed.

(** Where the doubles matter: 29 summary words out of 80 give 63.7 percent
    (the double [(1 - 29/80) * 100] lies just below 63.75), 31 out of 80
    give 61.3. *)
Lemma compression_ratio_examples :
  compression_ratio 29 80 = Some 637%Z
  /\ compression_ratio 31 80 = Some 613%Z
  /\ compression_ratio 60 250 = Some 760%Z
  /\ compression_ratio 1 3 = Some 667%Z
  /\ compression_ratio 5 0 = None.
Proof. vm_compute. repeat split. Qed.

Lemma statistics_of_counts (words summary_words : nat) (compression : Z) :
  compression_ratio summary_words words = Some compression ->
  forall sentences,
    statistics_as_coded
      {| word_count := words;
         sentence_count := sentences;
         summary_word_count := summary_words;
         compression_tenths := compression;
         reading_time := reading_time_minutes words;
         summary_reading_time := reading_time_minutes summary_words |}
      words summary_words.
Proof.
  intros Hc sentences. unfold statistics_as_coded. simpl.
  repeat split; try reflexivity.
  - exists (round_div words 200). split; [apply round_div_nearest; lia | reflexivity].
  - exists (round_div summary_words 200).
    split; [apply round_div_nearest; lia | reflexivity].
  - exact Hc.
Qed.

(** C4, as the code has it.  In every successful response of either
    service the word counts are those of the cleaned text and of the main
    summary, each reading time is [max(1, round(words / 200))] with [round]
    to the nearest integer and ties to the even one (not rounded up), and
    the compression ratio is [round((1 - summary_words / word_count) * 100,
    1)] computed on doubles. *)
Theorem statistics_formulas :
  forall (sk : Sklearn) (sumy : TextSummary.Sumy) (text level : str),
    (forall result stats,
       DocumentSummary.document_summary sk text level
       = DocumentSummary.Ok result stats ->
       statistics_as_coded stats
         (length (split (DocumentSummary.clean_text text)))
         (length (split (DocumentSummary.main_summary result))))
    /\ (forall result stats,
          TextSummary.text_summary sk sumy text level
          = TextSummary.Ok result stats ->
          statistics_as_coded stats
            (length (split (TextSummary.preprocess_text (strip text))))
            (length (split (TextSummary.summary result)))).
Proof.
  intros sk sumy text level. split; intros result stats H.
  - unfold DocumentSummary.document_summary in H.
    set (clean := DocumentSummary.clean_text text) in *.
    set (sentences := DocumentSummary.split_sentences clean) in *.
    set (res := DocumentSummary.generate_professional_summary sk sentences clean level)
      in *.
    clearbody res sentences clean.
    destruct (negb _) in H; [discriminate|].
    destruct (_ || _) in H; [discriminate|].
    destruct (_ <? 3) in H; [discriminate|].
    destruct (compression_ratio _ _) as [compression|] eqn:Hc in H; [|discriminate].
    injection H as <- <-.
    apply statistics_of_counts. exact Hc.
  - unfold TextSummary.text_summary in H.
    set (clean := TextSummary.preprocess_text (strip text)) in *.
    set (sentences := TextSummary.split_into_sentences clean) in *.
    set (main := TextSummary.generate_ensemble_summary sk sumy clean sentences _) in *.
    set (exec := TextSummary.generate_executive_summary sk clean sentences) in *.
    clearbody exec main sentences clean.
    destruct (_ || _) in H; [discriminate|].
    destruct (_ =? 0) in H; [discriminate|].
    destruct (_ <? 50) in H; [discriminate|].
    destruct (_ <? 3) in H; [discriminate|].
    destruct (compression_ratio _ _) as [compression|] eqn:Hc in H; [|discriminate].
    injection H as <- <-.
    apply statistics_of_counts. exact Hc.
Qed.

(** The three-sentence text of 24 words through both services, with a
    similarity computation that raises and a sumy without tokenizer data:
    24 words in, 24 words out, one minute each, no compression. *)
Lemma statistics_formulas_witness :
  let stats :=
    {| word_count := 24; sentence_count := 3; summary_word_count := 24;
       compression_tenths := 0; reading_time := 1; summary_reading_time := 1 |} in
  statistics_as_coded stats
    (length (split (DocumentSummary.clean_text Examples.short_text)))
    (length (split Examples.short_text))
  /\ statistics_as_coded stats
       (length (split (TextSummary.preprocess_text (strip Examples.short_text))))
       (length (split Examples.short_text)).
Proof.
  cbv zeta.
  destruct (statistics_formulas Examples.sklearn_similarity_raises
              Examples.sumy_no_tokenizer Examples.short_text (lit "brief"))
    as [H1 H2].
  split.
  - apply (H1 {| DocumentSummary.main_summary := Examples.short_text;
                 DocumentSummary.executive :=
                   join (lit " ") (firstn 2 Examples.three_sentences);
                 DocumentSummary.selected_count := 3 |}).
    vm_compute. reflexivity.
  - apply (H2 {| TextSummary.summary := Examples.short_text;
                 TextSummary.executive_summary :=
                   join (lit " ") (firstn 2 Examples.three_sentences) |}).
    vm_compute. reflexivity.
Defined.

(** C4, as stated, fails: a document of 250 words is reported with a
    reading time of one minute, where 250 / 200 rounded up is two. *)
Lemma statistics_counterexample :
  exists result stats,
    DocumentSummary.document_summary
      Examples.sklearn_similarity_raises Examples.long_text (lit "detailed")
    = DocumentSummary.Ok result stats
    /\ word_count stats = 250
    /\ reading_time stats = 1
    /\ Nat.max 1 (rounded_up 250 200) = 2
    /\ reading_time_minutes 250 = 1
    /\ round_div_float 250 200 = Some 1%Z.
Proof.
  eexists. eexists. split; [vm_compute; reflexivity|].
  vm_compute. repeat split.
Qed.

(* ================================================================= *)
(** ** Executive summary *)

(** C6, as the code has it.  On every score table over the positions of
    the document:
    - [document_summary.py] takes the [min(2, n)] top-ranked sentences, none
      of the others scoring above one of them, puts them back in reading
      order and joins them with one space;
    - [text_summary.py] takes at most two (at least one of a non-empty
      document) distinct sentences among its candidates (the first two
      sentences and the three top-ranked ones), none of the other
      candidates scoring above one of them, and joins them with one space in
      the order of the ranking, best first: they are not put back in
      reading order. *)
Theorem executive_summary_design :
  forall (scores : list (nat * Q)) (sentences : list str) (level : str),
    total_table scores (length sentences) ->
    (let idxs := DocumentSummary.exec_idx scores in
     length idxs = Nat.min 2 (length sentences)
     /\ reading_order sentences idxs
     /\ (forall p q, In p scores -> In q scores ->
           In (fst p) idxs -> ~ In (fst q) idxs -> (snd q <= snd p)%Q)
     /\ DocumentSummary.executive
          (DocumentSummary.summary_of_scores scores sentences level)
        = join (lit " ") (map (getitem sentences) idxs))
    /\
    (let chosen := TextSummary.executive_sentences scores sentences in
     let score := TextSummary.candidate_score scores sentences in
     length chosen <= 2
     /\ (sentences <> [] -> 1 <= length chosen)
     /\ NoDup chosen
     /\ incl chosen (TextSummary.executive_candidates scores sentences)
     /\ incl chosen sentences
     /\ StronglySorted (fun a b => (score b <= score a)%Q) chosen
     /\ (forall a b, In a chosen ->
           In b (TextSummary.executive_candidates scores sentences) ->
           ~ In b chosen -> (score b <= score a)%Q)).
Proof.
  intros scores sentences level Htable. split.
  - cbv zeta. split; [|split; [|split]].
    + apply (DocumentFacts.selected_length _ _ Htable 2).
    + apply (DocumentFacts.selected_reading_order _ _ Htable sentences 2).
      reflexivity.
    + intros p q. apply (DocumentFacts.selected_top _ _ Htable 2).
    + reflexivity.
  - cbv zeta. split; [|split; [|split; [|split; [|split; [|split]]]]].
    + rewrite TextFacts.executive_length. lia.
    + apply TextFacts.executive_nonempty; exact Htable.
    + apply TextFacts.executive_NoDup.
    + intros x Hx. rewrite TextFacts.executive_items in Hx.
      apply in_map_iff in Hx. destruct Hx as [p [<- Hp]].
      apply Facts.firstn_In in Hp.
      apply (TextFacts.sorted_items_In scores sentences p Hp).
    + apply TextFacts.executive_members. exact Htable.
    + apply TextFacts.executive_descending.
    + apply TextFacts.executive_best.
Qed.

(** Three sentences whose scores rise with the position. *)
Lemma executive_summary_design_witness :
  let scores :=
    TextSummary.calculate_advanced_scores
      Examples.sklearn_rising Examples.three_sentences [] in
  DocumentSummary.exec_idx scores = [1; 2]
  /\ length (TextSummary.executive_sentences scores Examples.three_sentences) <= 2
  /\ 1 <= length (TextSummary.executive_sentences scores Examples.three_sentences).
Proof.
  cbv zeta.
  destruct (executive_summary_design
              (TextSummary.calculate_advanced_scores
                 Examples.sklearn_rising Examples.three_sentences [])
              Examples.three_sentences (lit "detailed"))
    as [_ [H1 [H2 _]]].
  - apply ScorerFacts.text_scores_total.
  - split; [vm_compute; reflexivity|].
    split; [exact H1 | apply H2; discriminate].
Defined.

(** C6, as stated, fails in [text_summary.py]: when the third of three
    sentences scores best and the second next, the executive summary is the
    third sentence followed by the second, not the two in reading order. *)
Lemma executive_summary_counterexample :
  exists result stats,
    TextSummary.text_summary
      Examples.sklearn_rising Examples.sumy_no_tokenizer Examples.short_text
      (lit "brief")
    = TextSummary.Ok result stats
    /\ TextSummary.split_into_sentences
         (TextSummary.preprocess_text (strip Examples.short_text))
       = Examples.three_sentences
    /\ TextSummary.executive_summary result
       = join (lit " ")
           [getitem Examples.three_sentences 2; getitem Examples.three_sentences 1]
    /\ TextSummary.executive_summary result
       = lit "Gamma systems were measured third in the study. Beta systems were measured second in the study.".
Proof.
  eexists. eexists. split; [vm_compute; reflexivity|].
  vm_compute. repeat split.
Qed.

(* ================================================================= *)
(** ** Segmenter and normaliser *)

Module SegmenterFacts.
Import Facts.

Lemma startswith_app (p a r : str) :
  startswith p a = true -> startswith p (a ++ r) = true.
Proof.
  revert a. induction p as [|x p IH]; intros [|y a]; simpl; try congruence.
  rewrite !andb_true_iff. intros [H1 H2]. split; [exact H1 | apply IH, H2].
Qed.

Lemma contains_app_l (p a r : str) :
  contains p a = true -> contains p (a ++ r) = true.
Proof.
  induction a as [|y a IH]; simpl.
  - rewrite orb_false_r. intros H. destruct p; [|discriminate].
    destruct r; reflexivity.
  - rewrite !orb_true_iff. intros [H | H].
    + left. apply (startswith_app p (y :: a) r H).
    + right. apply IH, H.
Qed.

Lemma contains_app_r (p l a : str) :
  contains p a = true -> contains p (l ++ a) = true.
Proof.
  induction l as [|y l IH]; simpl; intros H; [exact H|].
  rewrite orb_true_iff. right. apply IH, H.
Qed.

Lemma lstrip_suffix (s : str) : exists l, s = l ++ lstrip s.
Proof.
  induction s as [|c s [l IH]]; simpl.
  - exists []. reflexivity.
  - destruct (isspace c).
    + exists (c :: l). simpl. f_equal. exact IH.
    + exists []. reflexivity.
Qed.

Lemma rstrip_prefix (s : str) : exists r, s = rstrip s ++ r.
Proof.
  unfold rstrip. destruct (lstrip_suffix (rev s)) as [l H].
  exists (rev l). rewrite <- rev_app_distr, <- H, rev_involutive. reflexivity.
Qed.

(** [strip] keeps a stretch of the text. *)
Lemma contains_strip (p s : str) :
  contains p (strip s) = true -> contains p s = true.
Proof.
  unfold strip. intros H.
  destruct (lstrip_suffix s) as [l Hl].
  destruct (rstrip_prefix (lstrip s)) as [r Hr].
  rewrite Hl. apply contains_app_r. rewrite Hr. apply contains_app_l. exact H.
Qed.

Lemma period_head (p rest : str) :
  existsb (eqb_char ".") p = false -> p <> [] ->
  startswith p ("."%char :: rest) = false.
Proof.
  destruct p as [|x p]; [congruence|]. intros H _.
  cbn [existsb] in H. apply orb_false_iff in H. destruct H as [Hx _].
  cbn [startswith]. destruct (eqb_char x ".") eqn:E; [|reflexivity].
  apply eqb_char_eq in E. subst x. vm_compute in Hx. discriminate.
Qed.

Section Replace.
(** Replacing [old] by a period, where [old] holds no period. *)
Variable old : str.
Hypothesis old_plain : existsb (eqb_char ".") old = false.
Hypothesis old_nonempty : old <> [].

Local Abbreviation new := ["."%char].

Lemma replace_match (c : ascii) (s : str) :
  startswith old (c :: s) = true ->
  replace_from old new 0 (c :: s)
  = "."%char :: replace_from old new (length old - 1) s.
Proof. intros E. cbn [replace_from]. rewrite E. reflexivity. Qed.

Lemma replace_copy (c : ascii) (s : str) :
  startswith old (c :: s) = false ->
  replace_from old new 0 (c :: s) = c :: replace_from old new 0 s.
Proof. intros E. cbn [replace_from]. rewrite E. reflexivity. Qed.

(** A stretch without a period at the head of the result was at the head
    of the text: no replacement took place there. *)
Lemma replace_head (p : str) :
  existsb (eqb_char ".") p = false ->
  forall s, startswith p (replace_from old new 0 s) = true ->
            startswith p s = true.
Proof.
  induction p as [|x p IH]; intros Hp s H; [reflexivity|].
  assert (Hne : x :: p <> []) by discriminate.
  destruct s as [|c s]; [cbn in H; discriminate|].
  destruct (startswith old (c :: s)) eqn:E.
  - rewrite (replace_match c s E) in H.
    rewrite (period_head (x :: p) _ Hp Hne) in H. discriminate.
  - rewrite (replace_copy c s E) in H.
    cbn [existsb] in Hp. apply orb_false_iff in Hp. destruct Hp as [_ Hp].
    cbn [startswith] in H |- *.
    apply andb_true_iff in H. destruct H as [H1 H2].
    apply andb_true_iff. split; [exact H1 | apply IH; assumption].
Qed.

Lemma replace_from_clean (s : str) :
  forall skip, contains old (replace_from old new skip s) = false.
Proof.
  induction s as [|c s IH]; intros skip.
  - cbn. destruct old; [congruence | reflexivity].
  - destruct skip as [|k]; [|cbn [replace_from]; apply IH].
    destruct (startswith old (c :: s)) eqn:E.
    + rewrite (replace_match c s E). cbn [contains].
      rewrite IH, orb_false_r. apply period_head; assumption.
    + rewrite (replace_copy c s E). cbn [contains].
      rewrite IH, orb_false_r.
      destruct (startswith old (c :: replace_from old new 0 s)) eqn:E'; [|reflexivity].
      rewrite <- (replace_copy c s E) in E'.
      apply (replace_head old old_plain) in E'. congruence.
Qed.
End Replace.

Lemma restore_clean (s : str) : contains PERIOD (restore s) = false.
Proof.
  unfold restore.
  destruct (contains PERIOD (strip (replace PERIOD (lit ".") s))) eqn:E; [|reflexivity].
  apply contains_strip in E.
  unfold replace in E. change (lit ".") with ["."%char] in E.
  rewrite replace_from_clean in E; [discriminate | reflexivity | discriminate].
Qed.

End SegmenterFacts.

(** C8.  The scenario text is never split at an abbreviation: in both
    services the masked text is one piece.  The segmenter of
    [text_summary.py] returns that one sentence, with its abbreviations in
    lower case.  The segmenter of [document_summary.py] returns nothing:
    the mask has turned the leading [Dr.] into [dr.], and the filter on
    the first character then drops the only sentence. *)
Theorem abbreviation_scenario :
  re_split (Patterns.boundary is_AZ)
    (mask_abbreviations DocumentSummary.abbreviations Examples.smith)
  = [lit "dr<PERIOD> Smith met prof<PERIOD> Lee on Jan. 5."]
  /\ re_split (Patterns.boundary TextSummary.ahead)
       (mask_abbreviations TextSummary.abbreviations Examples.smith)
     = [lit "dr<PERIOD> Smith met prof<PERIOD> Lee on jan<PERIOD> 5."]
  /\ TextSummary.split_into_sentences Examples.smith
     = [lit "dr. Smith met prof. Lee on jan. 5."]
  /\ restore (lit "dr<PERIOD> Smith met prof<PERIOD> Lee on Jan. 5.")
     = lit "dr. Smith met prof. Lee on Jan. 5."
  /\ DocumentSummary.valid (lit "dr. Smith met prof. Lee on Jan. 5.") = false
  /\ DocumentSummary.valid (lit "Dr. Smith met Prof. Lee on Jan. 5.") = true
  /\ DocumentSummary.split_sentences Examples.smith = []
  /\ DocumentSummary.split_sentences (DocumentSummary.clean_text Examples.smith) = [].
Proof. vm_compute. repeat split. Qed.

(** C9.  [preprocess_text] of [text_summary.py] is not idempotent: it
    collapses white space before it deletes URLs and addresses, so the
    blanks on both sides of a deleted link stay, and a second pass removes
    one of them.  [clean_text] of [document_summary.py] deletes first and
    collapses afterwards; on this text it is stable. *)
Theorem normalizer_not_idempotent :
  TextSummary.preprocess_text Examples.linked_text
  = lit "See the full report at  for all the details."
  /\ TextSummary.preprocess_text (TextSummary.preprocess_text Examples.linked_text)
     = lit "See the full report at for all the details."
  /\ TextSummary.preprocess_text (lit "a http://x b") = lit "a  b"
  /\ TextSummary.preprocess_text (lit "a  b") = lit "a b"
  /\ DocumentSummary.clean_text Examples.linked_text
     = lit "See the full report at for all the details."
  /\ DocumentSummary.clean_text (DocumentSummary.clean_text Examples.linked_text)
     = DocumentSummary.clean_text Examples.linked_text.
Proof. vm_compute. repeat split. Qed.

(** [clean_text] is stable on each of the ten thousand texts of
    [Examples.texts 4]. *)
Lemma clean_text_stable_on_texts :
  forallb
    (fun s =>
       Py.eqb (DocumentSummary.clean_text (DocumentSummary.clean_text s))
              (DocumentSummary.clean_text s))
    (Examples.texts 4)
  = true.
Proof. vm_compute. reflexivity. Qed.

(** C10.  Every sentence either segmenter returns is a piece of the masked
    text in which each [<PERIOD>] has been replaced by a period, and then
    stripped; so no returned sentence contains [<PERIOD>].  The placeholder
    is restored whether the mask or the input put it there: a sentence that
    spells it out comes back with a period in its place. *)
Theorem placeholder_not_preserved :
  forall text : str,
    Forall
      (fun sentence =>
         (exists piece,
            In piece
               (re_split (Patterns.boundary is_AZ)
                  (mask_abbreviations DocumentSummary.abbreviations text))
            /\ sentence = strip (replace PERIOD (lit ".") piece))
         /\ contains PERIOD sentence = false)
      (DocumentSummary.split_sentences text)
    /\ Forall
         (fun sentence =>
            (exists piece,
               In piece
                  (re_split (Patterns.boundary TextSummary.ahead)
                     (mask_abbreviations TextSummary.abbreviations text))
               /\ sentence = strip (replace PERIOD (lit ".") piece))
            /\ contains PERIOD sentence = false)
         (TextSummary.split_into_sentences text)
    /\ contains PERIOD Examples.placeholder_text = true
    /\ DocumentSummary.split_sentences Examples.placeholder_text
       = [lit "Use the . marker in templates."]
    /\ TextSummary.split_into_sentences Examples.placeholder_text
       = [lit "Use the . marker in templates."].
Proof.
  intros text. split; [|split; [|vm_compute; repeat split]].
  - unfold DocumentSummary.split_sentences. rewrite Forall_forall.
    intros sentence H. apply filter_In in H. destruct H as [H _].
    apply in_map_iff in H. destruct H as [piece [<- H]]. split.
    + exists piece. split; [exact H | reflexivity].
    + apply SegmenterFacts.restore_clean.
  - unfold TextSummary.split_into_sentences. rewrite Forall_forall.
    intros sentence H. apply in_map_iff in H. destruct H as [piece [<- H]].
    apply filter_In in H. destruct H as [H _]. split.
    + exists piece. split; [exact H | reflexivity].
    + apply SegmenterFacts.restore_clean.
Qed.

(* ================================================================= *)
(** * Further properties of the two services

    What the code shows beyond the specification: the key points and the
    bullet points, the topics and the key concepts, the text type, the
    assembly of the summaries, the two normalisers, the segmenters, the
    scores and the extraction of the text. *)

Module PointFacts.

Lemma endswith_last (c : ascii) (s : str) : endswith [c] (s ++ [c]) = true.
Proof.
  unfold endswith. rewrite rev_app_distr. simpl.
  unfold eqb_char. now rewrite Ascii.eqb_refl.
Qed.

Lemma ends_sentence_period (s : str) : ends_sentence (s ++ lit ".") = true.
Proof.
  unfold ends_sentence.
  change (lit ".") with ["."]. now rewrite endswith_last.
Qed.

Lemma key_point_complete (s : str) :
  ends_sentence (DocumentSummary.key_point s) = true.
Proof.
  unfold DocumentSummary.key_point.
  destruct (ends_sentence (strip s)) eqn:E; [exact E | apply ends_sentence_period].
Qed.

Lemma bullet_point_complete (s : str) :
  ends_sentence (TextSummary.bullet_point s) = true.
Proof.
  unfold TextSummary.bullet_point.
  destruct (ends_sentence (strip s)) eqn:E; [exact E | apply ends_sentence_period].
Qed.

Lemma lstrip_chars_suffix (chars s : str) :
  exists l, s = l ++ lstrip_chars chars s
            /\ Forall (fun c => existsb (eqb_char c) chars = true) l.
Proof.
  induction s as [|c s IH]; simpl.
  - exists []. auto.
  - destruct (existsb (eqb_char c) chars) eqn:E.
    + destruct IH as [l [Hl Hf]]. exists (c :: l). split.
      * simpl. now rewrite <- Hl.
      * constructor; assumption.
    + exists []. auto.
Qed.

Lemma rstrip_chars_prefix (chars s : str) :
  exists r, s = rstrip_chars chars s ++ r
            /\ Forall (fun c => existsb (eqb_char c) chars = true) r.
Proof.
  unfold rstrip_chars.
  destruct (lstrip_chars_suffix chars (rev s)) as [l [Hl Hf]].
  exists (rev l). split.
  - rewrite <- rev_app_distr, <- Hl. now rewrite rev_involutive.
  - apply Forall_rev. exact Hf.
Qed.

Lemma bullets_from_all (sentences : list str) (count : nat) :
  forall idxs seen made,
    NoDup idxs ->
    (forall i, In i idxs -> i < length sentences /\ ~ In i seen) ->
    made + length idxs <= count ->
    TextSummary.bullets_from sentences count seen made idxs
    = map (fun idx => TextSummary.bullet_point (getitem sentences idx)) idxs.
Proof.
  induction idxs as [|idx rest IH]; intros seen made Hnd Hin Hcount; [reflexivity|].
  simpl in *.
  destruct (Hin idx (or_introl eq_refl)) as [Hlt Hseen].
  assert (Hex : existsb (Nat.eqb idx) seen = false).
  { destruct (existsb (Nat.eqb idx) seen) eqn:E; [|reflexivity].
    apply existsb_exists in E. destruct E as [x [Hx Heq]].
    apply Nat.eqb_eq in Heq. subst x. contradiction. }
  rewrite Hex. simpl.
  destruct (length sentences <=? idx) eqn:E; [apply Nat.leb_le in E; lia|].
  f_equal.
  destruct (count <=? S made) eqn:E2.
  - apply Nat.leb_le in E2. destruct rest; [reflexivity | simpl in Hcount; lia].
  - apply Nat.leb_gt in E2. inversion Hnd as [|? ? Hni Hnd']; subst.
    apply IH; [assumption | | lia].
    intros i Hi. destruct (Hin i (or_intror Hi)) as [Hl Hs]. split; [exact Hl|].
    intros [->|Hs']; [contradiction | contradiction].
Qed.

Lemma lt_sorted_NoDup (l : list nat) : StronglySorted lt l -> NoDup l.
Proof.
  induction 1 as [|a l Hs IH Hf]; constructor; [|exact IH].
  intro Hin. rewrite Forall_forall in Hf. specialize (Hf _ Hin). lia.
Qed.

(** With a score table over the positions every index passes the guards of
    the loop, and the cap is reached with the last one. *)
Lemma bullet_points_selected (scores : list (nat * Q)) (sentences : list str)
    (count : nat) :
  total_table scores (length sentences) ->
  TextSummary.bullet_points_of_scores scores sentences count
  = map (fun idx => TextSummary.bullet_point (getitem sentences idx))
      (DocumentSummary.selected_idx scores
         (Nat.min count (Nat.max 1 (length sentences)))).
Proof.
  intro Htable. unfold TextSummary.bullet_points_of_scores.
  set (n := length sentences) in *.
  set (capped := Nat.min count (Nat.max 1 n)).
  apply bullets_from_all.
  - apply lt_sorted_NoDup.
    apply (DocumentFacts.selected_reading_order _ _ Htable sentences). reflexivity.
  - intros i Hi. split; [|intros []].
    destruct (DocumentFacts.selected_reading_order _ _ Htable sentences capped
                eq_refl) as [_ Hb].
    rewrite Forall_forall in Hb. exact (Hb i Hi).
  - rewrite (DocumentFacts.selected_length _ _ Htable). simpl. lia.
Qed.

Lemma bullet_points_length (scores : list (nat * Q)) (sentences : list str)
    (count : nat) :
  total_table scores (length sentences) ->
  length (TextSummary.bullet_points_of_scores scores sentences count)
  = Nat.min count (length sentences).
Proof.
  intro Htable.
  rewrite (bullet_points_selected _ _ _ Htable), length_map,
    (DocumentFacts.selected_length _ _ Htable).
  lia.
Qed.

End PointFacts.

(** X1 (key points of a document).  For every score table over the [n]
    sentences, which is what the scorer returns, [generate_key_points]
    returns [min(count, n)] points.  Every point ends with a period, an
    exclamation mark or a question mark.  The points are the trimmed
    sentences at positions taken in reading order, a period being added to
    exactly those that lack an end mark.  The positions are the best scored
    ones: when a sentence is among the points, so is every sentence that
    ranks before it (a higher score, or the same score and an earlier
    position). *)
Theorem key_points_complete :
  forall (scores : list (nat * Q)) (sentences : list str) (count : nat),
    total_table scores (length sentences) ->
    let points := DocumentSummary.key_points_of_scores scores sentences count in
    length points = Nat.min count (length sentences)
    /\ Forall (fun point => ends_sentence point = true) points
    /\ (exists idxs,
          reading_order sentences idxs
          /\ points
             = map (fun idx => DocumentSummary.key_point (getitem sentences idx)) idxs
          /\ forall p q, In p scores -> In q scores -> ranks p q ->
                         In (fst q) idxs -> In (fst p) idxs)
    /\ (forall sentence,
          let sent := strip sentence in
          DocumentSummary.key_point sentence
          = if ends_sentence sent then sent else sent ++ lit ".")
    /\ (forall (sk : Sklearn) (text : str),
          let table := DocumentSummary.calculate_sentence_importance sk sentences text in
          total_table table (length sentences)
          /\ DocumentSummary.generate_key_points sk sentences text count
             = DocumentSummary.key_points_of_scores table sentences count).
Proof.
  intros scores sentences count Htable points.
  unfold points, DocumentSummary.key_points_of_scores.
  split; [|split; [|split; [|split]]].
  - rewrite length_map. apply (DocumentFacts.selected_length _ _ Htable).
  - apply Forall_forall. intros point Hin. apply in_map_iff in Hin.
    destruct Hin as [idx [<- _]]. apply PointFacts.key_point_complete.
  - exists (DocumentSummary.selected_idx scores count).
    split; [|split; [reflexivity|]].
    + apply (DocumentFacts.selected_reading_order _ _ Htable). reflexivity.
    + intros p q Hp Hq Hr Hin.
      exact (DocumentFacts.selected_priority _ _ Htable count p q Hp Hq Hr Hin).
  - reflexivity.
  - intros sk text. split; [|reflexivity].
    apply ScorerFacts.doc_scores_total.
Qed.

(** The fallback table of three sentences and two points. *)
Lemma key_points_complete_witness :
  total_table (uniform_scores 3) (length Examples.three_sentences)
  /\ length (DocumentSummary.key_points_of_scores
               (uniform_scores 3) Examples.three_sentences 2) = 2.
Proof.
  assert (H : total_table (uniform_scores 3) (length Examples.three_sentences))
    by reflexivity.
  split; [exact H|].
  exact (proj1 (key_points_complete (uniform_scores 3)
                  Examples.three_sentences 2 H)).
Defined.

(** X2 (bullet points of a text).  For every score table over the [n]
    sentences, which is what the scorer returns,
    [generate_complete_bullet_points] returns [min(count, n)] points, all of
    which end with a period, an exclamation mark or a question mark.  They
    are built from the sentences at the best scored positions, in reading
    order; none of the guards of the loop ([idx in seen], the range check)
    ever skips a position.  A point is the trimmed sentence itself, or the
    trimmed sentence without a tail of blanks, commas, semicolons and
    colons, followed by a period: nothing else is cut. *)
Theorem bullet_points_complete :
  forall (scores : list (nat * Q)) (sentences : list str) (count : nat),
    total_table scores (length sentences) ->
    let points := TextSummary.bullet_points_of_scores scores sentences count in
    length points = Nat.min count (length sentences)
    /\ Forall (fun point => ends_sentence point = true) points
    /\ (exists idxs,
          reading_order sentences idxs
          /\ points
             = map (fun idx => TextSummary.bullet_point (getitem sentences idx)) idxs
          /\ forall p q, In p scores -> In q scores -> ranks p q ->
                         In (fst q) idxs -> In (fst p) idxs)
    /\ (forall sentence,
          TextSummary.bullet_point sentence = strip sentence
          \/ exists kept dropped,
               strip sentence = kept ++ dropped
               /\ Forall (fun c => In c [" "; ","; ";"; ":"]) dropped
               /\ TextSummary.bullet_point sentence = kept ++ lit ".")
    /\ (forall (sk : Sklearn) (text : str),
          let table := TextSummary.calculate_advanced_scores sk sentences text in
          total_table table (length sentences)
          /\ TextSummary.generate_complete_bullet_points sk sentences text count
             = TextSummary.bullet_points_of_scores table sentences count).
Proof.
  intros scores sentences count Htable points.
  set (capped := Nat.min count (Nat.max 1 (length sentences))).
  assert (Hpoints :
    points = map (fun idx => TextSummary.bullet_point (getitem sentences idx))
               (DocumentSummary.selected_idx scores capped)).
  { exact (PointFacts.bullet_points_selected scores sentences count Htable). }
  split; [|split; [|split; [|split]]].
  - exact (PointFacts.bullet_points_length scores sentences count Htable).
  - rewrite Hpoints. apply Forall_forall. intros point Hin. apply in_map_iff in Hin.
    destruct Hin as [idx [<- _]]. apply PointFacts.bullet_point_complete.
  - exists (DocumentSummary.selected_idx scores capped).
    split; [|split; [exact Hpoints|]].
    + apply (DocumentFacts.selected_reading_order _ _ Htable). reflexivity.
    + intros p q Hp Hq Hr Hin.
      exact (DocumentFacts.selected_priority _ _ Htable capped p q Hp Hq Hr Hin).
  - intro sentence. unfold TextSummary.bullet_point.
    destruct (ends_sentence (strip sentence)); [now left | right].
    destruct (PointFacts.rstrip_chars_prefix (lit " ,;:") (strip sentence))
      as [r [Hr Hf]].
    exists (rstrip_chars (lit " ,;:") (strip sentence)), r.
    split; [exact Hr | split; [|reflexivity]].
    eapply Forall_impl; [|exact Hf]. intros c Hc.
    apply existsb_exists in Hc. destruct Hc as [x [Hx Heq]].
    apply Facts.eqb_char_eq in Heq. subst x. exact Hx.
  - intros sk text. cbv zeta. split; [|reflexivity].
    apply ScorerFacts.text_scores_total.
Qed.

(** The fallback table of three sentences and two points. *)
Lemma bullet_points_complete_witness :
  total_table (uniform_scores 3) (length Examples.three_sentences)
  /\ length (TextSummary.bullet_points_of_scores
               (uniform_scores 3) Examples.three_sentences 2) = 2.
Proof.
  assert (H : total_table (uniform_scores 3) (length Examples.three_sentences))
    by reflexivity.
  split; [exact H|].
  exact (proj1 (bullet_points_complete (uniform_scores 3)
                  Examples.three_sentences 2 H)).
Defined.

(** X3 (number of key points in a response).  Both handlers go on only with
    three sentences or more.  The text service then returns exactly
    [min(7, max(3, n // 3))] key points, which is between 3 and 7 (the cap
    [min(count, max(1, n))] of the generator never bites); the document
    service returns [min(6, n)]. *)
Theorem response_key_points_count :
  forall (sk : Sklearn) (clean_text : str) (sentences : list str),
    3 <= length sentences ->
    length (TextSummary.response_key_points sk clean_text sentences)
    = TextSummary.bullet_count (length sentences)
    /\ 3 <= TextSummary.bullet_count (length sentences) <= 7
    /\ length (DocumentSummary.generate_key_points sk sentences clean_text 6)
       = Nat.min 6 (length sentences).
Proof.
  intros sk clean_text sentences Hn.
  pose proof (ScorerFacts.text_scores_total sk sentences clean_text) as Htable.
  pose proof (ScorerFacts.doc_scores_total sk sentences clean_text) as Hdoc.
  assert (Hband : 3 <= TextSummary.bullet_count (length sentences) <= 7).
  { unfold TextSummary.bullet_count. lia. }
  assert (Hle : TextSummary.bullet_count (length sentences) <= length sentences).
  { unfold TextSummary.bullet_count.
    pose proof (Nat.Div0.div_le_upper_bound (length sentences) 3 (length sentences)).
    lia. }
  split; [|split; [exact Hband|]].
  - unfold TextSummary.response_key_points,
      TextSummary.generate_complete_bullet_points.
    rewrite (PointFacts.bullet_points_length _ _ _ Htable). lia.
  - unfold DocumentSummary.generate_key_points, DocumentSummary.key_points_of_scores.
    rewrite length_map. apply (DocumentFacts.selected_length _ _ Hdoc).
Qed.

(** Three sentences: three key points. *)
Lemma response_key_points_count_witness :
  3 <= length Examples.three_sentences
  /\ length (TextSummary.response_key_points Examples.sklearn_missing []
               Examples.three_sentences) = 3.
Proof.
  split; [simpl; lia|].
  exact (proj1 (response_key_points_count Examples.sklearn_missing []
                  Examples.three_sentences ltac:(simpl; lia))).
Defined.

Module AssemblyFacts.

(** *** Chunks *)

Lemma chunks_from_concat {A} (size : nat) (l : list A) :
  forall room cur, concat (chunks_from size room cur l) = rev cur ++ l.
Proof.
  induction l as [|x l IH]; intros room cur; simpl.
  - destruct cur; simpl; [reflexivity | now rewrite !app_nil_r].
  - destruct room as [|[|r]]; simpl; rewrite IH; simpl;
      now rewrite <- ?app_assoc.
Qed.

Lemma chunks_from_sizes {A} (size : nat) (l : list A) :
  forall room cur,
    1 <= room -> room + length cur = size ->
    Forall (fun c => 1 <= length c <= size) (chunks_from size room cur l).
Proof.
  induction l as [|x l IH]; intros room cur Hroom Hsize; simpl.
  - destruct cur as [|y cur]; constructor; [|constructor].
    rewrite length_rev. simpl in *. lia.
  - destruct room as [|[|r]]; [lia | |].
    + constructor.
      * rewrite length_app, length_rev. simpl. lia.
      * apply IH; simpl; lia.
    + apply IH; simpl; lia.
Qed.

Lemma chunks_from_length {A} (size : nat) (l : list A) :
  forall room cur,
    1 <= room -> room + length cur = size ->
    length (chunks_from size room cur l)
    = (length cur + length l + size - 1) / size.
Proof.
  induction l as [|x l IH]; intros room cur Hroom Hsize.
  - destruct cur as [|y cur].
    + symmetry. apply Nat.div_small. simpl. lia.
    + cbn [chunks_from length].
      apply (Nat.div_unique _ size 1 (length cur)); simpl in *; lia.
  - cbn [chunks_from]. destruct room as [|[|r]]; [lia | |].
    + cbn [length]. rewrite IH by (simpl; lia).
      cbn [length].
      pose proof (Nat.div_mod_eq (0 + length l + size - 1) size) as Hd.
      pose proof (Nat.mod_upper_bound (0 + length l + size - 1) size
                    ltac:(lia)) as Hm.
      apply (Nat.div_unique _ size _
               ((0 + length l + size - 1) mod size)); [exact Hm|].
      lia.
    + rewrite IH by (simpl; lia). cbn [length]. f_equal. lia.
Qed.

(** *** Sorted lists of positions *)

Lemma lt_sorted_unique (l1 : list nat) :
  forall l2,
    StronglySorted lt l1 -> StronglySorted lt l2 ->
    (forall x, In x l1 <-> In x l2) -> l1 = l2.
Proof.
  induction l1 as [|a l1 IH]; intros l2 H1 H2 Hin.
  - destruct l2 as [|b l2]; [reflexivity|].
    destruct (proj2 (Hin b) (or_introl eq_refl)).
  - destruct l2 as [|b l2]; [destruct (proj1 (Hin a) (or_introl eq_refl))|].
    apply StronglySorted_inv in H1. destruct H1 as [H1 Ha].
    apply StronglySorted_inv in H2. destruct H2 as [H2 Hb].
    rewrite Forall_forall in Ha, Hb.
    assert (a = b).
    { destruct (proj1 (Hin a) (or_introl eq_refl)) as [E|E]; [now symmetry|].
      destruct (proj2 (Hin b) (or_introl eq_refl)) as [E'|E']; [exact E'|].
      specialize (Ha _ E'). specialize (Hb _ E). lia. }
    subst b. f_equal. apply IH; [assumption | assumption |].
    intro x. split; intro Hx.
    + destruct (proj1 (Hin x) (or_intror Hx)) as [E|E]; [|exact E].
      specialize (Ha _ Hx). lia.
    + destruct (proj2 (Hin x) (or_intror Hx)) as [E|E]; [|exact E].
      specialize (Hb _ Hx). lia.
Qed.

Lemma getitem_all (l : list str) : map (getitem l) (seq 0 (length l)) = l.
Proof.
  induction l as [|x l IH]; [reflexivity|].
  simpl. f_equal. rewrite <- seq_shift, map_map. exact IH.
Qed.

(** A target that covers the table selects every position. *)
Lemma selected_all (scores : list (nat * Q)) (n target : nat) :
  total_table scores n -> n <= target ->
  DocumentSummary.selected_idx scores target = seq 0 n.
Proof.
  intros Htable Hle.
  apply lt_sorted_unique.
  - apply Facts.sorted_lt. exact (Facts.top_keys_NoDup scores n target Htable).
  - apply Facts.seq_increasing.
  - intro x. unfold DocumentSummary.selected_idx, slice_to.
    rewrite Facts.sorted_In.
    rewrite firstn_all2
      by (rewrite Facts.sorted_desc_length, (Facts.total_table_length _ _ Htable);
          exact Hle).
    rewrite <- Htable.
    split; intro H.
    + eapply Permutation_in; [|exact H].
      apply Permutation_map, Facts.sorted_desc_perm.
    + eapply Permutation_in; [|exact H].
      apply Permutation_map, Permutation_sym, Facts.sorted_desc_perm.
Qed.

Lemma firstn_le_incl {A} (n m : nat) (l : list A) :
  n <= m -> incl (firstn n l) (firstn m l).
Proof.
  intros Hle x Hx.
  replace n with (Nat.min n m) in Hx by lia.
  rewrite <- firstn_firstn in Hx. exact (Facts.firstn_In _ _ _ Hx).
Qed.

(** *** [split] of joined sentences *)

Lemma split_from_space (a : str) :
  forall cur w b,
    isspace w = true ->
    split_from cur (a ++ w :: b) = split_from cur a ++ split_from [] b.
Proof.
  induction a as [|c a IH]; intros cur w b Hw; simpl.
  - rewrite Hw. destruct cur; reflexivity.
  - destruct (isspace c).
    + destruct cur; simpl; now rewrite IH.
    + now apply IH.
Qed.

Lemma split_lstrip (ws b : str) :
  forallb isspace ws = true -> split_from [] (ws ++ b) = split_from [] b.
Proof.
  induction ws as [|w ws IH]; intro H; simpl in *; [reflexivity|].
  apply andb_prop in H. destruct H as [Hw Hws]. rewrite Hw. now apply IH.
Qed.

Lemma split_join (sep : str) (l : list str) :
  sep <> [] -> forallb isspace sep = true ->
  split (join sep l) = concat (map split l).
Proof.
  intros Hne Hsep. unfold split.
  induction l as [|x l IH]; [reflexivity|].
  destruct l as [|y l].
  - simpl. now rewrite app_nil_r.
  - change (join sep (x :: y :: l)) with (x ++ sep ++ join sep (y :: l)).
    destruct sep as [|w sep]; [contradiction|].
    simpl in Hsep. apply andb_prop in Hsep. destruct Hsep as [Hw Hws].
    change ((w :: sep) ++ join (w :: sep) (y :: l))
      with (w :: (sep ++ join (w :: sep) (y :: l))).
    rewrite split_from_space by exact Hw.
    rewrite split_lstrip by exact Hws.
    rewrite IH. reflexivity.
Qed.

Lemma length_concat_sum {A} (l : list (list A)) :
  length (concat l) = list_sum (map (@length A) l).
Proof.
  induction l as [|x l IH]; simpl; [reflexivity|].
  now rewrite length_app, IH.
Qed.

Lemma concat_flat {A B} (f : A -> list B) (l : list (list A)) :
  concat (map (fun p => concat (map f p)) l) = concat (map f (concat l)).
Proof.
  induction l as [|p l IH]; simpl; [reflexivity|].
  now rewrite map_app, concat_app, IH.
Qed.

(** The words of an assembled summary. *)
Lemma paragraphs_words (selected : list str) :
  length (split (join ["010"; "010"] (map (join (lit " ")) (chunks 4 selected))))
  = list_sum (map (fun sentence => length (split sentence)) selected).
Proof.
  rewrite split_join by (discriminate || reflexivity).
  rewrite map_map.
  rewrite (map_ext _ (fun p => concat (map split p)))
    by (intro p; apply split_join; discriminate || reflexivity).
  rewrite concat_flat. unfold chunks. rewrite chunks_from_concat. cbn [rev app].
  rewrite length_concat_sum. now rewrite map_map.
Qed.

Lemma joined_words (selected : list str) :
  length (split (join (lit " ") selected))
  = list_sum (map (fun sentence => length (split sentence)) selected).
Proof.
  rewrite split_join by (discriminate || reflexivity).
  rewrite length_concat_sum. now rewrite map_map.
Qed.

End AssemblyFacts.

Lemma target_count_floor (level : str) (total : nat) :
  4 <= DocumentSummary.target_count level total.
Proof.
  unfold DocumentSummary.target_count.
  destruct (Py.eqb level (lit "brief")); [|destruct (Py.eqb level (lit "comprehensive"))].
  - apply Nat.le_max_l.
  - etransitivity; [|apply Nat.le_max_l]. lia.
  - etransitivity; [|apply Nat.le_max_l]. lia.
Qed.

Lemma main_count_floor (level : str) (total : nat) :
  3 <= TextSummary.main_count level total.
Proof.
  unfold TextSummary.main_count.
  etransitivity; [|apply Nat.le_max_l].
  unfold TextSummary.config_of, TextSummary.level_configs. cbn [dict_get_str].
  destruct (Py.eqb (lit "brief") level); [simpl; lia|].
  destruct (Py.eqb (lit "detailed") level); [simpl; lia|].
  destruct (Py.eqb (lit "comprehensive") level); simpl; lia.
Qed.

(** X4 (paragraphs of the document summary).  The main summary is the
    selected sentences cut into paragraphs: the paragraphs joined by blank
    lines, each the join of its sentences by a blank; put end to end they
    are the selected sentences, in order and without loss; every paragraph
    has between one and four sentences; and there are
    [ceil(selected_count / 4)] of them. *)
Theorem paragraphs_of_four :
  forall (sk : Sklearn) (sentences : list str) (text level : str),
    let scores := DocumentSummary.calculate_sentence_importance sk sentences text in
    let target := DocumentSummary.target_count level (length sentences) in
    let selected :=
      map (getitem sentences) (DocumentSummary.selected_idx scores target) in
    let result :=
      DocumentSummary.generate_professional_summary sk sentences text level in
    exists paragraphs,
      DocumentSummary.main_summary result
      = join ["010"; "010"] (map (join (lit " ")) paragraphs)
      /\ concat paragraphs = selected
      /\ Forall (fun paragraph => 1 <= length paragraph <= 4) paragraphs
      /\ length paragraphs = (DocumentSummary.selected_count result + 3) / 4.
Proof.
  intros sk sentences text level scores target selected result.
  exists (chunks 4 selected).
  split; [reflexivity|]. split; [|split].
  - unfold chunks. now rewrite AssemblyFacts.chunks_from_concat.
  - unfold chunks. apply AssemblyFacts.chunks_from_sizes; simpl; lia.
  - unfold chunks. rewrite AssemblyFacts.chunks_from_length by (simpl; lia).
    unfold result, DocumentSummary.generate_professional_summary,
      DocumentSummary.summary_of_scores.
    cbn [DocumentSummary.selected_count length]. fold scores target selected.
    f_equal. lia.
Qed.

(** X5 (a short document is returned whole).  When a document has no more
    sentences than the target of the level, the main summary holds all its
    sentences, in their order, in paragraphs of four, whatever the scores
    are.  The target is at least 4 at every level, so this holds for every
    document of up to four sentences. *)
Theorem short_document_returned_whole :
  forall (sk : Sklearn) (sentences : list str) (text level : str),
    length sentences <= DocumentSummary.target_count level (length sentences) ->
    let result :=
      DocumentSummary.generate_professional_summary sk sentences text level in
    DocumentSummary.main_summary result
    = join ["010"; "010"] (map (join (lit " ")) (chunks 4 sentences))
    /\ DocumentSummary.selected_count result = length sentences
    /\ 4 <= DocumentSummary.target_count level (length sentences).
Proof.
  intros sk sentences text level Hle result.
  pose proof (ScorerFacts.doc_scores_total sk sentences text) as Htable.
  unfold result, DocumentSummary.generate_professional_summary,
    DocumentSummary.summary_of_scores.
  cbn [DocumentSummary.main_summary DocumentSummary.selected_count].
  rewrite (AssemblyFacts.selected_all _ _ _ Htable Hle).
  rewrite AssemblyFacts.getitem_all.
  split; [reflexivity | split; [reflexivity | apply target_count_floor]].
Qed.

(** Three sentences at level brief, whose target is 4. *)
Lemma short_document_returned_whole_witness :
  length Examples.three_sentences
  <= DocumentSummary.target_count (lit "brief") (length Examples.three_sentences)
  /\ DocumentSummary.main_summary
       (DocumentSummary.generate_professional_summary
          Examples.sklearn_rising Examples.three_sentences [] (lit "brief"))
     = join ["010"; "010"]
         (map (join (lit " ")) (chunks 4 Examples.three_sentences)).
Proof.
  assert (H : length Examples.three_sentences
              <= DocumentSummary.target_count (lit "brief")
                   (length Examples.three_sentences))
    by (vm_compute; lia).
  split; [exact H|].
  exact (proj1 (short_document_returned_whole Examples.sklearn_rising
                  Examples.three_sentences [] (lit "brief") H)).
Defined.

(** X6 (a short text is returned whole).  When the target count is at least
    the number of sentences, the main summary of the text service is all the
    sentences joined by blanks, in their order: on the ensemble path
    whatever the summarizers vote, and on the fallback path whatever the
    scores are. *)
Theorem short_text_returned_whole :
  forall (sk : Sklearn) (sumy : TextSummary.Sumy)
         (sentences : list str) (text : str) (target_count : nat),
    length sentences <= target_count ->
    TextSummary.ensemble_sentences sk sumy text sentences target_count = sentences
    /\ TextSummary.generate_ensemble_summary sk sumy text sentences target_count
       = join (lit " ") sentences.
Proof.
  intros sk sumy sentences text target_count Hle.
  assert (H : TextSummary.ensemble_sentences sk sumy text sentences target_count
              = sentences).
  { unfold TextSummary.ensemble_sentences.
    pose proof (ScorerFacts.text_scores_total sk sentences text) as Htable.
    set (custom := TextSummary.calculate_advanced_scores sk sentences text) in *.
    destruct (TextSummary.sumy_parse sumy text) as [doc|].
    - set (votes := TextSummary.sentence_votes sumy doc target_count).
      destruct target_count as [|t].
      { destruct sentences; [reflexivity | simpl in Hle; lia]. }
      unfold TextSummary.ordered_summary.
      rewrite TextFacts.ordered_from_spec by lia. rewrite Nat.sub_0_r.
      destruct (TextFacts.selected_keys votes custom sentences (S t))
        as [_ [_ [_ Hall]]].
      destruct (TextFacts.combined_keys votes custom sentences) as [Hknd Hkin].
      assert (Hk : length (map fst (TextSummary.combined_scores votes custom sentences))
                   <= length sentences).
      { apply NoDup_incl_length; [exact Hknd|]. intros x Hx. apply Hkin, Hx. }
      rewrite forallb_filter_id.
      + apply firstn_all2. exact Hle.
      + apply forallb_forall. intros x Hx. apply Facts.mem_In.
        apply Hall; [lia | exact Hx].
    - unfold TextSummary.fallback_indices.
      change (sorted (map fst (slice_to target_count (sorted_by_value_desc custom))))
        with (DocumentSummary.selected_idx custom target_count).
      rewrite (AssemblyFacts.selected_all _ _ _ Htable Hle).
      apply AssemblyFacts.getitem_all. }
  split; [exact H|].
  unfold TextSummary.generate_ensemble_summary. now rewrite H.
Qed.

(** Three sentences at level brief, whose count is 3, with a sumy that
    votes for the leading sentences. *)
Lemma short_text_returned_whole_witness :
  length Examples.three_sentences <= TextSummary.main_count (lit "brief") 3
  /\ TextSummary.generate_ensemble_summary
       Examples.sklearn_rising (Examples.sumy_first Examples.three_sentences)
       Examples.short_text Examples.three_sentences
       (TextSummary.main_count (lit "brief") 3)
     = Examples.short_text.
Proof.
  assert (H : length Examples.three_sentences
              <= TextSummary.main_count (lit "brief") 3)
    by (vm_compute; lia).
  split; [exact H|].
  exact (proj2 (short_text_returned_whole Examples.sklearn_rising
                  (Examples.sumy_first Examples.three_sentences)
                  Examples.three_sentences Examples.short_text
                  (TextSummary.main_count (lit "brief") 3) H)).
Defined.

(** X7 (the selections of a document are nested).  Whatever the scores, the
    two sentences of the executive summary are among the sentences selected
    for the main summary, at every level: both are prefixes of the same
    ranking, and every target is at least 4.  More generally a larger
    target only adds sentences to the selection, so the key points
    (target 6) and the main summary contain one another. *)
Theorem executive_within_summary :
  forall (sk : Sklearn) (sentences : list str) (text level : str),
    let target := DocumentSummary.target_count level (length sentences) in
    (forall scores : list (nat * Q),
       incl (DocumentSummary.exec_idx scores)
            (DocumentSummary.selected_idx scores target)
       /\ forall smaller larger,
            smaller <= larger ->
            incl (DocumentSummary.selected_idx scores smaller)
                 (DocumentSummary.selected_idx scores larger))
    /\ (let scores := DocumentSummary.calculate_sentence_importance sk sentences text in
        let result :=
          DocumentSummary.generate_professional_summary sk sentences text level in
        DocumentSummary.executive result
        = join (lit " ") (map (getitem sentences) (DocumentSummary.exec_idx scores))
        /\ DocumentSummary.selected_count result
           = length (DocumentSummary.selected_idx scores target)).
Proof.
  intros sk sentences text level target.
  assert (Hnested : forall (scores : list (nat * Q)) smaller larger,
            smaller <= larger ->
            incl (DocumentSummary.selected_idx scores smaller)
                 (DocumentSummary.selected_idx scores larger)).
  { intros scores smaller larger Hle i Hi. unfold DocumentSummary.selected_idx in *.
    apply Facts.sorted_In. apply (proj1 (Facts.sorted_In _ _)) in Hi.
    apply in_map_iff in Hi. destruct Hi as [p [<- Hp]].
    apply in_map. unfold slice_to in *.
    exact (AssemblyFacts.firstn_le_incl smaller larger _ Hle p Hp). }
  split.
  - intro scores. split; [|exact (Hnested scores)].
    change (DocumentSummary.exec_idx scores)
      with (DocumentSummary.selected_idx scores 2).
    apply Hnested.
    pose proof (target_count_floor level (length sentences)). unfold target. lia.
  - cbv zeta. split; [reflexivity|].
    unfold DocumentSummary.generate_professional_summary,
      DocumentSummary.summary_of_scores.
    cbn [DocumentSummary.selected_count]. now rewrite length_map.
Qed.

(** X8 (words of a summary).  The word count of a main summary, as the
    handlers compute it with [split], is the sum of the word counts of the
    sentences it was assembled from: neither the blanks between sentences
    nor the blank lines between paragraphs merge or split a word. *)
Theorem summary_words_add_up :
  forall (sk : Sklearn) (sumy : TextSummary.Sumy)
         (sentences : list str) (text level : str) (target_count : nat),
    let words := fun sentence : str => length (split sentence) in
    let scores := DocumentSummary.calculate_sentence_importance sk sentences text in
    let target := DocumentSummary.target_count level (length sentences) in
    length (split (DocumentSummary.main_summary
                     (DocumentSummary.generate_professional_summary
                        sk sentences text level)))
    = list_sum (map (fun idx => words (getitem sentences idx))
                  (DocumentSummary.selected_idx scores target))
    /\ length (split (TextSummary.generate_ensemble_summary
                        sk sumy text sentences target_count))
       = list_sum (map words
                     (TextSummary.ensemble_sentences
                        sk sumy text sentences target_count)).
Proof.
  intros sk sumy sentences text level target_count words scores target.
  split.
  - unfold DocumentSummary.generate_professional_summary,
      DocumentSummary.summary_of_scores.
    cbn [DocumentSummary.main_summary]. fold scores target.
    rewrite AssemblyFacts.paragraphs_words. now rewrite map_map.
  - unfold TextSummary.generate_ensemble_summary.
    apply AssemblyFacts.joined_words.
Qed.

Module TopicFacts.

Lemma lower_char_idem (c : ascii) : lower_char (lower_char c) = lower_char c.
Proof.
  destruct c as [b0 b1 b2 b3 b4 b5 b6 b7].
  destruct b0, b1, b2, b3, b4, b5, b6, b7; reflexivity.
Qed.

Lemma lower_idem (s : str) : lower (lower s) = lower s.
Proof.
  unfold lower. rewrite map_map. apply map_ext. exact lower_char_idem.
Qed.

Lemma filter_length_mono {A} (f g : A -> bool) (l : list A) :
  (forall x, In x l -> f x = true -> g x = true) ->
  length (filter f l) <= length (filter g l).
Proof.
  induction l as [|x l IH]; intro H; simpl; [lia|].
  assert (IH' := IH (fun y Hy => H y (or_intror Hy))).
  destruct (f x) eqn:Ef.
  - rewrite (H x (or_introl eq_refl) Ef). simpl. lia.
  - destruct (g x); simpl; lia.
Qed.

Lemma technical_count_context (before text after : str) :
  TextSummary.technical_count text
  <= TextSummary.technical_count (before ++ text ++ after).
Proof.
  unfold TextSummary.technical_count. apply filter_length_mono.
  intros keyword _ H. unfold lower. rewrite !map_app.
  apply SegmenterFacts.contains_app_r, SegmenterFacts.contains_app_l. exact H.
Qed.

Lemma technical_count_lower (text : str) :
  TextSummary.technical_count (lower text) = TextSummary.technical_count text.
Proof.
  unfold TextSummary.technical_count. cbv zeta. rewrite lower_idem. reflexivity.
Qed.

Lemma last_n_length {A} (n : nat) (l : list A) :
  0 < n -> length (last_n n l) <= n.
Proof.
  intro Hn. destruct n; [lia|]. unfold last_n. rewrite length_skipn. lia.
Qed.

Lemma last_n_incl {A} (n : nat) (l : list A) : incl (last_n n l) l.
Proof.
  intros x Hx. destruct n; [exact Hx|].
  unfold last_n in Hx.
  rewrite <- (firstn_skipn (length l - S n) l). apply in_or_app. now right.
Qed.

Lemma concepts_of_filter (features : list str) :
  forall concepts,
    DocumentSummary.concepts_of features = Some concepts ->
    concepts
    = filter (fun f => match DocumentSummary.is_concept f with
                       | Some keep => keep
                       | None => false
                       end) features.
Proof.
  induction features as [|f rest IH]; intros concepts H; simpl in *.
  - now injection H as <-.
  - destruct (DocumentSummary.is_concept f) as [keep|]; [|discriminate].
    simpl in H.
    destruct (DocumentSummary.concepts_of rest) as [cs|]; [|discriminate].
    simpl in H. injection H as <-. rewrite (IH cs eq_refl).
    destruct keep; reflexivity.
Qed.

End TopicFacts.

(** X9 (text type).  The number of technical keywords found never goes down
    when text is added before or after: a Technical text stays Technical,
    and only a General text can be part of a General one.  The type does
    not depend on case. *)
Theorem text_type_of_longer_text :
  forall before text after : str,
    TextSummary.technical_count text
    <= TextSummary.technical_count (before ++ text ++ after)
    /\ (TextSummary.detect_text_type text = TextSummary.Technical ->
        TextSummary.detect_text_type (before ++ text ++ after)
        = TextSummary.Technical)
    /\ (TextSummary.detect_text_type (before ++ text ++ after) = TextSummary.General ->
        TextSummary.detect_text_type text = TextSummary.General)
    /\ TextSummary.detect_text_type (lower text) = TextSummary.detect_text_type text.
Proof.
  intros before text after.
  pose proof (TopicFacts.technical_count_context before text after) as Hle.
  split; [exact Hle|].
  unfold TextSummary.detect_text_type.
  set (c := TextSummary.technical_count text) in *.
  set (c' := TextSummary.technical_count (before ++ text ++ after)) in *.
  split; [|split].
  - destruct (5 <=? c) eqn:E5; [|destruct (2 <=? c); discriminate].
    apply Nat.leb_le in E5. intros _.
    destruct (5 <=? c') eqn:E5'; [reflexivity | apply Nat.leb_gt in E5'; lia].
  - destruct (5 <=? c') eqn:E5'; [discriminate|].
    destruct (2 <=? c') eqn:E2'; [discriminate|].
    apply Nat.leb_gt in E5', E2'. intros _.
    destruct (5 <=? c) eqn:E5; [apply Nat.leb_le in E5; lia|].
    destruct (2 <=? c) eqn:E2; [apply Nat.leb_le in E2; lia | reflexivity].
  - rewrite TopicFacts.technical_count_lower. reflexivity.
Qed.

(** X10 (topics).  For [num_topics > 0], [extract_topics] returns at most
    [num_topics] topics, all of them feature names of the vectorizer; it
    returns none with fewer than three sentences, when scikit-learn is
    missing and when the vectorizer raises.  The [topics] field of a
    response, which falls back on three fixed topics, has between one and
    five entries. *)
Theorem topics_bounded :
  forall (ranking : FeatureRanking) (text : str) (num_topics : nat),
    0 < num_topics ->
    let sentences := TextSummary.split_into_sentences text in
    let topics := TextSummary.extract_topics ranking text num_topics in
    length topics <= num_topics
    /\ (length sentences < 3 -> topics = [])
    /\ (ranking_imports ranking = false -> topics = [])
    /\ (ranked_features ranking sentences = None -> topics = [])
    /\ (forall ranked,
          ranked_features ranking sentences = Some ranked -> incl topics ranked)
    /\ 1 <= length (TextSummary.response_topics ranking text) <= 5.
Proof.
  intros ranking text num_topics Hn sentences topics.
  assert (Hshape :
    forall k, TextSummary.extract_topics ranking text k = []
              \/ exists ranked,
                   ranked_features ranking sentences = Some ranked
                   /\ TextSummary.extract_topics ranking text k
                      = rev (last_n k ranked)).
  { intro k. unfold TextSummary.extract_topics, TextSummary.topics_body.
    fold sentences.
    destruct (ranking_imports ranking); cbn [negb try_except]; [|now left].
    destruct (length sentences <? 3); cbn [try_except]; [now left|].
    destruct (ranked_features ranking sentences) as [ranked|];
      cbn [try_except bind]; [|now left].
    right. exists ranked. split; reflexivity. }
  assert (Hlen : forall k, 0 < k ->
                 length (TextSummary.extract_topics ranking text k) <= k).
  { intros k Hk. destruct (Hshape k) as [-> | [ranked [_ ->]]]; [cbn [length]; lia|].
    rewrite length_rev. now apply TopicFacts.last_n_length. }
  split; [now apply Hlen|]. split; [|split; [|split; [|split]]].
  - intro Hfew. unfold topics, TextSummary.extract_topics, TextSummary.topics_body.
    fold sentences. apply Nat.ltb_lt in Hfew. rewrite Hfew.
    destruct (ranking_imports ranking); reflexivity.
  - intro Himp. unfold topics, TextSummary.extract_topics, TextSummary.topics_body.
    now rewrite Himp.
  - intro Hnone. destruct (Hshape num_topics) as [H | [ranked [H _]]]; [exact H|].
    rewrite Hnone in H. discriminate.
  - intros ranked Hranked. destruct (Hshape num_topics) as [H | [ranked' [H H']]].
    + unfold topics. rewrite H. intros x [].
    + rewrite Hranked in H. injection H as <-. unfold topics. rewrite H'.
      intros x Hx. apply in_rev in Hx. exact (TopicFacts.last_n_incl _ _ _ Hx).
  - unfold TextSummary.response_topics.
    pose proof (Hlen 5 ltac:(lia)) as H5.
    destruct (TextSummary.extract_topics ranking text 5); cbn [length] in *;
      [vm_compute; lia | lia].
Qed.

(** A ranking that returns the sentences as features. *)
Lemma topics_bounded_witness :
  0 < 5
  /\ 1 <= length (TextSummary.response_topics
                    {| ranking_imports := true;
                       ranked_features := fun sentences => Some sentences |}
                    Examples.short_text) <= 5.
Proof.
  split; [lia|].
  exact (proj2 (proj2 (proj2 (proj2 (proj2
           (topics_bounded
              {| ranking_imports := true;
                 ranked_features := fun sentences => Some sentences |}
              Examples.short_text 5 ltac:(lia))))))).
Defined.

(** X11 (key concepts).  [extract_key_concepts] returns at most six
    concepts; each has more than one word or starts with an upper-case
    letter; all are among the ten features of highest weight.  It returns
    none with fewer than three sentences, when scikit-learn is missing and
    when the vectorizer raises. *)
Theorem key_concepts_bounded :
  forall (ranking : FeatureRanking) (text : str) (sentences : list str),
    let concepts := DocumentSummary.extract_key_concepts ranking text sentences in
    length concepts <= 6
    /\ Forall (fun concept =>
                 1 < length (split concept)
                 \/ exists first rest,
                      concept = first :: rest /\ isupper first = true)
              concepts
    /\ (forall ranked,
          ranked_features ranking sentences = Some ranked ->
          incl concepts (last_n 10 ranked))
    /\ (length sentences < 3 -> concepts = [])
    /\ (ranking_imports ranking = false -> concepts = [])
    /\ (ranked_features ranking sentences = None -> concepts = []).
Proof.
  intros ranking text sentences concepts.
  assert (Hshape :
    concepts = []
    \/ exists ranked kept,
         ranking_imports ranking = true
         /\ 3 <= length sentences
         /\ ranked_features ranking sentences = Some ranked
         /\ DocumentSummary.concepts_of (rev (last_n 10 ranked)) = Some kept
         /\ concepts = slice_to 6 kept).
  { unfold concepts, DocumentSummary.extract_key_concepts,
      DocumentSummary.key_concepts_body.
    destruct (ranking_imports ranking); cbn [negb try_except]; [|now left].
    destruct (length sentences <? 3) eqn:E; cbn [try_except]; [now left|].
    apply Nat.ltb_ge in E.
    destruct (ranked_features ranking sentences) as [ranked|];
      cbn [try_except bind]; [|now left].
    destruct (DocumentSummary.concepts_of (rev (last_n 10 ranked))) as [kept|] eqn:K;
      cbn [try_except bind]; [|now left].
    right. exists ranked, kept. repeat split; assumption. }
  destruct Hshape as [-> | [ranked [kept [Himp [Hn [Hr [Hk ->]]]]]]].
  { repeat split; try (simpl; lia); try constructor; intros; intros x []. }
  apply TopicFacts.concepts_of_filter in Hk.
  split; [unfold slice_to; rewrite length_firstn; lia|].
  split; [|split; [|split; [|split]]].
  - apply Forall_forall. intros concept Hin.
    apply Facts.firstn_In in Hin. rewrite Hk in Hin.
    apply filter_In in Hin. destruct Hin as [_ Hc].
    unfold DocumentSummary.is_concept in Hc.
    destruct (1 <? length (split concept)) eqn:E.
    + left. now apply Nat.ltb_lt in E.
    + right. destruct concept as [|first rest]; [discriminate|].
      exists first, rest. split; [reflexivity | exact Hc].
  - intros ranked' Hr'. rewrite Hr in Hr'. injection Hr' as <-.
    intros x Hx. apply Facts.firstn_In in Hx. rewrite Hk in Hx.
    apply filter_In in Hx. destruct Hx as [Hx _]. now apply in_rev in Hx.
  - lia.
  - rewrite Himp. discriminate.
  - rewrite Hr. discriminate.
Qed.

Module SpacingFacts.

(** *** [\s+] to one blank *)

Lemma spaces_head (prev : option ascii) (c : ascii) (s : str) :
  Patterns.spaces prev (c :: s)
  = if isspace c then Some (S (run isspace s)) else None.
Proof. unfold Patterns.spaces. cbn [run]. now destruct (isspace c). Qed.

Lemma squeeze_spaces (s : str) :
  forall prev,
    single_spaced true
      (sub_from Patterns.spaces (lit " ") (run isspace s) prev s) = true
    /\ single_spaced false (sub_from Patterns.spaces (lit " ") 0 prev s) = true.
Proof.
  induction s as [|c s IH]; intro prev; [split; reflexivity|].
  destruct (IH (Some c)) as [IHa IHb].
  cbn [sub_from run]. rewrite spaces_head.
  destruct (isspace c) eqn:E.
  - split; [exact IHa|].
    change (lit " " ++ ?x) with (" " :: x). cbn [single_spaced].
    change (isspace " ") with true. cbn. exact IHa.
  - split; cbn [single_spaced]; rewrite E; exact IHb.
Qed.

Lemma single_spaced_weaken (s : str) :
  single_spaced true s = true -> single_spaced false s = true.
Proof.
  destruct s as [|c s]; [reflexivity|]. cbn [single_spaced].
  destruct (isspace c); [|auto]. rewrite andb_false_r. discriminate.
Qed.

Lemma single_spaced_blank (b : bool) (c : ascii) (s : str) :
  single_spaced b (c :: s) = true -> isspace c = true ->
  c = " " /\ b = false /\ single_spaced true s = true.
Proof.
  cbn [single_spaced]. intros H E. rewrite E in H.
  apply andb_prop in H. destruct H as [H Hs].
  apply andb_prop in H. destruct H as [Hc Hb].
  apply Facts.eqb_char_eq in Hc. destruct b; [discriminate|]. auto.
Qed.

Lemma single_spaced_blanks (s : str) :
  forall b, single_spaced b s = true ->
            Forall (fun c => isspace c = true -> c = " ") s.
Proof.
  induction s as [|c s IH]; intros b H; constructor.
  - intro E. now destruct (single_spaced_blank b c s H E).
  - cbn [single_spaced] in H. destruct (isspace c).
    + apply andb_prop in H. destruct H as [_ H]. exact (IH _ H).
    + exact (IH _ H).
Qed.

Lemma single_spaced_prefix (s r : str) :
  forall b, single_spaced b (s ++ r) = true -> single_spaced b s = true.
Proof.
  induction s as [|c s IH]; intros b H; [reflexivity|].
  cbn [app single_spaced] in *. destruct (isspace c).
  - apply andb_prop in H. destruct H as [H Hs]. rewrite H. exact (IH _ Hs).
  - exact (IH _ H).
Qed.

(** *** [\n{3,}] finds nothing in a single-spaced text *)

Lemma newlines_unchanged (repl s : str) :
  forall b prev,
    single_spaced b s = true -> sub_from Patterns.newlines3 repl 0 prev s = s.
Proof.
  induction s as [|c s IH]; intros b prev H; [reflexivity|].
  cbn [sub_from].
  assert (Hm : Patterns.newlines3 prev (c :: s)
               = if eqb_char "010" c
                 then (if 3 <=? S (run (eqb_char "010") s)
                       then Some (S (run (eqb_char "010") s)) else None)
                 else None).
  { unfold Patterns.newlines3. cbn [run]. now destruct (eqb_char "010" c). }
  rewrite Hm. clear Hm.
  destruct (eqb_char "010" c) eqn:E.
  - apply Facts.eqb_char_eq in E. subst c.
    destruct (single_spaced_blank b _ s H eq_refl) as [Hc _]. discriminate.
  - f_equal. cbn [single_spaced] in H. destruct (isspace c).
    + apply andb_prop in H. destruct H as [_ H]. exact (IH _ _ H).
    + exact (IH _ _ H).
Qed.

(** *** A run of one quote character to one quote *)

Section Quotes.
Variable q : ascii.
Hypothesis q_notspace : isspace q = false.

Local Abbreviation quotes :=
  (fun (_ : option ascii) (s : str) =>
     match run (eqb_char q) s with O => None | n => Some n end).

Lemma squeeze_quotes (s : str) :
  forall prev,
    (single_spaced false s = true ->
     single_spaced false (sub_from quotes [q] (run (eqb_char q) s) prev s) = true)
    /\ (forall b, single_spaced b s = true ->
                  single_spaced b (sub_from quotes [q] 0 prev s) = true).
Proof.
  induction s as [|c s IH]; intro prev; [split; auto|].
  destruct (IH (Some c)) as [IHa IHb].
  cbn [sub_from run].
  destruct (eqb_char q c) eqn:E.
  - apply Facts.eqb_char_eq in E. subst c.
    split.
    + intro H. cbn [single_spaced] in H. rewrite q_notspace in H. exact (IHa H).
    + intros b H. cbn [single_spaced app] in *. rewrite q_notspace in *.
      exact (IHa H).
  - assert (Hcopy : forall b, single_spaced b (c :: s) = true ->
                    single_spaced b (c :: sub_from quotes [q] 0 (Some c) s) = true).
    { intros b H. cbn [single_spaced] in *. destruct (isspace c).
      - apply andb_prop in H. destruct H as [H Hs]. rewrite H. exact (IHb _ Hs).
      - exact (IHb _ H). }
    split; [apply Hcopy | exact Hcopy].
Qed.

End Quotes.

(** *** [strip] *)

Lemma lstrip_head (s : str) :
  match lstrip s with
  | c :: _ => isspace c = false
  | [] => True
  end.
Proof.
  induction s as [|c s IH]; [exact I|]. cbn [lstrip].
  destruct (isspace c) eqn:E; [exact IH | exact E].
Qed.

Lemma lstrip_id (s : str) :
  match s with c :: _ => isspace c = false | [] => True end -> lstrip s = s.
Proof. destruct s as [|c s]; [reflexivity|]. cbn [lstrip]. now intros ->. Qed.

Lemma lstrip_idem (s : str) : lstrip (lstrip s) = lstrip s.
Proof. apply lstrip_id, lstrip_head. Qed.

Lemma rstrip_idem (s : str) : rstrip (rstrip s) = rstrip s.
Proof. unfold rstrip. now rewrite rev_involutive, lstrip_idem. Qed.

Lemma single_spaced_lstrip (s : str) :
  single_spaced false s = true -> single_spaced true (lstrip s) = true.
Proof.
  destruct s as [|c s]; [reflexivity|]. intro H. cbn [lstrip].
  destruct (isspace c) eqn:E.
  - destruct (single_spaced_blank _ _ _ H E) as [_ [_ Hs]].
    rewrite lstrip_id; [exact Hs|].
    destruct s as [|d s]; [exact I|]. cbn [single_spaced] in Hs.
    destruct (isspace d); [|reflexivity].
    rewrite andb_false_r in Hs. discriminate.
  - cbn [single_spaced] in *. now rewrite E in *.
Qed.

Lemma single_spaced_strip (s : str) :
  single_spaced false s = true -> single_spaced true (strip s) = true.
Proof.
  intro H. unfold strip.
  destruct (SegmenterFacts.rstrip_prefix (lstrip s)) as [r Hr].
  apply (single_spaced_prefix _ r). rewrite <- Hr.
  now apply single_spaced_lstrip.
Qed.

Lemma strip_rstrip (s : str) : rstrip (strip s) = strip s.
Proof. unfold strip. apply rstrip_idem. Qed.

Lemma single_spaced_head (s : str) :
  single_spaced true s = true ->
  match s with c :: _ => isspace c = false | [] => True end.
Proof.
  destruct s as [|c s]; [auto|]. cbn [single_spaced].
  destruct (isspace c); [|reflexivity]. rewrite andb_false_r. discriminate.
Qed.

Lemma strip_fixed (s : str) :
  single_spaced true s = true -> rstrip s = s -> strip s = s.
Proof.
  intros H Hr. unfold strip.
  rewrite (lstrip_id s) by now apply single_spaced_head. exact Hr.
Qed.

(** *** [split] and [join] of a single-spaced, trimmed text *)

Lemma rstrip_cons (c : ascii) (s : str) :
  rstrip (c :: s) = c :: s -> s <> [] -> rstrip s = s.
Proof.
  unfold rstrip. intros H Hne.
  apply (f_equal (@rev ascii)) in H. rewrite rev_involutive in H.
  cbn [rev] in H.
  destruct (rev s) as [|d t] eqn:E.
  { apply (f_equal (@rev ascii)) in E. rewrite rev_involutive in E. now subst s. }
  cbn [app lstrip] in H. cbn [lstrip].
  destruct (isspace d) eqn:Ed.
  - exfalso.
    destruct (SegmenterFacts.lstrip_suffix (t ++ [c])) as [l Hl].
    rewrite H in Hl. apply (f_equal (@length ascii)) in Hl.
    repeat (rewrite ?length_app in Hl; cbn [length] in Hl). lia.
  - rewrite <- E. apply rev_involutive.
Qed.

Lemma rstrip_blank : rstrip [" "] <> [" "].
Proof. discriminate. Qed.

Lemma join_split_from (s : str) :
  forall cur,
    single_spaced (match cur with [] => true | _ => false end) s = true ->
    (s = [] \/ rstrip s = s) ->
    join (lit " ") (split_from cur s) = rev cur ++ s.
Proof.
  induction s as [|c s IH]; intros cur H Hend.
  - cbn [split_from]. destruct cur; [reflexivity|]. now rewrite app_nil_r.
  - destruct Hend as [Hend|Hend]; [discriminate|].
    cbn [split_from]. destruct (isspace c) eqn:E.
    + destruct (single_spaced_blank _ _ _ H E) as [-> [Hcur Hs]].
      destruct cur as [|x cur]; [discriminate|].
      destruct s as [|d s]; [destruct (rstrip_blank Hend)|].
      assert (Hr : rstrip (d :: s) = d :: s) by (apply (rstrip_cons _ _ Hend); discriminate).
      specialize (IH [] Hs (or_intror Hr)). cbn [rev app] in IH.
      destruct (split_from [] (d :: s)) as [|w ws] eqn:Ew; [discriminate|].
      change (join (lit " ") (rev (x :: cur) :: w :: ws))
        with (rev (x :: cur) ++ lit " " ++ join (lit " ") (w :: ws)).
      rewrite IH. reflexivity.
    + cbn [single_spaced] in H. rewrite E in H.
      assert (Hend' : s = [] \/ rstrip s = s).
      { destruct s as [|d s]; [now left | right].
        apply (rstrip_cons _ _ Hend). discriminate. }
      rewrite (IH (c :: cur) H Hend'). cbn [rev]. now rewrite <- app_assoc.
Qed.

Lemma join_split (s : str) :
  single_spaced true s = true -> rstrip s = s ->
  join (lit " ") (split s) = s.
Proof.
  intros H Hr. unfold split. now rewrite join_split_from by auto.
Qed.

(** *** The two normalisers *)

Lemma clean_text_spacing (text : str) :
  single_spaced true (DocumentSummary.clean_text text) = true.
Proof.
  unfold DocumentSummary.clean_text. cbv zeta. unfold re_sub.
  apply single_spaced_strip.
  apply (proj2 (squeeze_quotes "039" eq_refl _ None)).
  apply (proj2 (squeeze_quotes "034" eq_refl _ None)).
  rewrite (newlines_unchanged _ _ false None) by apply squeeze_spaces.
  apply squeeze_spaces.
Qed.

End SpacingFacts.

(** X12 (white space after [clean_text]).  A cleaned document is its words
    joined by single blanks: it equals [' '.join(clean.split())].  So every
    white-space character in it is a blank, and it is trimmed. *)
Theorem clean_text_single_spaced :
  forall text : str,
    let clean := DocumentSummary.clean_text text in
    join (lit " ") (split clean) = clean
    /\ Forall (fun c => isspace c = true -> c = " ") clean
    /\ strip clean = clean.
Proof.
  intros text clean.
  pose proof (SpacingFacts.clean_text_spacing text) as H. fold clean in H.
  assert (Hr : rstrip clean = clean) by apply SpacingFacts.strip_rstrip.
  split; [|split].
  - now apply SpacingFacts.join_split.
  - exact (SpacingFacts.single_spaced_blanks _ _ H).
  - now apply SpacingFacts.strip_fixed.
Qed.

Module PatternFacts.

(** *** Prefixes and occurrences *)

Lemma startswith_nil (p : str) : p <> [] -> startswith p [] = false.
Proof. destruct p; [contradiction | reflexivity]. Qed.

Lemma contains_nil (p : str) : p <> [] -> contains p [] = false.
Proof. intro H. cbn [contains]. now rewrite startswith_nil. Qed.

Lemma contains_cons (p : str) (c : ascii) (s : str) :
  contains p (c :: s) = startswith p (c :: s) || contains p s.
Proof. reflexivity. Qed.

Lemma contains_tail (p : str) (c : ascii) (s : str) :
  contains p s = true -> contains p (c :: s) = true.
Proof. intro H. rewrite contains_cons, H. apply orb_true_r. Qed.

Lemma contains_head (p s : str) : startswith p s = true -> contains p s = true.
Proof. intro H. destruct s; cbn [contains]; now rewrite H. Qed.

Lemma startswith_split (p s : str) :
  startswith p s = true -> s = p ++ skipn (length p) s.
Proof.
  revert s. induction p as [|x p IH]; intros s H; [reflexivity|].
  destruct s as [|y s]; [discriminate|]. cbn [startswith] in H.
  apply andb_prop in H. destruct H as [Hxy H].
  apply Facts.eqb_char_eq in Hxy. subst y.
  cbn [length skipn app]. f_equal. exact (IH s H).
Qed.

Lemma startswith_same (p s : str) : startswith p (p ++ s) = true.
Proof.
  induction p as [|x p IH]; [reflexivity|]. cbn [app startswith].
  rewrite IH. unfold eqb_char. now rewrite Ascii.eqb_refl.
Qed.

Lemma startswith_prefix (p p' s : str) :
  startswith (p ++ p') s = true -> startswith p s = true.
Proof.
  revert s. induction p as [|x p IH]; intros s H; [reflexivity|].
  destruct s as [|y s]; [discriminate|]. cbn [app startswith] in *.
  apply andb_prop in H. destruct H as [-> H]. exact (IH s H).
Qed.

Lemma startswith_head_space (p : str) (c : ascii) (s : str) :
  forallb notspace p = true -> p <> [] -> isspace c = true ->
  startswith p (c :: s) = false.
Proof.
  intros Hp Hne Hc. destruct p as [|a p]; [contradiction|].
  cbn [startswith forallb] in *. apply andb_prop in Hp. destruct Hp as [Ha _].
  destruct (eqb_char a c) eqn:E; [|reflexivity].
  apply Facts.eqb_char_eq in E. subst a. unfold notspace in Ha.
  rewrite Hc in Ha. discriminate.
Qed.

Lemma run_all (p : ascii -> bool) (a b : str) :
  forallb p a = true -> run p (a ++ b) = length a + run p b.
Proof.
  induction a as [|x a IH]; intro H; [reflexivity|].
  cbn [forallb] in H. apply andb_prop in H. destruct H as [Hx H].
  cbn [app run length]. rewrite Hx, (IH H). reflexivity.
Qed.

Lemma run_firstn (p : ascii -> bool) (s : str) :
  forallb p (firstn (run p s) s) = true.
Proof.
  induction s as [|c s IH]; [reflexivity|]. cbn [run].
  destruct (p c) eqn:E; [|reflexivity]. cbn [firstn forallb]. now rewrite E, IH.
Qed.

Lemma run_length (p : ascii -> bool) (s : str) : run p s <= length s.
Proof.
  induction s as [|c s IH]; [cbn; lia|]. cbn [run length].
  destruct (p c); lia.
Qed.

(** *** Searching *)

Section Search.
Variable m : matcher.
Variable pattern : str -> Prop.
Hypothesis m_pattern :
  forall prev s k,
    m prev s = Some (S k) -> exists P, pattern P /\ contains P s = true.

Lemma search_pattern (s : str) :
  forall prev,
    search_from m prev s = true -> exists P, pattern P /\ contains P s = true.
Proof.
  induction s as [|c s IH]; intros prev H; [discriminate|].
  cbn [search_from] in H.
  destruct (m prev (c :: s)) as [[|k]|] eqn:E.
  - destruct (IH _ H) as [P [HP Hc]]. exists P. split; [exact HP|].
    now apply contains_tail.
  - exact (m_pattern _ _ _ E).
  - destruct (IH _ H) as [P [HP Hc]]. exists P. split; [exact HP|].
    now apply contains_tail.
Qed.

Lemma search_none (s : str) :
  (forall P, pattern P -> contains P s = false) -> re_search m s = false.
Proof.
  intro H. unfold re_search.
  destruct (search_from m None s) eqn:E; [|reflexivity].
  destruct (search_pattern _ _ E) as [P [HP Hc]].
  rewrite (H P HP) in Hc. discriminate.
Qed.

End Search.

(** A pattern that is not found leaves the text as it is. *)
Lemma sub_unchanged (m : matcher) (repl s : str) :
  forall prev, search_from m prev s = false -> sub_from m repl 0 prev s = s.
Proof.
  induction s as [|c s IH]; intros prev H; [reflexivity|].
  cbn [search_from sub_from] in *.
  destruct (m prev (c :: s)) as [[|k]|]; [|discriminate|]; f_equal; exact (IH _ H).
Qed.

(** *** Deleting the rest of a token

    Both [http[s]?://\S+] and [\S+@\S+] end with [\S+]: a match runs to the
    end of the run of non-whitespace it starts in. *)
Section Deleting.
Variable m : matcher.
Hypothesis m_tail :
  forall prev s k, m prev s = Some (S k) -> S k = run notspace s.

Lemma deleted_tail_next (s : str) :
  forall prev,
    match sub_from m [] (run notspace s) prev s with
    | c :: _ => isspace c = true
    | [] => True
    end.
Proof.
  induction s as [|c s IH]; intro prev; [exact I|].
  cbn [run]. destruct (notspace c) eqn:E.
  - cbn [sub_from]. apply IH.
  - cbn [sub_from].
    destruct (m prev (c :: s)) as [[|k]|] eqn:Em.
    + unfold notspace in E. now destruct (isspace c).
    + apply m_tail in Em. cbn [run] in Em. rewrite E in Em. discriminate.
    + unfold notspace in E. now destruct (isspace c).
Qed.

Lemma match_head (prev : option ascii) (c : ascii) (s : str) (k : nat) :
  m prev (c :: s) = Some (S k) -> notspace c = true /\ k = run notspace s.
Proof.
  intro H. apply m_tail in H. cbn [run] in H.
  destruct (notspace c); [split; [reflexivity | congruence] | discriminate].
Qed.

Lemma deleted_head (P : str) :
  forallb notspace P = true -> P <> [] ->
  forall s prev,
    startswith P (sub_from m [] 0 prev s) = true -> startswith P s = true.
Proof.
  induction P as [|a P IH]; intros HP Hne s prev H; [contradiction|].
  destruct s as [|c s]; [discriminate|].
  cbn [sub_from] in H.
  assert (Hcopy : startswith (a :: P) (c :: sub_from m [] 0 (Some c) s) = true ->
                  startswith (a :: P) (c :: s) = true).
  { cbn [startswith]. intro H'. apply andb_prop in H'. destruct H' as [-> H'].
    cbn [andb]. destruct P as [|b P]; [reflexivity|].
    cbn [forallb] in HP. apply andb_prop in HP. destruct HP as [_ HP].
    apply (IH HP ltac:(discriminate) s (Some c) H'). }
  destruct (m prev (c :: s)) as [[|k]|] eqn:Em; [now apply Hcopy | | now apply Hcopy].
  destruct (match_head _ _ _ _ Em) as [_ ->]. cbn [app] in H.
  pose proof (deleted_tail_next s (Some c)) as Hn.
  destruct (sub_from m [] (run notspace s) (Some c) s) as [|w out]; [discriminate|].
  rewrite (startswith_head_space (a :: P) w out HP Hne Hn) in H. discriminate.
Qed.

Lemma deleted_contains (P : str) :
  forallb notspace P = true -> P <> [] ->
  forall s prev,
    (contains P (sub_from m [] (run notspace s) prev s) = true ->
     contains P s = true)
    /\ (contains P (sub_from m [] 0 prev s) = true -> contains P s = true).
Proof.
  intros HP Hne. induction s as [|c s IH]; intro prev.
  { cbn [sub_from run]. rewrite contains_nil by exact Hne. split; discriminate. }
  destruct (IH (Some c)) as [IHa IHb].
  assert (Hb : contains P (sub_from m [] 0 prev (c :: s)) = true ->
               contains P (c :: s) = true).
  { intro H.
    assert (Hcopy : sub_from m [] 0 prev (c :: s)
                    = c :: sub_from m [] 0 (Some c) s ->
                    contains P (c :: s) = true).
    { intro Heq. pose proof H as H'. rewrite Heq, contains_cons in H'.
      apply orb_prop in H'. destruct H' as [H'|H'].
      - apply contains_head. apply (deleted_head P HP Hne _ prev).
        now rewrite Heq.
      - apply contains_tail, IHb, H'. }
    cbn [sub_from] in H, Hcopy.
    destruct (m prev (c :: s)) as [[|k]|] eqn:Em;
      [now apply Hcopy | | now apply Hcopy].
    destruct (match_head _ _ _ _ Em) as [_ ->]. cbn [app] in H.
    apply contains_tail, IHa, H. }
  split; [|exact Hb].
  cbn [run]. destruct (notspace c) eqn:E; [|exact Hb].
  cbn [sub_from]. intro H. apply contains_tail, IHa, H.
Qed.

(** When every text that starts with [P] is matched, no [P] is left. *)
Lemma deleted_all (P : str) :
  forallb notspace P = true -> P <> [] ->
  (forall prev s, startswith P s = true -> exists k, m prev s = Some (S k)) ->
  forall s prev,
    contains P (sub_from m [] (run notspace s) prev s) = false
    /\ contains P (sub_from m [] 0 prev s) = false.
Proof.
  intros HP Hne Hmatch. induction s as [|c s IH]; intro prev.
  { cbn [sub_from run]. rewrite contains_nil by exact Hne. split; reflexivity. }
  destruct (IH (Some c)) as [IHa IHb].
  assert (Hb : contains P (sub_from m [] 0 prev (c :: s)) = false).
  { assert (Hcopy : sub_from m [] 0 prev (c :: s)
                    = c :: sub_from m [] 0 (Some c) s ->
                    (forall k, m prev (c :: s) <> Some (S k)) ->
                    contains P (sub_from m [] 0 prev (c :: s)) = false).
    { intros Heq Hno. rewrite Heq, contains_cons, IHb, orb_false_r.
      destruct (startswith P (c :: sub_from m [] 0 (Some c) s)) eqn:Es;
        [|reflexivity].
      rewrite <- Heq in Es. apply (deleted_head P HP Hne) in Es.
      destruct (Hmatch prev _ Es) as [k Hk]. destruct (Hno k Hk). }
    cbn [sub_from] in Hcopy |- *.
    destruct (m prev (c :: s)) as [[|k]|] eqn:Em.
    - apply Hcopy; [reflexivity | discriminate].
    - destruct (match_head _ _ _ _ Em) as [_ ->]. exact IHa.
    - apply Hcopy; [reflexivity | discriminate]. }
  split; [|exact Hb].
  cbn [run]. destruct (notspace c) eqn:E; [|exact Hb].
  cbn [sub_from]. exact IHa.
Qed.

Lemma deleted_chars (Q : ascii -> Prop) (s : str) :
  forall skip prev, Forall Q s -> Forall Q (sub_from m [] skip prev s).
Proof.
  induction s as [|c s IH]; intros skip prev H; [constructor|].
  apply Forall_cons_iff in H. destruct H as [Hc H].
  cbn [sub_from]. destruct skip; [|now apply IH].
  destruct (m prev (c :: s)) as [[|k]|]; cbn [app];
    try (constructor; [exact Hc|]); now apply IH.
Qed.

End Deleting.

End PatternFacts.

Module LinkFacts.
Import PatternFacts.

(** *** [http[s]?://\S+] *)

Lemma url_scheme (prev : option ascii) (s : str) (k : nat) :
  Patterns.url prev s = Some (S k) ->
  exists scheme x rest,
    (scheme = lit "https://" \/ scheme = lit "http://")
    /\ s = scheme ++ x :: rest
    /\ notspace x = true
    /\ S k = length scheme + run notspace (x :: rest).
Proof.
  unfold Patterns.url. cbv zeta. intro H.
  destruct (startswith (lit "https://") s) eqn:E1.
  - pose proof (startswith_split _ _ E1) as Hs.
    change (length (lit "https://")) with 8 in Hs.
    destruct (skipn 8 s) as [|x rest]; [discriminate|].
    cbn [run] in H. destruct (notspace x) eqn:Ex; [|discriminate].
    exists (lit "https://"), x, rest. repeat split; auto.
    cbn [run]. rewrite Ex. injection H as <-. reflexivity.
  - destruct (startswith (lit "http://") s) eqn:E2; [|discriminate].
    pose proof (startswith_split _ _ E2) as Hs.
    change (length (lit "http://")) with 7 in Hs.
    destruct (skipn 7 s) as [|x rest]; [discriminate|].
    cbn [run] in H. destruct (notspace x) eqn:Ex; [|discriminate].
    exists (lit "http://"), x, rest. repeat split; auto.
    cbn [run]. rewrite Ex. injection H as <-. reflexivity.
Qed.

Lemma url_tail (prev : option ascii) (s : str) (k : nat) :
  Patterns.url prev s = Some (S k) -> S k = run notspace s.
Proof.
  intro H. destruct (url_scheme _ _ _ H) as [scheme [x [rest [Hsch [-> [Hx ->]]]]]].
  symmetry. apply run_all. destruct Hsch as [-> | ->]; reflexivity.
Qed.

Lemma url_pattern (prev : option ascii) (s : str) (k : nat) :
  Patterns.url prev s = Some (S k) ->
  exists P, url_start P /\ contains P s = true.
Proof.
  intro H. destruct (url_scheme _ _ _ H) as [scheme [x [rest [Hsch [-> [Hx _]]]]]].
  exists (scheme ++ [x]). split.
  - exists x. split; [exact Hx|]. destruct Hsch as [-> | ->]; auto.
  - apply contains_head.
    change (scheme ++ x :: rest) with (scheme ++ [x] ++ rest).
    rewrite app_assoc. apply startswith_same.
Qed.

Lemma url_found (P : str) (prev : option ascii) (s : str) :
  url_start P -> startswith P s = true ->
  exists k, Patterns.url prev s = Some (S k).
Proof.
  intros [x [Hx HP]] H.
  pose proof (startswith_split _ _ H) as Hs.
  set (rest := skipn (length P) s) in Hs. clearbody rest. subst s. clear H.
  unfold Patterns.url. cbv zeta.
  destruct HP as [-> | ->].
  - change (startswith (lit "https://") ((lit "https://" ++ [x]) ++ rest)) with true.
    cbn [skipn app lit list_ascii_of_string run]. rewrite Hx. eexists. reflexivity.
  - change (startswith (lit "https://") ((lit "http://" ++ [x]) ++ rest)) with false.
    change (startswith (lit "http://") ((lit "http://" ++ [x]) ++ rest)) with true.
    cbn [skipn app lit list_ascii_of_string run]. rewrite Hx. eexists. reflexivity.
Qed.

Lemma url_start_plain (P : str) :
  url_start P -> forallb notspace P = true /\ P <> [].
Proof.
  intros [x [Hx [-> | ->]]]; (split; [|discriminate]);
    rewrite forallb_app; cbn [forallb]; rewrite Hx; reflexivity.
Qed.

(** *** [\S+@\S+] *)

Lemma email_tail (prev : option ascii) (s : str) (k : nat) :
  Patterns.email prev s = Some (S k) -> S k = run notspace s.
Proof.
  unfold Patterns.email. cbv zeta.
  destruct (existsb _ _); [|discriminate]. now intros [= <-].
Qed.

Lemma inner_found (f : ascii -> bool) (r : str) :
  existsb f (firstn (length r - 1) r) = true ->
  exists l x b t, r = l ++ x :: b :: t /\ f x = true.
Proof.
  induction r as [|y r IH]; [discriminate|].
  destruct r as [|z r]; [discriminate|].
  change (length (y :: z :: r) - 1) with (S (length r)).
  cbn [firstn existsb]. intro H. apply orb_prop in H. destruct H as [H|H].
  - exists [], y, z, r. auto.
  - replace (length r) with (length (z :: r) - 1) in H by (cbn [length]; lia).
    destruct (IH H) as [l [x [b [t [Heq Hx]]]]].
    exists (y :: l), x, b, t. split; [|exact Hx]. cbn [app]. now rewrite <- Heq.
Qed.

Lemma email_pattern (prev : option ascii) (s : str) (k : nat) :
  Patterns.email prev s = Some (S k) ->
  exists P, email_core P /\ contains P s = true.
Proof.
  unfold Patterns.email. cbv zeta.
  set (n := run notspace s).
  destruct (existsb _ _) eqn:E; [|discriminate]. intros _.
  pose proof (run_firstn notspace s) as Hall. fold n in Hall.
  pose proof (firstn_skipn n s) as Hs.
  assert (Hlen : length (firstn n s) = n).
  { apply firstn_length_le, run_length. }
  destruct (firstn n s) as [|t0 r] eqn:Etok.
  { rewrite firstn_nil in E. discriminate. }
  cbn [skipn] in E. cbn [length] in Hlen.
  replace (n - 2) with (length r - 1) in E by lia.
  destruct (inner_found _ _ E) as [l [x [b [t [Hr Hx]]]]].
  apply Facts.eqb_char_eq in Hx. subst x.
  destruct (exists_last (l := t0 :: l) ltac:(discriminate)) as [pre [a Hpre]].
  assert (Htok : t0 :: r = pre ++ [a; "@"; b] ++ t).
  { rewrite Hr. change (t0 :: l ++ "@" :: b :: t) with ((t0 :: l) ++ "@" :: b :: t).
    rewrite Hpre, <- app_assoc. reflexivity. }
  rewrite forallb_forall in Hall.
  exists [a; "@"; b]. split.
  - exists a, b. repeat split; apply Hall; rewrite Htok;
      apply in_or_app; right; cbn; auto.
  - rewrite <- Hs, Htok, <- !app_assoc.
    apply SegmenterFacts.contains_app_r, contains_head, startswith_same.
Qed.

Lemma email_found (P : str) (prev : option ascii) (s : str) :
  email_core P -> startswith P s = true ->
  exists k, Patterns.email prev s = Some (S k).
Proof.
  intros [a [b [Ha [Hb ->]]]] H.
  pose proof (startswith_split _ _ H) as Hs.
  set (rest := skipn (length [a; "@"; b]) s) in Hs. clearbody rest. subst s. clear H.
  unfold Patterns.email. cbv zeta. cbn [app run]. rewrite Ha, Hb.
  change (notspace "@") with true. cbn [firstn skipn Nat.sub existsb].
  change (eqb_char "@" "@") with true. cbn [orb]. eexists. reflexivity.
Qed.

Lemma email_core_plain (P : str) :
  email_core P -> forallb notspace P = true /\ P <> [].
Proof.
  intros [a [b [Ha [Hb ->]]]]. split; [|discriminate].
  cbn [forallb]. rewrite Ha, Hb. reflexivity.
Qed.

End LinkFacts.

Module NormalFacts.
Import PatternFacts SpacingFacts.

(** *** What [\s+] to one blank keeps *)

Section Blanking.
Variable P : str.
Hypothesis P_plain : forallb notspace P = true.
Hypothesis P_nonempty : P <> [].

Lemma blanked_head :
  forall s prev,
    startswith P (sub_from Patterns.spaces (lit " ") 0 prev s) = true ->
    startswith P s = true.
Proof.
  revert P_plain P_nonempty. induction P as [|a P' IH]; intros HP Hne s prev H;
    [contradiction|].
  destruct s as [|c s]; [discriminate|].
  cbn [sub_from] in H. rewrite spaces_head in H.
  destruct (isspace c) eqn:E.
  - change (lit " " ++ ?x) with (" " :: x) in H.
    rewrite (startswith_head_space (a :: P') " " _ HP Hne eq_refl) in H.
    discriminate.
  - cbn [startswith] in *. apply andb_prop in H. destruct H as [-> H].
    cbn [andb]. destruct P' as [|b P'']; [reflexivity|].
    cbn [forallb] in HP. apply andb_prop in HP. destruct HP as [_ HP].
    exact (IH HP ltac:(discriminate) s (Some c) H).
Qed.

Lemma blanked_contains (s : str) :
  forall prev,
    (contains P (sub_from Patterns.spaces (lit " ") (run isspace s) prev s) = true ->
     contains P s = true)
    /\ (contains P (sub_from Patterns.spaces (lit " ") 0 prev s) = true ->
        contains P s = true).
Proof.
  induction s as [|c s IH]; intro prev.
  { cbn [sub_from run]. rewrite contains_nil by exact P_nonempty.
    split; discriminate. }
  destruct (IH (Some c)) as [IHa IHb].
  assert (Hb : contains P (sub_from Patterns.spaces (lit " ") 0 prev (c :: s)) = true ->
               contains P (c :: s) = true).
  { intro H. pose proof (blanked_head (c :: s) prev) as Hh.
    cbn [sub_from] in H, Hh. rewrite spaces_head in H, Hh.
    destruct (isspace c) eqn:E.
    - change (lit " " ++ ?x) with (" " :: x) in H.
      rewrite contains_cons in H.
      rewrite (startswith_head_space P " " _ P_plain P_nonempty eq_refl) in H.
      apply contains_tail, IHa, H.
    - rewrite contains_cons in H. apply orb_prop in H. destruct H as [H|H].
      + apply contains_head, Hh, H.
      + apply contains_tail, IHb, H. }
  split; [|exact Hb].
  cbn [run]. destruct (isspace c) eqn:E; [|exact Hb].
  cbn [sub_from]. intro H. apply contains_tail, IHa, H.
Qed.

End Blanking.

Lemma spaces_unchanged (s : str) :
  forall b prev,
    single_spaced b s = true -> sub_from Patterns.spaces (lit " ") 0 prev s = s.
Proof.
  induction s as [|c s IH]; intros b prev H; [reflexivity|].
  cbn [sub_from]. rewrite spaces_head.
  destruct (isspace c) eqn:E.
  - destruct (single_spaced_blank _ _ _ H E) as [-> [_ Hs]].
    pose proof (single_spaced_head _ Hs) as Hh.
    assert (Hrun : run isspace s = 0).
    { destruct s as [|d s]; [reflexivity|]. cbn [run]. now rewrite Hh. }
    rewrite Hrun. change (lit " " ++ ?x) with (" " :: x). f_equal.
    exact (IH _ _ Hs).
  - f_equal. cbn [single_spaced] in H. rewrite E in H. exact (IH _ _ H).
Qed.

(** *** What a run of quotes to one quote keeps *)

Section Quotes.
Variable q : ascii.

Local Abbreviation quotes :=
  (fun (_ : option ascii) (s : str) =>
     match run (eqb_char q) s with O => None | n => Some n end).

Lemma quotes_step (prev : option ascii) (c : ascii) (s : str) :
  sub_from quotes [q] 0 prev (c :: s)
  = if eqb_char q c
    then q :: sub_from quotes [q] (run (eqb_char q) s) (Some c) s
    else c :: sub_from quotes [q] 0 (Some c) s.
Proof. cbn [sub_from run]. now destruct (eqb_char q c). Qed.

Lemma quotes_skip (prev : option ascii) (c : ascii) (s : str) :
  sub_from quotes [q] (run (eqb_char q) (c :: s)) prev (c :: s)
  = if eqb_char q c
    then sub_from quotes [q] (run (eqb_char q) s) (Some c) s
    else sub_from quotes [q] 0 prev (c :: s).
Proof. cbn [run]. now destruct (eqb_char q c). Qed.

(** A text none of whose characters but the last is the quote. *)
Variables (mid tl : str).
Hypothesis tl_short : length tl <= 1.
Hypothesis mid_plain : forallb (fun c => negb (eqb_char q c)) mid = true.

Lemma quoted_after :
  forall s prev,
    startswith (mid ++ tl) (sub_from quotes [q] 0 prev s) = true ->
    startswith (mid ++ tl) s = true.
Proof.
  revert mid_plain. induction mid as [|a mid' IH]; intros Hmid s prev H.
  - cbn [app] in *. destruct tl as [|b [|b' tl']]; [reflexivity | | cbn in tl_short; lia].
    destruct s as [|c s]; [discriminate|].
    rewrite quotes_step in H. cbn [startswith] in *.
    rewrite andb_true_r in *.
    destruct (eqb_char q c) eqn:E; cbn [startswith] in H;
      rewrite ?andb_true_r in H; [|exact H].
    apply Facts.eqb_char_eq in E, H. subst. apply Facts.eqb_char_eq. reflexivity.
  - cbn [forallb] in Hmid. apply andb_prop in Hmid. destruct Hmid as [Ha Hmid].
    destruct s as [|c s]; [discriminate|].
    rewrite quotes_step in H. cbn [app startswith] in *.
    destruct (eqb_char q c) eqn:E.
    + cbn [startswith] in H. apply andb_prop in H. destruct H as [H _].
      apply Facts.eqb_char_eq in H. subst a.
      unfold eqb_char in Ha. rewrite Ascii.eqb_refl in Ha. discriminate.
    + cbn [startswith] in H. apply andb_prop in H. destruct H as [-> H].
      cbn [andb]. exact (IH Hmid s (Some c) H).
Qed.

Lemma quoted_run :
  forall s prev,
    startswith (mid ++ tl) (sub_from quotes [q] (run (eqb_char q) s) prev s) = true ->
    contains (q :: mid ++ tl) (q :: s) = true.
Proof.
  induction s as [|c s IH]; intros prev H.
  - apply contains_head. cbn [startswith]. unfold eqb_char at 1.
    rewrite Ascii.eqb_refl. cbn [andb].
    cbn [sub_from run] in H. destruct (mid ++ tl); [reflexivity | discriminate].
  - rewrite quotes_skip in H. destruct (eqb_char q c) eqn:E.
    + apply Facts.eqb_char_eq in E. subst c.
      apply contains_tail. exact (IH _ H).
    + apply contains_head. cbn [startswith]. unfold eqb_char at 1.
      rewrite Ascii.eqb_refl. cbn [andb]. exact (quoted_after _ _ H).
Qed.

Lemma quoted_contains (a : ascii) (s : str) :
  forall prev,
    (contains (a :: mid ++ tl)
       (sub_from quotes [q] (run (eqb_char q) s) prev s) = true ->
     contains (a :: mid ++ tl) s = true)
    /\ (contains (a :: mid ++ tl) (sub_from quotes [q] 0 prev s) = true ->
        contains (a :: mid ++ tl) s = true).
Proof.
  induction s as [|c s IH]; intro prev.
  { cbn [sub_from run]. rewrite contains_nil by discriminate. split; discriminate. }
  destruct (IH (Some c)) as [IHa IHb].
  assert (Hb : contains (a :: mid ++ tl) (sub_from quotes [q] 0 prev (c :: s)) = true ->
               contains (a :: mid ++ tl) (c :: s) = true).
  { rewrite quotes_step. destruct (eqb_char q c) eqn:E; rewrite contains_cons;
      intro H; apply orb_prop in H; destruct H as [H|H].
    - apply Facts.eqb_char_eq in E. subst c.
      cbn [startswith] in H. apply andb_prop in H. destruct H as [Ha H].
      apply Facts.eqb_char_eq in Ha. subst a. exact (quoted_run _ _ H).
    - apply contains_tail, IHa, H.
    - apply contains_head. cbn [startswith] in *.
      apply andb_prop in H. destruct H as [-> H]. cbn [andb].
      exact (quoted_after _ _ H).
    - apply contains_tail, IHb, H. }
  split; [|exact Hb].
  rewrite quotes_skip. destruct (eqb_char q c); [|exact Hb].
  intro H. apply contains_tail, IHa, H.
Qed.

End Quotes.

Section Squeezed.
Variable q : ascii.

Local Abbreviation quotes :=
  (fun (_ : option ascii) (s : str) =>
     match run (eqb_char q) s with O => None | n => Some n end).

(** No two quotes in a row are left. *)
Lemma squeezed (s : str) :
  forall prev,
    (contains [q; q] (sub_from quotes [q] (run (eqb_char q) s) prev s) = false
     /\ startswith [q] (sub_from quotes [q] (run (eqb_char q) s) prev s) = false)
    /\ contains [q; q] (sub_from quotes [q] 0 prev s) = false.
Proof.
  induction s as [|c s IH]; intro prev; [repeat split|].
  destruct (IH (Some c)) as [[IHa IHh] IHb].
  assert (Hcopy : eqb_char q c = false ->
            contains [q; q] (c :: sub_from quotes [q] 0 (Some c) s) = false
            /\ startswith [q] (c :: sub_from quotes [q] 0 (Some c) s) = false).
  { intro E. rewrite contains_cons. cbn [startswith]. rewrite E. cbn [andb orb].
    split; [exact IHb | reflexivity]. }
  rewrite quotes_skip, quotes_step.
  destruct (eqb_char q c) eqn:E.
  - split; [split; assumption|].
    rewrite contains_cons.
    change (startswith [q; q] (q :: ?x)) with (eqb_char q q && startswith [q] x).
    rewrite IHh, IHa, andb_false_r. reflexivity.
  - destruct (Hcopy eq_refl) as [H1 H2]. repeat split; assumption.
Qed.

Lemma quotes_unchanged (s : str) :
  forall prev, contains [q; q] s = false -> sub_from quotes [q] 0 prev s = s.
Proof.
  induction s as [|c s IH]; intros prev H; [reflexivity|].
  rewrite contains_cons in H. apply orb_false_elim in H. destruct H as [Hh Hs].
  rewrite quotes_step. destruct (eqb_char q c) eqn:E.
  - apply Facts.eqb_char_eq in E. subst c. f_equal.
    assert (Hrun : run (eqb_char q) s = 0).
    { destruct s as [|d s]; [reflexivity|]. cbn [run].
      cbn [startswith] in Hh. unfold eqb_char at 1 in Hh.
      rewrite Ascii.eqb_refl in Hh. cbn [andb] in Hh.
      rewrite andb_true_r in Hh. now rewrite Hh. }
    rewrite Hrun. exact (IH _ Hs).
  - f_equal. exact (IH _ Hs).
Qed.

End Squeezed.

(** *** [strip] *)

Lemma rstrip_head (s : str) :
  match s with c :: _ => isspace c = false | [] => True end ->
  match rstrip s with c :: _ => isspace c = false | [] => True end.
Proof.
  intro H. destruct (SegmenterFacts.rstrip_prefix s) as [r Hr].
  destruct (rstrip s) as [|d t]; [exact I|].
  rewrite Hr in H. exact H.
Qed.

Lemma strip_idem (s : str) : strip (strip s) = strip s.
Proof.
  unfold strip at 1.
  rewrite (lstrip_id (strip s)) by (unfold strip; apply rstrip_head, lstrip_head).
  apply strip_rstrip.
Qed.

Lemma strip_chars (Q : ascii -> Prop) (s : str) : Forall Q s -> Forall Q (strip s).
Proof.
  intro H. unfold strip.
  destruct (SegmenterFacts.lstrip_suffix s) as [l Hl].
  destruct (SegmenterFacts.rstrip_prefix (lstrip s)) as [r Hr].
  rewrite Hl in H. apply Forall_app in H. destruct H as [_ H].
  rewrite Hr in H. apply Forall_app in H. now destruct H.
Qed.

(** *** The two normalisers *)

Lemma preprocess_no_url (text P : str) :
  url_start P -> contains P (TextSummary.preprocess_text text) = false.
Proof.
  intro HP. destruct (LinkFacts.url_start_plain P HP) as [Hplain Hne].
  unfold TextSummary.preprocess_text. cbv zeta. unfold re_sub.
  set (blanked := sub_from Patterns.spaces (lit " ") 0 None text).
  destruct (contains P (strip _)) eqn:E; [|reflexivity].
  apply SegmenterFacts.contains_strip in E.
  apply (deleted_contains _ LinkFacts.email_tail P Hplain Hne) in E.
  rewrite (proj2 (deleted_all _ LinkFacts.url_tail P Hplain Hne
                    (fun prev s => LinkFacts.url_found P prev s HP) blanked None))
    in E.
  discriminate.
Qed.

Lemma preprocess_no_email (text P : str) :
  email_core P -> contains P (TextSummary.preprocess_text text) = false.
Proof.
  intro HP. destruct (LinkFacts.email_core_plain P HP) as [Hplain Hne].
  unfold TextSummary.preprocess_text. cbv zeta. unfold re_sub.
  destruct (contains P (strip _)) eqn:E; [|reflexivity].
  apply SegmenterFacts.contains_strip in E.
  rewrite (proj2 (deleted_all _ LinkFacts.email_tail P Hplain Hne
                    (fun prev s => LinkFacts.email_found P prev s HP) _ None))
    in E.
  discriminate.
Qed.

(** [clean_text] from the text without links on. *)
Lemma clean_text_keeps (text : str) (a : ascii) (mid tl : str) :
  let P := a :: mid ++ tl in
  forallb notspace P = true ->
  length tl <= 1 ->
  forallb (fun c => negb (eqb_char "034" c)) mid = true ->
  forallb (fun c => negb (eqb_char "039" c)) mid = true ->
  forall unlinked,
    contains P
      (strip
         (sub_from Patterns.squotes ["039"] 0 None
            (sub_from Patterns.dquotes ["034"] 0 None
               (sub_from Patterns.newlines3 ["010"; "010"] 0 None
                  (sub_from Patterns.spaces (lit " ") 0 None unlinked))))) = true ->
    contains P unlinked = true.
Proof.
  intros P Hplain Htl Hd Hs unlinked H.
  apply SegmenterFacts.contains_strip in H.
  apply (proj2 (quoted_contains "039" mid tl Htl Hs a _ None)) in H.
  apply (proj2 (quoted_contains "034" mid tl Htl Hd a _ None)) in H.
  rewrite (newlines_unchanged _ _ false None) in H by apply squeeze_spaces.
  exact (proj2 (blanked_contains P Hplain ltac:(discriminate) _ None) H).
Qed.

Lemma clean_no_url (text P : str) :
  url_start P -> contains P (DocumentSummary.clean_text text) = false.
Proof.
  intro HP. destruct (LinkFacts.url_start_plain P HP) as [Hplain Hne].
  unfold DocumentSummary.clean_text. cbv zeta. unfold re_sub.
  set (unlinked := sub_from Patterns.email [] 0 None _).
  destruct (contains P (strip _)) eqn:E; [|reflexivity].
  assert (Hu : contains P unlinked = true).
  { destruct HP as [x [Hx [-> | ->]]].
    - exact (clean_text_keeps text "h" (lit "ttps://") [x] Hplain
               ltac:(cbn; lia) eq_refl eq_refl unlinked E).
    - exact (clean_text_keeps text "h" (lit "ttp://") [x] Hplain
               ltac:(cbn; lia) eq_refl eq_refl unlinked E). }
  unfold unlinked in Hu.
  apply (deleted_contains _ LinkFacts.email_tail P Hplain Hne) in Hu.
  rewrite (proj2 (deleted_all _ LinkFacts.url_tail P Hplain Hne
                    (fun prev s => LinkFacts.url_found P prev s HP) text None))
    in Hu.
  discriminate.
Qed.

Lemma clean_no_email (text P : str) :
  email_core P -> contains P (DocumentSummary.clean_text text) = false.
Proof.
  intro HP. destruct (LinkFacts.email_core_plain P HP) as [Hplain Hne].
  unfold DocumentSummary.clean_text. cbv zeta. unfold re_sub.
  set (unlinked := sub_from Patterns.email [] 0 None _).
  destruct (contains P (strip _)) eqn:E; [|reflexivity].
  assert (Hu : contains P unlinked = true).
  { destruct HP as [a [b [Ha [Hb ->]]]].
    exact (clean_text_keeps text a ["@"] [b] Hplain
             ltac:(cbn; lia) eq_refl eq_refl unlinked E). }
  unfold unlinked in Hu.
  rewrite (proj2 (deleted_all _ LinkFacts.email_tail P Hplain Hne
                    (fun prev s => LinkFacts.email_found P prev s HP) _ None))
    in Hu.
  discriminate.
Qed.

Lemma clean_no_quote_runs (text : str) :
  let clean := DocumentSummary.clean_text text in
  contains ["034"; "034"] clean = false /\ contains ["039"; "039"] clean = false.
Proof.
  unfold DocumentSummary.clean_text. cbv zeta. unfold re_sub. split.
  - destruct (contains _ (strip _)) eqn:E; [|reflexivity].
    apply SegmenterFacts.contains_strip in E.
    apply (proj2 (quoted_contains "039" [] ["034"] ltac:(cbn; lia) eq_refl
                    "034" _ None)) in E.
    rewrite (proj2 (squeezed "034" _ None)) in E. discriminate.
  - destruct (contains _ (strip _)) eqn:E; [|reflexivity].
    apply SegmenterFacts.contains_strip in E.
    rewrite (proj2 (squeezed "039" _ None)) in E. discriminate.
Qed.

End NormalFacts.

(** X13 (what [preprocess_text] guarantees).  No [http[s]?://\S+] and no
    [\S+@\S+] is found in the result; its only white-space characters are
    blanks; it is trimmed.  (Two blanks in a row can remain where a link
    was taken out.) *)
Theorem preprocess_text_postconditions :
  forall text : str,
    let clean := TextSummary.preprocess_text text in
    re_search Patterns.url clean = false
    /\ re_search Patterns.email clean = false
    /\ Forall (fun c => isspace c = true -> c = " ") clean
    /\ strip clean = clean.
Proof.
  intros text clean. split; [|split; [|split]].
  - apply (PatternFacts.search_none _ url_start LinkFacts.url_pattern).
    intros P HP. exact (NormalFacts.preprocess_no_url text P HP).
  - apply (PatternFacts.search_none _ email_core LinkFacts.email_pattern).
    intros P HP. exact (NormalFacts.preprocess_no_email text P HP).
  - unfold clean, TextSummary.preprocess_text. cbv zeta. unfold re_sub.
    apply NormalFacts.strip_chars.
    apply PatternFacts.deleted_chars, PatternFacts.deleted_chars.
    apply (SpacingFacts.single_spaced_blanks _ false).
    apply SpacingFacts.squeeze_spaces.
  - apply NormalFacts.strip_idem.
Qed.

(** X14 (no links after [clean_text]).  Neither [http[s]?://\S+] nor
    [\S+@\S+] is found in a cleaned document: the later passes (white
    space, quotes, trimming) do not put together what the first two took
    out. *)
Theorem clean_text_has_no_links :
  forall text : str,
    let clean := DocumentSummary.clean_text text in
    re_search Patterns.url clean = false
    /\ re_search Patterns.email clean = false.
Proof.
  intros text clean. split.
  - apply (PatternFacts.search_none _ url_start LinkFacts.url_pattern).
    intros P HP. exact (NormalFacts.clean_no_url text P HP).
  - apply (PatternFacts.search_none _ email_core LinkFacts.email_pattern).
    intros P HP. exact (NormalFacts.clean_no_email text P HP).
Qed.

(** X15 ([clean_text] is idempotent).  Cleaning a cleaned document changes
    nothing: none of the six patterns finds anything to replace by
    something else, and the text is trimmed. *)
Theorem clean_text_idempotent :
  forall text : str,
    DocumentSummary.clean_text (DocumentSummary.clean_text text)
    = DocumentSummary.clean_text text.
Proof.
  intro text.
  set (clean := DocumentSummary.clean_text text).
  assert (Hurl : search_from Patterns.url None clean = false).
  { apply (PatternFacts.search_none _ url_start LinkFacts.url_pattern).
    intros P HP. exact (NormalFacts.clean_no_url text P HP). }
  assert (Hemail : search_from Patterns.email None clean = false).
  { apply (PatternFacts.search_none _ email_core LinkFacts.email_pattern).
    intros P HP. exact (NormalFacts.clean_no_email text P HP). }
  pose proof (SpacingFacts.clean_text_spacing text) as Hspaced. fold clean in Hspaced.
  destruct (NormalFacts.clean_no_quote_runs text) as [Hd Hs].
  fold clean in Hd, Hs.
  unfold DocumentSummary.clean_text at 1. cbv zeta. unfold re_sub.
  rewrite (PatternFacts.sub_unchanged _ _ _ None Hurl).
  rewrite (PatternFacts.sub_unchanged _ _ _ None Hemail).
  rewrite (NormalFacts.spaces_unchanged _ true None Hspaced).
  rewrite (SpacingFacts.newlines_unchanged _ _ true None Hspaced).
  rewrite (NormalFacts.quotes_unchanged "034" _ None Hd
           : sub_from Patterns.dquotes ["034"] 0 None clean = clean).
  rewrite (NormalFacts.quotes_unchanged "039" _ None Hs
           : sub_from Patterns.squotes ["039"] 0 None clean = clean).
  apply NormalFacts.strip_idem.
Qed.

Module SentenceFacts.
Import PatternFacts SpacingFacts NormalFacts.

(** *** Blank texts *)

Lemma lstrip_nil (s : str) : lstrip s = [] -> forallb isspace s = true.
Proof.
  induction s as [|c s IH]; [reflexivity|]. cbn [lstrip forallb].
  destruct (isspace c); [exact IH | discriminate].
Qed.

Lemma lstrip_blank (s : str) : forallb isspace s = true -> lstrip s = [].
Proof.
  induction s as [|c s IH]; [reflexivity|]. cbn [lstrip forallb].
  destruct (isspace c); [exact IH | discriminate].
Qed.

Lemma strip_blank (s : str) : forallb isspace s = true -> strip s = [].
Proof. intro H. unfold strip. now rewrite lstrip_blank. Qed.

Lemma strip_nil (s : str) : strip s = [] -> forallb isspace s = true.
Proof.
  unfold strip, rstrip. intro H.
  apply (f_equal (@rev ascii)) in H. rewrite rev_involutive in H. cbn [rev] in H.
  apply lstrip_nil in H. rewrite forallb_forall in H.
  pose proof (lstrip_head s) as Hh.
  destruct (lstrip s) as [|c t] eqn:E; [now apply lstrip_nil|].
  rewrite (H c) in Hh; [discriminate|].
  apply -> in_rev. now left.
Qed.

Lemma blank_iff (s : str) : forallb isspace s = negb (existsb notspace s).
Proof.
  induction s as [|c s IH]; [reflexivity|]. cbn [forallb existsb].
  rewrite IH. unfold notspace. now destruct (isspace c).
Qed.

Lemma split_blank (s : str) : forallb isspace s = true -> split s = [].
Proof.
  intro H. unfold split. rewrite <- (app_nil_r s).
  now rewrite AssemblyFacts.split_lstrip.
Qed.

Lemma split_from_nil (s : str) :
  forall cur, split_from cur s = [] -> cur = [] /\ forallb isspace s = true.
Proof.
  induction s as [|c s IH]; intros cur H; cbn [split_from] in H.
  - destruct cur; [auto | discriminate].
  - cbn [forallb]. destruct (isspace c).
    + destruct cur; [|discriminate]. destruct (IH _ H). auto.
    + destruct (IH _ H) as [Hcur _]. discriminate.
Qed.

Lemma split_nil (s : str) : split s = [] -> forallb isspace s = true.
Proof. intro H. now destruct (split_from_nil s [] H). Qed.

(** *** [replace] keeps a text visible *)

Lemma replace_visible (old : str) (s : str) :
  existsb notspace s = true ->
  existsb notspace (replace_from old (lit ".") 0 s) = true.
Proof.
  induction s as [|c s IH]; [discriminate|]. cbn [replace_from existsb].
  destruct (startswith old (c :: s)); [reflexivity|].
  cbn [existsb]. destruct (notspace c); [reflexivity | exact IH].
Qed.

Lemma restore_visible (piece : str) :
  strip piece <> [] -> restore piece <> [].
Proof.
  intros H Hr. unfold restore in Hr. apply strip_nil in Hr.
  rewrite blank_iff in Hr. unfold replace in Hr.
  rewrite replace_visible in Hr; [discriminate|].
  destruct (existsb notspace piece) eqn:E; [reflexivity|].
  exfalso. apply H, strip_blank. rewrite blank_iff, E. reflexivity.
Qed.

(** *** The segmenters on a blank text *)

Lemma blank_char (c p : ascii) :
  isspace c = true -> isspace p = false -> eqb_char (lower_char c) p = false.
Proof.
  intros Hc Hp.
  assert (Hl : lower_char c = c).
  { revert Hc. destruct c as [b0 b1 b2 b3 b4 b5 b6 b7].
    destruct b0, b1, b2, b3, b4, b5, b6, b7; intro H;
      first [reflexivity | discriminate H]. }
  rewrite Hl. destruct (eqb_char c p) eqn:E; [|reflexivity].
  apply Facts.eqb_char_eq in E. subst p. congruence.
Qed.

Lemma sub_blank (m : matcher) (repl s : str) :
  (forall prev c rest, isspace c = true -> m prev (c :: rest) = None) ->
  forall prev, forallb isspace s = true -> sub_from m repl 0 prev s = s.
Proof.
  intros Hm. induction s as [|c s IH]; intros prev H; [reflexivity|].
  cbn [forallb] in H. apply andb_prop in H. destruct H as [Hc H].
  cbn [sub_from]. rewrite (Hm prev c s Hc). f_equal. exact (IH _ H).
Qed.

Lemma abbr_blank (abbr : str) (prev : option ascii) (c : ascii) (rest : str) :
  starts_plain abbr = true -> isspace c = true ->
  Patterns.abbr_period abbr prev (c :: rest) = None.
Proof.
  intros Ha Hc. unfold Patterns.abbr_period.
  destruct abbr as [|p abbr]; [discriminate|].
  cbn [starts_plain] in Ha. apply andb_prop in Ha. destruct Ha as [Hdot Hp].
  cbn [Patterns.abbr_body]. destruct (eqb_char p "."); [discriminate|].
  unfold notspace in Hp. rewrite blank_char; [| exact Hc | now destruct (isspace p)].
  cbn [andb]. now rewrite andb_false_r.
Qed.

Lemma mask_blank (abbreviations : list str) (text : str) :
  forallb starts_plain abbreviations = true ->
  forallb isspace text = true ->
  mask_abbreviations abbreviations text = text.
Proof.
  intros Ha Ht. unfold mask_abbreviations.
  induction abbreviations as [|abbr rest IH]; [reflexivity|].
  cbn [forallb] in Ha. apply andb_prop in Ha. destruct Ha as [Habbr Ha].
  cbn [fold_left]. unfold re_sub.
  rewrite sub_blank; [exact (IH Ha) | | exact Ht].
  intros prev c s Hc. now apply abbr_blank.
Qed.

Lemma split_blank_text (ahead : ascii -> bool) (s : str) :
  forall prev cur,
    match prev with Some p => isspace p = true | None => True end ->
    forallb isspace s = true ->
    re_split_from (Patterns.boundary ahead) 0 prev cur s = [rev cur ++ s].
Proof.
  induction s as [|c s IH]; intros prev cur Hprev H.
  - cbn [re_split_from]. now rewrite app_nil_r.
  - cbn [forallb] in H. apply andb_prop in H. destruct H as [Hc H].
    cbn [re_split_from].
    assert (Hm : Patterns.boundary ahead prev (c :: s) = None).
    { unfold Patterns.boundary. destruct prev as [p|]; [|reflexivity].
      assert (Hp : Patterns.is_end_punct p = false).
      { unfold Patterns.is_end_punct.
        destruct (eqb_char p ".") eqn:E1;
          [apply Facts.eqb_char_eq in E1; subst p; discriminate|].
        destruct (eqb_char p "!") eqn:E2;
          [apply Facts.eqb_char_eq in E2; subst p; discriminate|].
        destruct (eqb_char p "?") eqn:E3;
          [apply Facts.eqb_char_eq in E3; subst p; discriminate|].
        reflexivity. }
      now rewrite Hp. }
    rewrite Hm, (IH (Some c) (c :: cur) Hc H). cbn [rev].
    now rewrite <- app_assoc.
Qed.

Lemma blank_not_restored (text : str) :
  forallb isspace text = true -> restore text = [].
Proof.
  intro H. unfold restore. apply strip_blank.
  rewrite blank_iff. rewrite blank_iff in H.
  destruct (existsb notspace text) eqn:E; [discriminate|]. clear H.
  unfold replace.
  assert (Hid : replace_from PERIOD (lit ".") 0 text = text).
  { induction text as [|c text IH]; [reflexivity|].
    cbn [existsb] in E. apply orb_false_elim in E. destruct E as [Hc E].
    cbn [replace_from].
    assert (Hs : startswith PERIOD (c :: text) = false).
    { change PERIOD with ("<" :: lit "PERIOD>"). cbn [startswith].
      destruct (eqb_char "<" c) eqn:Eq; [|reflexivity].
      apply Facts.eqb_char_eq in Eq. subst c. discriminate. }
    rewrite Hs. f_equal. exact (IH E). }
  rewrite Hid, E. reflexivity.
Qed.

Lemma doc_blank (text : str) :
  forallb isspace text = true -> DocumentSummary.split_sentences text = [].
Proof.
  intro H. unfold DocumentSummary.split_sentences. cbv zeta.
  rewrite mask_blank by (reflexivity || exact H).
  unfold re_split. rewrite split_blank_text by (exact I || exact H).
  cbn [rev app map filter]. now rewrite blank_not_restored.
Qed.

Lemma text_blank (text : str) :
  forallb isspace text = true -> TextSummary.split_into_sentences text = [].
Proof.
  intro H. unfold TextSummary.split_into_sentences. cbv zeta.
  rewrite mask_blank by (reflexivity || exact H).
  unfold re_split. rewrite split_blank_text by (exact I || exact H).
  cbn [rev app map filter]. now rewrite strip_blank.
Qed.

End SentenceFacts.

(** X16 (no sentence without a word).  If either segmenter finds a sentence
    in a text, the text has at least one word.  The handlers compute the
    compression ratio only after the segmenter has found three sentences,
    so the word count they divide by is never zero. *)
Theorem sentences_need_words :
  forall text : str,
    1 <= length (DocumentSummary.split_sentences text)
         + length (TextSummary.split_into_sentences text) ->
    1 <= length (split text).
Proof.
  intros text H.
  destruct (split text) as [|w ws] eqn:E; [|cbn [length]; lia].
  apply SentenceFacts.split_nil in E.
  rewrite (SentenceFacts.doc_blank text E), (SentenceFacts.text_blank text E) in H.
  cbn in H. lia.
Qed.

(** The text of three sentences. *)
Lemma sentences_need_words_witness :
  1 <= length (DocumentSummary.split_sentences Examples.short_text)
       + length (TextSummary.split_into_sentences Examples.short_text)
  /\ 1 <= length (split Examples.short_text).
Proof.
  assert (H : 1 <= length (DocumentSummary.split_sentences Examples.short_text)
                   + length (TextSummary.split_into_sentences Examples.short_text))
    by (vm_compute; lia).
  split; [exact H|].
  exact (sentences_need_words Examples.short_text H).
Defined.

(** X17 (what the segmenters return).  Every sentence of the document
    segmenter is trimmed, has more than 15 characters and at least four
    words, and starts with an upper-case letter or a digit.  Every sentence
    of the text segmenter is trimmed and not empty (the scorer reads its
    first character), although it is filtered before the placeholders are
    put back. *)
Theorem segmenters_return_sentences :
  forall text : str,
    Forall
      (fun sentence =>
         strip sentence = sentence
         /\ 15 < length sentence
         /\ 4 <= length (split sentence)
         /\ exists first rest,
              sentence = first :: rest /\ (isupper first || isdigit first) = true)
      (DocumentSummary.split_sentences text)
    /\ Forall (fun sentence => strip sentence = sentence /\ sentence <> [])
         (TextSummary.split_into_sentences text).
Proof.
  intro text. split; apply Forall_forall; intros sentence Hin.
  - unfold DocumentSummary.split_sentences in Hin. cbv zeta in Hin.
    apply filter_In in Hin. destruct Hin as [Hin Hvalid].
    apply in_map_iff in Hin. destruct Hin as [piece [<- _]].
    unfold DocumentSummary.valid in Hvalid.
    apply andb_prop in Hvalid. destruct Hvalid as [Hvalid Hfirst].
    apply andb_prop in Hvalid. destruct Hvalid as [Hlen Hwords].
    split; [apply NormalFacts.strip_idem|].
    split; [now apply Nat.ltb_lt in Hlen|].
    split; [now apply Nat.leb_le in Hwords|].
    destruct (restore piece) as [|first rest]; [discriminate|].
    exists first, rest. split; [reflexivity | exact Hfirst].
  - unfold TextSummary.split_into_sentences in Hin. cbv zeta in Hin.
    apply in_map_iff in Hin. destruct Hin as [piece [<- Hin]].
    apply filter_In in Hin. destruct Hin as [_ Hlen].
    split; [apply NormalFacts.strip_idem|].
    apply SentenceFacts.restore_visible.
    apply Nat.ltb_lt in Hlen. intro E. rewrite E in Hlen. cbn in Hlen. lia.
Qed.

(** X18 (reading time).  [max(1, round(words / 200))] never goes down when
    the number of words goes up, although [round] sends ties to the even
    neighbour. *)
Theorem reading_time_monotone :
  forall words words' : nat,
    words <= words' ->
    reading_time_minutes words <= reading_time_minutes words'.
Proof.
  intros n n' Hle. unfold reading_time_minutes.
  apply Nat.max_le_compat_l.
  destruct (round_div_nearest n 200 ltac:(lia)) as [H1 [H2 H3]].
  destruct (round_div_nearest n' 200 ltac:(lia)) as [H1' [H2' H3']].
  set (r := round_div n 200) in *. set (r' := round_div n' 200) in *.
  destruct (le_lt_dec r r') as [|Hgt]; [assumption | exfalso].
  assert (Hr : r = S r') by lia.
  assert (E1 : Nat.even r = true) by (apply H3; lia).
  assert (E2 : Nat.even r' = true) by (apply H3'; lia).
  rewrite Hr, Nat.even_succ, <- Nat.negb_even, E2 in E1. discriminate.
Qed.

(** 299 words round to one minute, 300 to two. *)
Lemma reading_time_monotone_witness :
  299 <= 300 /\ reading_time_minutes 299 <= reading_time_minutes 300.
Proof.
  split; [lia|]. exact (reading_time_monotone 299 300 ltac:(lia)).
Defined.

Module ScoreFacts.

Lemma fold_nonneg (l : list Q) :
  forall acc, (0 <= acc)%Q -> Forall (fun x => (0 <= x)%Q) l ->
              (0 <= fold_left Qplus l acc)%Q.
Proof.
  induction l as [|x l IH]; intros acc Hacc H; [exact Hacc|].
  apply Forall_cons_iff in H. destruct H as [Hx H].
  cbn [fold_left]. apply IH; [lra | exact H].
Qed.

Lemma capped (x : Q) : (0 <= x)%Q -> (0 <= Qmin x 1.0 <= 1)%Q.
Proof.
  intro H. split.
  - apply Q.min_glb; [exact H | lra].
  - apply (Qle_trans _ _ _ (Q.le_min_r _ _)). lra.
Qed.

Lemma position_range (idx total : nat) :
  (0 <= DocumentSummary.position_score idx total <= 1)%Q.
Proof.
  unfold DocumentSummary.position_score. cbv zeta.
  destruct (Qlt_bool _ _); [lra|]. destruct (Qlt_bool _ _); lra.
Qed.

Lemma length_range (n : nat) : (0 <= DocumentSummary.length_score n <= 1)%Q.
Proof.
  unfold DocumentSummary.length_score.
  destruct (_ && _); [lra|]. destruct (_ || _); lra.
Qed.

Lemma keyword_nonneg (sent : str) : (0 <= DocumentSummary.keyword_score sent)%Q.
Proof.
  unfold DocumentSummary.keyword_score, Qsum.
  apply fold_nonneg; [lra|].
  apply Forall_forall. intros x Hx. apply in_map_iff in Hx.
  destruct Hx as [kw [<- _]]. lra.
Qed.

Lemma uniform_range (n : nat) :
  Forall (fun p : nat * Q => (0 <= snd p <= 1)%Q) (uniform_scores n).
Proof.
  apply Forall_forall. intros p Hp. unfold uniform_scores in Hp.
  apply in_map_iff in Hp. destruct Hp as [i [<- _]]. cbn [snd]. lra.
Qed.

Section Bounded.
Variable sk : Sklearn.
Hypothesis row_sum_nonneg : forall tfidf idx, (0 <= row_sum sk tfidf idx)%Q.
Hypothesis similarity_range :
  forall tfidf idx sim,
    centroid_similarity sk tfidf idx = Some sim -> (0 <= sim <= 1)%Q.

Lemma sentence_range (tfidf : tfidf_matrix sk) (total idx : nat) (sent : str)
    (score : Q) :
  DocumentSummary.sentence_score sk tfidf total idx sent = Some score ->
  (0 <= score <= 1)%Q.
Proof.
  unfold DocumentSummary.sentence_score. cbv zeta. intro H.
  apply ScorerFacts.bind_Some in H. destruct H as [sim [Hsim H]].
  injection H as <-.
  pose proof (similarity_range _ _ _ Hsim) as Hs.
  pose proof (position_range idx total) as Hp.
  pose proof (length_range (length (split sent))) as Hl.
  pose proof (capped _ (keyword_nonneg sent)) as Hk.
  assert (Ht : (0 <= Qmin (row_sum sk tfidf idx / 10.0) 1.0 <= 1)%Q).
  { apply capped. pose proof (row_sum_nonneg tfidf idx) as Hr.
    unfold Qdiv. apply Qmult_le_0_compat; [exact Hr|].
    apply Qinv_le_0_compat. lra. }
  set (t := Qmin (row_sum sk tfidf idx / 10.0) 1.0) in *.
  set (p := DocumentSummary.position_score idx total) in *.
  set (l := DocumentSummary.length_score (length (split sent))) in *.
  set (k := Qmin (DocumentSummary.keyword_score sent) 1.0) in *.
  clearbody t p l k. lra.
Qed.

Lemma loop_range (tfidf : tfidf_matrix sk) (total : nat) (rest : list str) :
  forall idx scores,
    DocumentSummary.score_loop sk tfidf total idx rest = Some scores ->
    Forall (fun p : nat * Q => (0 <= snd p <= 1)%Q) scores.
Proof.
  induction rest as [|sent rest IH]; cbn [DocumentSummary.score_loop];
    intros idx scores H.
  - injection H as <-. constructor.
  - apply ScorerFacts.bind_Some in H. destruct H as [score [Hscore H]].
    apply ScorerFacts.bind_Some in H. destruct H as [scores' [Hl H]].
    injection H as <-. constructor.
    + exact (sentence_range _ _ _ _ _ Hscore).
    + exact (IH _ _ Hl).
Qed.

End Bounded.

(** *** Equal scores *)

Lemma sorted_uniform (n : nat) :
  sorted_by_value_desc (uniform_scores n) = uniform_scores n.
Proof.
  unfold sorted_by_value_desc, uniform_scores.
  induction (seq 0 n) as [|i l IH]; [reflexivity|].
  cbn [map sorted_by]. rewrite IH. destruct l; reflexivity.
Qed.

Lemma sorted_increasing (l : list nat) : StronglySorted lt l -> sorted l = l.
Proof.
  intro H. apply AssemblyFacts.lt_sorted_unique.
  - apply Facts.sorted_lt. now apply PointFacts.lt_sorted_NoDup.
  - exact H.
  - intro x. apply Facts.sorted_In.
Qed.

Lemma firstn_positions (target : nat) :
  forall a n, firstn target (seq a n) = seq a (Nat.min target n).
Proof.
  induction target as [|t IH]; intros a n; [reflexivity|].
  destruct n as [|n]; [reflexivity|].
  cbn [seq firstn Nat.min]. f_equal. apply IH.
Qed.

Lemma selected_uniform (n target : nat) :
  DocumentSummary.selected_idx (uniform_scores n) target = seq 0 (Nat.min target n).
Proof.
  unfold DocumentSummary.selected_idx, slice_to.
  rewrite sorted_uniform. unfold uniform_scores.
  rewrite <- firstn_map, map_map. cbn [fst]. rewrite map_id, firstn_positions.
  apply sorted_increasing, Facts.seq_increasing.
Qed.

Lemma getitem_leading (l : list str) (target : nat) :
  map (getitem l) (seq 0 (Nat.min target (length l))) = firstn target l.
Proof.
  revert target. induction l as [|x l IH]; intro target.
  - rewrite Nat.min_0_r. now rewrite firstn_nil.
  - destruct target as [|t]; [reflexivity|].
    cbn [length Nat.min seq map firstn]. f_equal.
    rewrite <- seq_shift, map_map. exact (IH t).
Qed.

End ScoreFacts.

(** X19 (scores of the document scorer).  When the row sums of the TF-IDF
    matrix are not negative and the cosine similarities lie between 0 and 1,
    as scikit-learn returns them, every score of
    [calculate_sentence_importance], computed exactly, lies between 0 and 1:
    the five weights add up to 1 and each factor is capped at 1. *)
Theorem importance_scores_normalised :
  forall (sk : Sklearn) (sentences : list str) (text : str),
    (forall tfidf idx, (0 <= row_sum sk tfidf idx)%Q) ->
    (forall tfidf idx sim,
       centroid_similarity sk tfidf idx = Some sim -> (0 <= sim <= 1)%Q) ->
    Forall (fun p : nat * Q => (0 <= snd p <= 1)%Q)
      (DocumentSummary.calculate_sentence_importance sk sentences text).
Proof.
  intros sk sentences text Hrow Hsim.
  unfold DocumentSummary.calculate_sentence_importance,
    DocumentSummary.importance_body, try_except.
  destruct (negb (sklearn_imports sk)); [apply ScoreFacts.uniform_range|].
  destruct (length sentences <? 3); [apply ScoreFacts.uniform_range|].
  destruct (fit_transform sk sentences) as [tfidf|]; cbn [bind];
    [|apply ScoreFacts.uniform_range].
  destruct (DocumentSummary.score_loop sk tfidf (length sentences) 0 sentences)
    as [scores|] eqn:E; [|apply ScoreFacts.uniform_range].
  exact (ScoreFacts.loop_range sk Hrow Hsim _ _ _ _ _ E).
Qed.

(** The vectorizer with rising row sums and similarity 1/2. *)
Lemma importance_scores_normalised_witness :
  Forall (fun p : nat * Q => (0 <= snd p <= 1)%Q)
    (DocumentSummary.calculate_sentence_importance
       Examples.sklearn_rising Examples.three_sentences []).
Proof.
  apply importance_scores_normalised.
  - intros tfidf idx. cbn [row_sum Examples.sklearn_rising Examples.sklearn_rows].
    destruct idx as [|[|[|idx]]]; cbn [nth fst]; try lra.
    destruct idx; cbn [nth fst]; lra.
  - intros tfidf idx sim H.
    cbn [centroid_similarity Examples.sklearn_rising Examples.sklearn_rows] in H.
    injection H as <-.
    destruct idx as [|[|[|idx]]]; cbn [nth snd]; try lra.
    destruct idx; cbn [nth snd]; lra.
Defined.

(** X20 (summaries without scikit-learn).  When scikit-learn is missing,
    when there are fewer than three sentences or when the vectorizer
    raises, all scores are equal and the stable sort keeps the order of the
    text: the main summary of a document is its first [target] sentences,
    the executive summary its first two, and the key points and bullet
    points come from the first [count] sentences. *)
Theorem fallback_takes_leading_sentences :
  forall (sk : Sklearn) (sentences : list str) (text level : str) (count : nat),
    sklearn_imports sk = false \/ length sentences < 3
    \/ fit_transform sk sentences = None ->
    let target := DocumentSummary.target_count level (length sentences) in
    let result :=
      DocumentSummary.generate_professional_summary sk sentences text level in
    DocumentSummary.main_summary result
    = join ["010"; "010"] (map (join (lit " ")) (chunks 4 (firstn target sentences)))
    /\ DocumentSummary.executive result = join (lit " ") (firstn 2 sentences)
    /\ DocumentSummary.generate_key_points sk sentences text count
       = map DocumentSummary.key_point (firstn count sentences)
    /\ TextSummary.generate_complete_bullet_points sk sentences text count
       = map TextSummary.bullet_point (firstn count sentences).
Proof.
  intros sk sentences text level count H target result.
  assert (Hdoc : DocumentSummary.calculate_sentence_importance sk sentences text
                 = uniform_scores (length sentences)).
  { destruct H as [H | [H | H]].
    - apply ScorerFacts.doc_body_raises.
      unfold DocumentSummary.importance_body. now rewrite H.
    - now apply ScorerFacts.doc_few_sentences.
    - destruct (le_lt_dec 3 (length sentences)) as [Hn|Hn];
        [|now apply ScorerFacts.doc_few_sentences].
      apply ScorerFacts.doc_body_raises.
      unfold DocumentSummary.importance_body. rewrite H.
      destruct (negb _); [reflexivity|].
      destruct (_ <? _) eqn:E; [apply Nat.ltb_lt in E; lia | reflexivity]. }
  assert (Htext : TextSummary.calculate_advanced_scores sk sentences text
                  = uniform_scores (length sentences)).
  { destruct H as [H | [H | H]].
    - apply ScorerFacts.text_body_raises.
      unfold TextSummary.advanced_body. now rewrite H.
    - now apply ScorerFacts.text_few_sentences.
    - destruct (le_lt_dec 3 (length sentences)) as [Hn|Hn];
        [|now apply ScorerFacts.text_few_sentences].
      apply ScorerFacts.text_body_raises.
      unfold TextSummary.advanced_body. rewrite H.
      destruct (negb _); [reflexivity|].
      destruct (_ <? _) eqn:E; [apply Nat.ltb_lt in E; lia | reflexivity]. }
  split; [|split; [|split]].
  - unfold result, DocumentSummary.generate_professional_summary,
      DocumentSummary.summary_of_scores.
    cbn [DocumentSummary.main_summary]. fold target.
    rewrite Hdoc, ScoreFacts.selected_uniform, ScoreFacts.getitem_leading.
    reflexivity.
  - unfold result, DocumentSummary.generate_professional_summary,
      DocumentSummary.summary_of_scores.
    cbn [DocumentSummary.executive]. rewrite Hdoc.
    change (DocumentSummary.exec_idx ?s) with (DocumentSummary.selected_idx s 2).
    rewrite ScoreFacts.selected_uniform, ScoreFacts.getitem_leading.
    reflexivity.
  - unfold DocumentSummary.generate_key_points,
      DocumentSummary.key_points_of_scores.
    rewrite Hdoc, ScoreFacts.selected_uniform.
    rewrite <- (map_map (getitem sentences) DocumentSummary.key_point).
    now rewrite ScoreFacts.getitem_leading.
  - unfold TextSummary.generate_complete_bullet_points.
    rewrite PointFacts.bullet_points_selected
      by apply ScorerFacts.text_scores_total.
    rewrite Htext, ScoreFacts.selected_uniform.
    rewrite <- (map_map (getitem sentences) TextSummary.bullet_point).
    replace (Nat.min (Nat.min count (Nat.max 1 (length sentences)))
               (length sentences))
      with (Nat.min count (length sentences)) by lia.
    now rewrite ScoreFacts.getitem_leading.
Qed.

(** Without scikit-learn the two key points are the first two sentences. *)
Lemma fallback_takes_leading_sentences_witness :
  sklearn_imports Examples.sklearn_missing = false
  /\ DocumentSummary.generate_key_points
       Examples.sklearn_missing Examples.three_sentences [] 2
     = map DocumentSummary.key_point (firstn 2 Examples.three_sentences).
Proof.
  split; [reflexivity|].
  exact (proj1 (proj2 (proj2
           (fallback_takes_leading_sentences
              Examples.sklearn_missing Examples.three_sentences []
              (lit "brief") 2 (or_introl eq_refl))))).
Defined.

Module ExtractionFacts.
Import DocumentSummary.

Lemma pdf_loop_spec (pdf : list str) :
  forall number full_text pages_text,
    let extracted := pdf_loop number full_text pages_text pdf in
    fst extracted
    = full_text ++ concat (map (fun text => text ++ ["010"; "010"]) pdf)
    /\ map page_num (snd extracted)
       = map page_num pages_text ++ seq (number + 1) (length pdf)
    /\ map page_text (snd extracted) = map page_text pages_text ++ pdf
    /\ map page_word_count (snd extracted)
       = map page_word_count pages_text
         ++ map (fun text => length (split text)) pdf.
Proof.
  induction pdf as [|text rest IH]; intros number full_text pages_text.
  - cbn. now rewrite !app_nil_r.
  - cbn [pdf_loop]. cbv zeta.
    destruct (IH (S number) (full_text ++ text ++ ["010"; "010"])
                (pages_text
                 ++ [{| page_num := number + 1;
                        page_text := text;
                        page_word_count := length (split text) |}]))
      as [H1 [H2 [H3 H4]]].
    rewrite H1, H2, H3, H4, !map_app. cbn [map concat length seq].
    rewrite <- !app_assoc. cbn [app].
    replace (S number + 1) with (S (number + 1)) by lia.
    repeat split; reflexivity.
Qed.

Lemma split_pages (pdf : list str) :
  split (concat (map (fun text => text ++ ["010"; "010"]) pdf))
  = concat (map split pdf).
Proof.
  unfold split. induction pdf as [|text rest IH]; [reflexivity|].
  cbn [map concat]. rewrite <- app_assoc.
  change (["010"; "010"] ++ ?x) with ("010" :: ["010"] ++ x).
  rewrite AssemblyFacts.split_from_space by reflexivity.
  rewrite AssemblyFacts.split_lstrip by reflexivity.
  now rewrite IH.
Qed.

Lemma blank_paragraphs (paragraphs : list str) :
  concat (map split
            (filter (fun text => negb (length (strip text) =? 0)) paragraphs))
  = concat (map split paragraphs).
Proof.
  induction paragraphs as [|text rest IH]; [reflexivity|].
  cbn [filter]. destruct (length (strip text) =? 0) eqn:E; cbn [negb map concat].
  - apply Nat.eqb_eq in E. apply length_zero_iff_nil in E.
    apply SentenceFacts.strip_nil in E.
    rewrite (SentenceFacts.split_blank _ E). exact IH.
  - now rewrite IH.
Qed.

End ExtractionFacts.

(** X21 (text extraction).  The text extracted from a PDF is its page texts,
    each followed by a blank line; the page records are numbered from 1 in
    page order and carry the page texts and their word counts; and the word
    count of the whole text is the sum of the word counts of the pages.
    The text extracted from a Word file has as many words as all its
    paragraphs together (paragraphs of white space only are left out), and
    comes as a single page. *)
Theorem extracted_pages_add_up :
  forall pdf paragraphs : list str,
    let words := fun text : str => length (split text) in
    (let (full_text, pages) := DocumentSummary.extract_text_from_pdf pdf in
     full_text = concat (map (fun text => text ++ ["010"; "010"]) pdf)
     /\ map DocumentSummary.page_num pages = seq 1 (length pdf)
     /\ map DocumentSummary.page_text pages = pdf
     /\ map DocumentSummary.page_word_count pages = map words pdf
     /\ words full_text = list_sum (map DocumentSummary.page_word_count pages))
    /\ (let (full_text, pages) := DocumentSummary.extract_text_from_word paragraphs in
        words full_text = list_sum (map words paragraphs)
        /\ pages
           = [{| DocumentSummary.page_num := 1;
                 DocumentSummary.page_text := full_text;
                 DocumentSummary.page_word_count := words full_text |}]).
Proof.
  intros pdf paragraphs words. split.
  - unfold DocumentSummary.extract_text_from_pdf.
    destruct (ExtractionFacts.pdf_loop_spec pdf 0 [] []) as [H1 [H2 [H3 H4]]].
    destruct (DocumentSummary.pdf_loop 0 [] [] pdf) as [full_text pages].
    cbn [fst snd map app Nat.add] in H1, H2, H3, H4.
    split; [exact H1|]. split; [exact H2|]. split; [exact H3|].
    split; [exact H4|].
    rewrite H4, H1. unfold words.
    rewrite ExtractionFacts.split_pages, AssemblyFacts.length_concat_sum.
    now rewrite map_map.
  - unfold DocumentSummary.extract_text_from_word. cbv zeta.
    split; [|reflexivity]. unfold words.
    rewrite AssemblyFacts.split_join by (discriminate || reflexivity).
    rewrite ExtractionFacts.blank_paragraphs, AssemblyFacts.length_concat_sum.
    now rewrite map_map.
Qed.

Module WordFacts.
Import PatternFacts SpacingFacts NormalFacts SentenceFacts.

(** *** Counting words *)

Lemma split_from_words (s : str) :
  forall cur,
    length (split_from cur s)
    = words_from (match cur with [] => false | _ => true end) s.
Proof.
  induction s as [|c s IH]; intro cur; cbn [split_from words_from].
  - destruct cur; reflexivity.
  - destruct (isspace c).
    + destruct cur; cbn [length]; now rewrite IH.
    + now rewrite IH.
Qed.

Lemma split_words (s : str) : length (split s) = words_from false s.
Proof. apply split_from_words. Qed.

Lemma words_inword (s : str) : words_from false s <= words_from true s.
Proof. destruct s as [|c s]; cbn [words_from]; [lia|]. destruct (isspace c); lia. Qed.

(** After a visible text the scan is inside a word. *)
Lemma words_visible (a : str) :
  a <> [] -> forallb notspace a = true ->
  forall b s, words_from b (a ++ s) = words_from true s.
Proof.
  induction a as [|c a IH]; intros Hne Ha b s; [contradiction|].
  cbn [forallb] in Ha. apply andb_prop in Ha. destruct Ha as [Hc Ha].
  cbn [app words_from]. unfold notspace in Hc.
  destruct (isspace c); [discriminate|].
  destruct a as [|d a]; [reflexivity|]. exact (IH ltac:(discriminate) Ha true s).
Qed.

(** A text that ends with a visible character [d], whatever comes before. *)
Lemma words_after (x : str) (d : ascii) :
  notspace d = true ->
  forall b s, words_from true s <= words_from b (x ++ d :: s).
Proof.
  intro Hd. unfold notspace in Hd.
  induction x as [|c x IH]; intros b s; cbn [app words_from].
  - destruct (isspace d); [discriminate | lia].
  - destruct (isspace c).
    + specialize (IH false s). lia.
    + exact (IH true s).
Qed.

Lemma words_space (a : str) (w : ascii) :
  isspace w = true ->
  forall b s, words_from b (a ++ w :: s) = words_from b a + words_from false s.
Proof.
  intro Hw. induction a as [|c a IH]; intros b s; cbn [app words_from].
  - rewrite Hw. destruct b; lia.
  - destruct (isspace c); [rewrite IH; lia | apply IH].
Qed.

Lemma words_lstrip (s : str) : words_from false (lstrip s) = words_from false s.
Proof.
  induction s as [|c s IH]; [reflexivity|]. cbn [lstrip words_from].
  destruct (isspace c) eqn:E; [exact IH|]. cbn [words_from]. now rewrite E.
Qed.

Lemma words_blank_tail (a r : str) :
  forallb isspace r = true ->
  forall b, words_from b (a ++ r) = words_from b a.
Proof.
  intro Hr. induction a as [|c a IH]; intro b; cbn [app words_from].
  - revert b. induction r as [|w r IHr]; intro b; [reflexivity|].
    cbn [forallb] in Hr. apply andb_prop in Hr. destruct Hr as [Hw Hr].
    cbn [words_from]. rewrite Hw, (IHr Hr false). cbn [words_from].
    destruct b; lia.
  - destruct (isspace c); now rewrite IH.
Qed.

Lemma rstrip_blank_tail (s : str) :
  exists r, s = rstrip s ++ r /\ forallb isspace r = true.
Proof.
  unfold rstrip.
  assert (H : forall t, exists l, t = l ++ lstrip t /\ forallb isspace l = true).
  { induction t as [|c t IH]; [exists []; auto|]. cbn [lstrip].
    destruct (isspace c) eqn:E.
    - destruct IH as [l [Hl Hb]]. exists (c :: l). split.
      + cbn [app]. now rewrite <- Hl.
      + cbn [forallb]. now rewrite E.
    - exists []. auto. }
  destruct (H (rev s)) as [l [Hl Hb]]. exists (rev l). split.
  - rewrite <- rev_app_distr, <- Hl. now rewrite rev_involutive.
  - rewrite forallb_forall in *. intros x Hx. apply Hb. now apply in_rev.
Qed.

Lemma words_strip (s : str) : words_from false (strip s) = words_from false s.
Proof.
  unfold strip. rewrite <- (words_lstrip s).
  destruct (rstrip_blank_tail (lstrip s)) as [r [Hr Hb]].
  rewrite Hr at 2. now rewrite words_blank_tail.
Qed.

(** *** [replace] of one visible text by another *)

Section Replacing.
Variables old new : str.
Hypothesis old_visible : forallb notspace old = true.
Hypothesis old_nonempty : old <> [].
Hypothesis new_visible : forallb notspace new = true.
Hypothesis new_nonempty : new <> [].

Lemma replaced_words (s : str) :
  (forall skip,
     words_from true (replace_from old new skip s) = words_from true (skipn skip s))
  /\ (forall b, words_from b (replace_from old new 0 s) = words_from b s).
Proof.
  induction s as [|c s [IHa IHb]].
  { split; [intros [|k] | intros b]; reflexivity. }
  assert (Hb : forall b, words_from b (replace_from old new 0 (c :: s))
                         = words_from b (c :: s)).
  { intro b. cbn [replace_from].
    destruct (startswith old (c :: s)) eqn:E.
    - rewrite (words_visible new new_nonempty new_visible), IHa.
      pose proof (startswith_split _ _ E) as Hs.
      assert (Hlen : length old = S (length old - 1)).
      { destruct old; [contradiction | cbn [length]; lia]. }
      rewrite Hlen in Hs. cbn [skipn] in Hs.
      transitivity (words_from b (old ++ skipn (length old - 1) s));
        [|now rewrite <- Hs].
      now rewrite (words_visible old old_nonempty old_visible).
    - cbn [words_from]. destruct (isspace c); now rewrite IHb. }
  split; [|exact Hb].
  intros [|k]; [apply Hb | cbn [replace_from skipn]; apply IHa].
Qed.

End Replacing.

Lemma restore_words (piece : str) :
  words_from false (restore piece) = words_from false piece.
Proof.
  unfold restore, replace. rewrite words_strip.
  apply (replaced_words PERIOD (lit ".")); reflexivity || discriminate.
Qed.

(** *** [re.sub] of a text that ends visibly by a visible text *)

Section Substituting.
Variable m : matcher.
Variable repl : str.
Hypothesis repl_visible : forallb notspace repl = true.
Hypothesis repl_nonempty : repl <> [].
Hypothesis m_visible_end :
  forall prev s k,
    m prev s = Some (S k) ->
    exists body d rest,
      s = body ++ d :: rest /\ length body = k /\ notspace d = true.

Lemma substituted_words (s : str) :
  (forall skip prev,
     words_from true (sub_from m repl skip prev s)
     <= words_from true (skipn skip s))
  /\ (forall prev b, words_from b (sub_from m repl 0 prev s) <= words_from b s).
Proof.
  induction s as [|c s [IHa IHb]].
  { split; [intros [|k] prev | intros prev b]; cbn; lia. }
  assert (Hb : forall prev b, words_from b (sub_from m repl 0 prev (c :: s))
                              <= words_from b (c :: s)).
  { intros prev b. cbn [sub_from].
    assert (Hcopy : words_from b (c :: sub_from m repl 0 (Some c) s)
                    <= words_from b (c :: s)).
    { cbn [words_from]. destruct (isspace c).
      - specialize (IHb (Some c) false). lia.
      - apply IHb. }
    destruct (m prev (c :: s)) as [[|k]|] eqn:E; [exact Hcopy | | exact Hcopy].
    destruct (m_visible_end _ _ _ E) as [body [d [rest [Hs [Hlen Hd]]]]].
    rewrite (words_visible repl repl_nonempty repl_visible).
    etransitivity; [apply IHa|].
    destruct body as [|c' body]; cbn [app] in Hs; injection Hs as Hc Hs;
      cbn [length] in Hlen; subst c k s.
    - cbn [skipn]. exact (words_after [] d Hd b rest).
    - replace (skipn (S (length body)) (body ++ d :: rest)) with rest.
      + exact (words_after (c' :: body) d Hd b rest).
      + rewrite skipn_app, skipn_all2 by lia.
        replace (S (length body) - length body) with 1 by lia. reflexivity. }
  split; [|exact Hb].
  intros [|k] prev; [apply Hb | cbn [sub_from skipn]; apply IHa].
Qed.

End Substituting.

(** *** Masking the abbreviations adds no word *)

Lemma abbr_body_period (abbr : str) :
  forall s,
    Patterns.abbr_body abbr s = true ->
    exists body rest, s = body ++ "." :: rest /\ length body = length abbr.
Proof.
  induction abbr as [|p abbr IH]; intros s H; destruct s as [|c s];
    cbn [Patterns.abbr_body] in H; try discriminate.
  - apply Facts.eqb_char_eq in H. subst c. exists [], s. auto.
  - apply andb_prop in H. destruct H as [_ H].
    destruct (IH s H) as [body [rest [-> Hlen]]].
    exists (c :: body), rest. cbn [app length]. auto.
Qed.

Lemma abbr_visible_end (abbr : str) (prev : option ascii) (s : str) (k : nat) :
  Patterns.abbr_period abbr prev s = Some (S k) ->
  exists body d rest, s = body ++ d :: rest /\ length body = k /\ notspace d = true.
Proof.
  unfold Patterns.abbr_period. intro H.
  destruct (word_boundary prev s && Patterns.abbr_body abbr s) eqn:E;
    [|discriminate].
  injection H as <-. apply andb_prop in E. destruct E as [_ E].
  destruct (abbr_body_period _ _ E) as [body [rest [-> Hlen]]].
  exists body, ".", rest. auto.
Qed.

Lemma mask_words (abbreviations : list str) :
  forallb (forallb notspace) abbreviations = true ->
  forall text,
    words_from false (mask_abbreviations abbreviations text)
    <= words_from false text.
Proof.
  unfold mask_abbreviations.
  induction abbreviations as [|abbr rest IH]; intros Ha text; [cbn; lia|].
  cbn [forallb] in Ha. apply andb_prop in Ha. destruct Ha as [Habbr Ha].
  cbn [fold_left]. etransitivity; [apply IH, Ha|].
  unfold re_sub.
  apply (substituted_words (Patterns.abbr_period abbr) (abbr ++ PERIOD)).
  - rewrite forallb_app, Habbr. reflexivity.
  - destruct abbr; discriminate.
  - apply abbr_visible_end.
Qed.

(** *** Splitting at white space keeps the words *)

Lemma list_sum_cons (x : nat) (l : list nat) : list_sum (x :: l) = x + list_sum l.
Proof. reflexivity. Qed.

Section Splitting.
Variable m : matcher.
Hypothesis m_blank :
  forall prev s k, m prev s = Some (S k) -> S k = run isspace s.

Lemma pieces_words (s : str) :
  (forall skip prev,
     skip <= run isspace s ->
     list_sum (map (words_from false) (re_split_from m skip prev [] s))
     = words_from false s)
  /\ (forall prev cur,
        list_sum (map (words_from false) (re_split_from m 0 prev cur s))
        = words_from false (rev cur ++ s)).
Proof.
  induction s as [|c s [IHa IHb]].
  { split; [intros skip prev _ | intros prev cur]; cbn [re_split_from map];
      rewrite list_sum_cons, ?app_nil_r; cbn [list_sum fold_right rev]; lia. }
  assert (Hb : forall prev cur,
            list_sum (map (words_from false) (re_split_from m 0 prev cur (c :: s)))
            = words_from false (rev cur ++ c :: s)).
  { intros prev cur. cbn [re_split_from].
    assert (Hcopy :
      list_sum (map (words_from false) (re_split_from m 0 (Some c) (c :: cur) s))
      = words_from false (rev cur ++ c :: s)).
    { rewrite IHb. cbn [rev]. now rewrite <- app_assoc. }
    destruct (m prev (c :: s)) as [[|k]|] eqn:E; [exact Hcopy | | exact Hcopy].
    apply m_blank in E. cbn [run] in E.
    destruct (isspace c) eqn:Ec; [|discriminate].
    cbn [map]. rewrite list_sum_cons, IHa by lia.
    now rewrite (words_space (rev cur) c Ec). }
  split; [|intros prev cur; apply Hb].
  intros [|k] prev Hk; [exact (Hb prev []) |].
  cbn [run] in Hk. destruct (isspace c) eqn:Ec; [|lia].
  cbn [re_split_from]. rewrite IHa by lia.
  cbn [words_from]. now rewrite Ec.
Qed.

End Splitting.

Lemma boundary_blank (ahead : ascii -> bool) (prev : option ascii) (s : str)
    (k : nat) :
  Patterns.boundary ahead prev s = Some (S k) -> S k = run isspace s.
Proof.
  unfold Patterns.boundary. destruct prev as [p|]; [|discriminate].
  destruct (Patterns.is_end_punct p); [|discriminate].
  destruct (run isspace s) as [|n] eqn:E; [discriminate|].
  destruct (skipn (S n) s) as [|c rest]; [discriminate|].
  destruct (ahead c); [|discriminate]. now intros [= <-].
Qed.

(** *** Sums over chosen positions *)

Lemma sum_filter {A} (g : A -> nat) (p : A -> bool) (l : list A) :
  list_sum (map g (filter p l)) <= list_sum (map g l).
Proof.
  induction l as [|x l IH]; [cbn; lia|]. cbn [filter map].
  destruct (p x); cbn [map]; rewrite ?list_sum_cons; lia.
Qed.

Lemma sum_incl (g : nat -> nat) (idxs : list nat) :
  forall l, NoDup idxs -> incl idxs l ->
            list_sum (map g idxs) <= list_sum (map g l).
Proof.
  induction idxs as [|a idxs IH]; intros l Hnd Hincl; [cbn; lia|].
  inversion Hnd as [|? ? Ha Hnd']; subst.
  destruct (in_split a l (Hincl a (or_introl eq_refl))) as [l1 [l2 ->]].
  assert (Hrest : incl idxs (l1 ++ l2)).
  { intros x Hx. specialize (Hincl x (or_intror Hx)).
    apply in_app_or in Hincl. apply in_or_app.
    destruct Hincl as [H|[H|H]]; [now left | subst x; contradiction | now right]. }
  specialize (IH _ Hnd' Hrest).
  rewrite !map_app, !list_sum_app in *. cbn [map].
  rewrite !list_sum_cons. lia.
Qed.

Lemma sum_chosen (g : str -> nat) (l : list str) (idxs : list nat) :
  reading_order l idxs ->
  list_sum (map g (map (getitem l) idxs)) <= list_sum (map g l).
Proof.
  intros [Hsorted Hrange].
  rewrite map_map.
  etransitivity.
  - apply (sum_incl (fun i => g (getitem l i)) idxs (seq 0 (length l))).
    + now apply PointFacts.lt_sorted_NoDup.
    + intros i Hi. rewrite Forall_forall in Hrange. apply in_seq.
      specialize (Hrange i Hi). lia.
  - rewrite <- (map_map (getitem l) g), AssemblyFacts.getitem_all. lia.
Qed.

(** *** The sentences of a text have no more words than the text *)

Lemma doc_sentences_words (text : str) :
  list_sum (map (words_from false) (DocumentSummary.split_sentences text))
  <= words_from false text.
Proof.
  unfold DocumentSummary.split_sentences. cbv zeta.
  etransitivity; [apply sum_filter|].
  rewrite map_map.
  rewrite (map_ext _ (words_from false)) by exact restore_words.
  unfold re_split.
  rewrite (proj2 (pieces_words _ (boundary_blank is_AZ) _) None []).
  apply mask_words. reflexivity.
Qed.

Lemma text_sentences_words (text : str) :
  list_sum (map (words_from false) (TextSummary.split_into_sentences text))
  <= words_from false text.
Proof.
  unfold TextSummary.split_into_sentences. cbv zeta.
  rewrite map_map.
  rewrite (map_ext _ (words_from false)) by exact restore_words.
  etransitivity; [apply sum_filter|].
  unfold re_split.
  rewrite (proj2 (pieces_words _ (boundary_blank TextSummary.ahead) _) None []).
  apply mask_words. reflexivity.
Qed.

End WordFacts.

(** X22 (a summary is not longer than the text).  The main summary of
    either service has at most as many words as the cleaned text it was
    made from: masking the abbreviations merges words at most, the
    segmenter cuts at white space, putting the periods back changes no word,
    and every sentence is taken once.  So where the handlers report
    [summary_word_count] and [word_count], the first is at most the
    second. *)
Theorem summary_not_longer_than_text :
  forall (sk : Sklearn) (sumy : TextSummary.Sumy) (clean level : str)
         (target_count : nat),
    length (split (DocumentSummary.main_summary
                     (DocumentSummary.generate_professional_summary
                        sk (DocumentSummary.split_sentences clean) clean level)))
    <= length (split clean)
    /\ length (split (TextSummary.generate_ensemble_summary
                        sk sumy clean (TextSummary.split_into_sentences clean)
                        target_count))
       <= length (split clean).
Proof.
  intros sk sumy clean level target_count. split.
  - set (sentences := DocumentSummary.split_sentences clean).
    unfold DocumentSummary.generate_professional_summary,
      DocumentSummary.summary_of_scores.
    cbn [DocumentSummary.main_summary].
    rewrite AssemblyFacts.paragraphs_words.
    rewrite (map_ext _ (words_from false)) by exact WordFacts.split_words.
    etransitivity; [apply WordFacts.sum_chosen|].
    + apply (DocumentFacts.selected_reading_order _ _
               (ScorerFacts.doc_scores_total sk sentences clean)).
      reflexivity.
    + rewrite WordFacts.split_words. apply WordFacts.doc_sentences_words.
  - set (sentences := TextSummary.split_into_sentences clean).
    unfold TextSummary.generate_ensemble_summary.
    rewrite AssemblyFacts.joined_words.
    rewrite (map_ext _ (words_from false)) by exact WordFacts.split_words.
    assert (Hidx : exists idxs,
              reading_order sentences idxs
              /\ TextSummary.ensemble_sentences sk sumy clean sentences target_count
                 = map (getitem sentences) idxs).
    { unfold TextSummary.ensemble_sentences.
      destruct (TextSummary.sumy_parse sumy clean) as [doc|].
      - apply TextFacts.ensemble_reading_order.
      - eexists. split; [|reflexivity].
        apply (DocumentFacts.selected_reading_order _ _
                 (ScorerFacts.text_scores_total sk sentences clean)).
        reflexivity. }
    destruct Hidx as [idxs [Horder ->]].
    etransitivity; [apply WordFacts.sum_chosen, Horder|].
    rewrite WordFacts.split_words. apply WordFacts.text_sentences_words.
Qed.

Module ParagraphFacts.
Import PatternFacts SpacingFacts NormalFacts SentenceFacts.

(** *** Characters that pass through the segmenter *)

Section Characters.
Variable q : ascii -> bool.

Lemma sub_chars (m : matcher) (repl s : str) :
  forallb q repl = true ->
  forall skip prev,
    forallb q s = true -> forallb q (sub_from m repl skip prev s) = true.
Proof.
  intro Hrepl. induction s as [|c s IH]; intros skip prev H; [reflexivity|].
  cbn [forallb] in H. apply andb_prop in H. destruct H as [Hc H].
  cbn [sub_from]. destruct skip; [|now apply IH].
  destruct (m prev (c :: s)) as [[|k]|];
    rewrite ?forallb_app; cbn [forallb]; rewrite ?Hc, ?Hrepl; now apply IH.
Qed.

Lemma split_chars (m : matcher) (s : str) :
  forall skip prev cur,
    forallb q s = true -> forallb q cur = true ->
    forallb (forallb q) (re_split_from m skip prev cur s) = true.
Proof.
  induction s as [|c s IH]; intros skip prev cur H Hcur.
  - cbn [re_split_from forallb]. rewrite andb_true_r.
    rewrite forallb_forall in *. intros x Hx. apply Hcur. now apply in_rev.
  - cbn [forallb] in H. apply andb_prop in H. destruct H as [Hc H].
    assert (Hrev : forallb q (rev cur) = true).
    { rewrite forallb_forall in *. intros x Hx. apply Hcur. now apply in_rev. }
    cbn [re_split_from]. destruct skip; [|now apply IH].
    destruct (m prev (c :: s)) as [[|k]|]; cbn [forallb];
      rewrite ?Hrev; apply IH; cbn [forallb]; rewrite ?Hc; auto.
Qed.

Lemma replace_chars (old new s : str) :
  forallb q new = true ->
  forall skip, forallb q s = true -> forallb q (replace_from old new skip s) = true.
Proof.
  intro Hnew. induction s as [|c s IH]; intros skip H; [reflexivity|].
  cbn [forallb] in H. apply andb_prop in H. destruct H as [Hc H].
  cbn [replace_from]. destruct skip; [|now apply IH].
  destruct (startswith old (c :: s));
    rewrite ?forallb_app; cbn [forallb]; rewrite ?Hc, ?Hnew; now apply IH.
Qed.

Lemma strip_all (s : str) : forallb q s = true -> forallb q (strip s) = true.
Proof.
  intro H. rewrite forallb_forall in *. intros x Hx. apply H.
  assert (Hf : Forall (fun c => In c s) (strip s)).
  { apply strip_chars. apply Forall_forall. auto. }
  rewrite Forall_forall in Hf. exact (Hf x Hx).
Qed.

Lemma mask_chars (abbreviations : list str) :
  forallb (forallb q) abbreviations = true -> forallb q PERIOD = true ->
  forall text,
    forallb q text = true ->
    forallb q (mask_abbreviations abbreviations text) = true.
Proof.
  intros Ha Hp. unfold mask_abbreviations.
  induction abbreviations as [|abbr rest IH]; intros text H; [exact H|].
  cbn [forallb] in Ha. apply andb_prop in Ha. destruct Ha as [Habbr Ha].
  cbn [fold_left]. apply (IH Ha). unfold re_sub.
  apply sub_chars; [|exact H]. now rewrite forallb_app, Habbr, Hp.
Qed.

Lemma join_chars (sep : str) (l : list str) :
  forallb q sep = true -> forallb (forallb q) l = true ->
  forallb q (join sep l) = true.
Proof.
  intro Hsep. induction l as [|x l IH]; intro H; [reflexivity|].
  cbn [forallb] in H. apply andb_prop in H. destruct H as [Hx H].
  destruct l as [|y l]; [exact Hx|].
  change (join sep (x :: y :: l)) with (x ++ sep ++ join sep (y :: l)).
  rewrite !forallb_app, Hx, Hsep, (IH H). reflexivity.
Qed.

End Characters.

Lemma doc_sentences_chars (q : ascii -> bool) (text : str) :
  forallb (forallb q) DocumentSummary.abbreviations = true ->
  forallb q PERIOD = true -> q "." = true ->
  forallb q text = true ->
  forallb (forallb q) (DocumentSummary.split_sentences text) = true.
Proof.
  intros Ha Hp Hdot H. unfold DocumentSummary.split_sentences. cbv zeta.
  pose proof (split_chars q (Patterns.boundary is_AZ) _ 0 None []
                (mask_chars q _ Ha Hp text H) eq_refl) as Hpieces.
  fold (re_split (Patterns.boundary is_AZ)
          (mask_abbreviations DocumentSummary.abbreviations text)) in Hpieces.
  rewrite forallb_forall in Hpieces.
  apply forallb_forall. intros sentence Hin.
  apply filter_In in Hin. destruct Hin as [Hin _].
  apply in_map_iff in Hin. destruct Hin as [piece [<- Hpiece]].
  unfold restore. apply strip_all. unfold replace.
  apply replace_chars.
  { change (lit ".") with ["."]. cbn [forallb]. rewrite Hdot. reflexivity. }
  exact (Hpieces piece Hpiece).
Qed.

(** *** Counting the blank lines *)

Lemma count_plain (p : str) :
  forallb notnewline p = true ->
  forall s, count_from ["010"; "010"] 0 (p ++ s) = count_from ["010"; "010"] 0 s.
Proof.
  induction p as [|c p IH]; intros H s; [reflexivity|].
  cbn [forallb] in H. apply andb_prop in H. destruct H as [Hc H].
  cbn [app count_from startswith]. unfold notnewline in Hc.
  destruct (eqb_char "010" c); [discriminate|]. cbn [andb]. exact (IH H s).
Qed.

Lemma count_joined (paragraphs : list str) :
  forallb (forallb notnewline) paragraphs = true ->
  paragraphs <> [] ->
  count ["010"; "010"] (join ["010"; "010"] paragraphs) + 1 = length paragraphs.
Proof.
  unfold count. induction paragraphs as [|p rest IH]; intros H Hne; [contradiction|].
  cbn [forallb] in H. apply andb_prop in H. destruct H as [Hp H].
  destruct rest as [|p' rest].
  - cbn [join length]. rewrite <- (app_nil_r p), count_plain by exact Hp.
    reflexivity.
  - change (join ["010"; "010"] (p :: p' :: rest))
      with (p ++ ["010"; "010"] ++ join ["010"; "010"] (p' :: rest)).
    rewrite count_plain by exact Hp.
    cbn [app count_from startswith length Nat.sub].
    change (eqb_char "010" "010") with true. cbn [andb].
    specialize (IH H ltac:(discriminate)). cbn [length] in *. lia.
Qed.

End ParagraphFacts.

(** X23 (the paragraph count of the statistics).  For a document in which
    the segmenter finds a sentence, [main_summary.count('\n\n') + 1], the
    [paragraph_count] the handler reports, is the number of paragraphs of
    the main summary, [ceil(selected_count / 4)], and at least 1: no
    sentence of a cleaned document holds a line feed. *)
Theorem paragraph_count_matches :
  forall (sk : Sklearn) (text level : str),
    let clean := DocumentSummary.clean_text text in
    let sentences := DocumentSummary.split_sentences clean in
    let result :=
      DocumentSummary.generate_professional_summary sk sentences clean level in
    1 <= length sentences ->
    DocumentSummary.paragraph_count (DocumentSummary.main_summary result)
    = (DocumentSummary.selected_count result + 3) / 4
    /\ 1 <= DocumentSummary.paragraph_count (DocumentSummary.main_summary result).
Proof.
  intros sk text level clean sentences result Hn.
  assert (Hclean : forallb notnewline clean = true).
  { pose proof (SpacingFacts.single_spaced_blanks _ _
                  (SpacingFacts.clean_text_spacing text)) as Hb.
    fold clean in Hb. rewrite Forall_forall in Hb.
    apply forallb_forall. intros c Hc. unfold notnewline.
    destruct (eqb_char "010" c) eqn:E; [|reflexivity].
    apply Facts.eqb_char_eq in E. subst c.
    discriminate (Hb _ Hc eq_refl). }
  assert (Hsent : forallb (forallb notnewline) sentences = true).
  { apply ParagraphFacts.doc_sentences_chars; reflexivity || exact Hclean. }
  pose proof (ScorerFacts.doc_scores_total sk sentences clean) as Htable.
  unfold result, DocumentSummary.generate_professional_summary,
    DocumentSummary.summary_of_scores, DocumentSummary.paragraph_count.
  cbn [DocumentSummary.main_summary DocumentSummary.selected_count].
  set (scores := DocumentSummary.calculate_sentence_importance sk sentences clean)
    in *.
  set (target := DocumentSummary.target_count level (length sentences)).
  set (selected := map (getitem sentences)
                     (DocumentSummary.selected_idx scores target)).
  assert (Hlen : length selected = Nat.min target (length sentences)).
  { unfold selected. rewrite length_map.
    apply (DocumentFacts.selected_length _ _ Htable). }
  assert (Hchunks : length (chunks 4 selected) = (length selected + 3) / 4).
  { unfold chunks. rewrite AssemblyFacts.chunks_from_length by (cbn; lia).
    cbn [length]. f_equal. lia. }
  assert (Hpos : 1 <= (length selected + 3) / 4).
  { assert (4 <= target) by apply target_count_floor.
    apply (Nat.div_le_lower_bound _ 4 1); lia. }
  assert (Hselected : forallb (forallb notnewline) selected = true).
  { apply forallb_forall. intros s Hs. unfold selected in Hs.
    apply in_map_iff in Hs. destruct Hs as [i [<- Hi]].
    destruct (DocumentFacts.selected_reading_order _ _ Htable sentences target
                eq_refl) as [_ Hrange].
    rewrite Forall_forall in Hrange. specialize (Hrange i Hi).
    rewrite forallb_forall in Hsent. apply Hsent. now apply nth_In. }
  rewrite ParagraphFacts.count_joined.
  - rewrite length_map, Hchunks. split; [reflexivity | exact Hpos].
  - apply forallb_forall. intros p Hp.
    apply in_map_iff in Hp. destruct Hp as [chunk [<- Hchunk]].
    apply ParagraphFacts.join_chars; [reflexivity|].
    apply forallb_forall. intros s Hs.
    rewrite forallb_forall in Hselected. apply Hselected.
    unfold chunks in Hchunk.
    pose proof (AssemblyFacts.chunks_from_concat 4 selected 4 []) as Hc.
    cbn [rev app] in Hc. rewrite <- Hc. apply in_concat.
    exists chunk. split; assumption.
  - intro E. apply (f_equal (@length str)) in E.
    rewrite length_map, Hchunks in E. cbn [length] in E. lia.
Qed.

(** Three sentences at level brief: one paragraph. *)
Lemma paragraph_count_matches_witness :
  1 <= length (DocumentSummary.split_sentences
                 (DocumentSummary.clean_text Examples.short_text))
  /\ DocumentSummary.paragraph_count
       (DocumentSummary.main_summary
          (DocumentSummary.generate_professional_summary
             Examples.sklearn_rising
             (DocumentSummary.split_sentences
                (DocumentSummary.clean_text Examples.short_text))
             (DocumentSummary.clean_text Examples.short_text) (lit "brief")))
     = 1.
Proof.
  assert (H : 1 <= length (DocumentSummary.split_sentences
                             (DocumentSummary.clean_text Examples.short_text)))
    by (vm_compute; lia).
  split; [exact H|].
  etransitivity;
    [exact (proj1 (paragraph_count_matches Examples.sklearn_rising
                     Examples.short_text (lit "brief") H))
    | vm_compute; reflexivity].
Defined.

Module FactorFacts.
Import TextSummary.

Lemma Qnat_nonneg (n : nat) : (0 <= Qnat n)%Q.
Proof. unfold Qnat, Qle. cbn. lia. Qed.

Lemma capped_at (x cap : Q) :
  (0 <= x)%Q -> (0 <= cap)%Q -> (0 <= Qmin x cap <= cap)%Q.
Proof.
  intros Hx Hcap. split; [apply Q.min_glb; assumption | apply Q.le_min_r].
Qed.

Lemma position_factor_range (idx total : nat) : (0 <= position_score idx total <= 0.6)%Q.
Proof.
  unfold position_score.
  destruct (Qlt_bool _ _); [lra|]. destruct (Qlt_bool _ _); [lra|].
  destruct (Qlt_bool _ _); lra.
Qed.

Lemma length_factor_range (n : nat) : (0.4 <= length_score n <= 1)%Q.
Proof.
  unfold length_score.
  destruct (_ && _); [lra|]. destruct (_ || _); lra.
Qed.

Lemma indicators_nonneg : Forall (fun kw : str * Q => (0 <= snd kw)%Q) indicators.
Proof.
  unfold indicators. apply Forall_forall. intros kw H.
  apply in_map_iff in H. destruct H as [p [<- H]]. cbn [snd].
  repeat (destruct H as [<- | H]; [cbn [snd]; lra|]). destruct H.
Qed.

Lemma keyword_range (sentence_lower : str) :
  (0 <= keyword_score sentence_lower <= 0.6)%Q.
Proof.
  unfold keyword_score. apply capped_at; [|lra].
  assert (H : forall l acc,
            Forall (fun kw : str * Q => (0 <= snd kw)%Q) l -> (0 <= acc)%Q ->
            (0 <= fold_left
                    (fun acc kw =>
                       if contains (fst kw) sentence_lower
                       then (acc + snd kw)%Q else acc) l acc)%Q).
  { induction l as [|kw l IH]; intros acc Hl Hacc; [exact Hacc|].
    apply Forall_cons_iff in Hl. destruct Hl as [Hkw Hl].
    cbn [fold_left]. apply IH; [exact Hl|].
    destruct (contains _ _); lra. }
  apply H; [exact indicators_nonneg | lra].
Qed.

Lemma numeric_range (sentence : str) : (0 <= numeric_score sentence <= 0.2)%Q.
Proof. unfold numeric_score. destruct (existsb _ _); lra. Qed.

Lemma count_range (n : nat) (weight cap : Q) :
  (0 <= weight)%Q -> (0 <= cap)%Q ->
  (0 <= Qmin (Qnat n * weight) cap <= cap)%Q.
Proof.
  intros Hw Hcap. apply capped_at; [|exact Hcap].
  apply Qmult_le_0_compat; [apply Qnat_nonneg | exact Hw].
Qed.

Lemma qa_range (sentence : str) : (0 <= qa_score sentence <= 0.25)%Q.
Proof.
  unfold qa_score. destruct (endswith _ _); [lra|]. destruct (existsb _ _); lra.
Qed.

Lemma completeness_range (sentence : str) :
  (0 <= completeness_score sentence <= 0.15)%Q.
Proof. unfold completeness_score. cbv zeta. destruct (_ || _); lra. Qed.

Lemma tech_range (sentence_lower : str) : (0 <= tech_score sentence_lower <= 0.2)%Q.
Proof.
  unfold tech_score. apply capped_at; [|lra].
  unfold Qsum. apply ScoreFacts.fold_nonneg; [lra|].
  apply Forall_forall. intros x Hx. apply in_map_iff in Hx.
  destruct Hx as [term [<- _]]. lra.
Qed.

Lemma coherence_range (sentences : list str) (idx : nat) (sentence : str) :
  (0 <= coherence_score sentences idx sentence <= 0.15)%Q.
Proof.
  unfold coherence_score. destruct idx; [lra|]. cbv zeta.
  apply count_range; lra.
Qed.

End FactorFacts.

(** X24 (what the hand-made factors weigh).  Computed exactly, a score of
    [calculate_advanced_scores] is [0.22] times the TF-IDF row sum plus
    [0.18] times the similarity to the centroid, plus the contribution of
    the ten other factors, which lies between 0.048 and 0.314 whatever the
    sentence is. *)
Theorem advanced_score_range :
  forall (sk : Sklearn) (tfidf : tfidf_matrix sk) (sentences : list str)
         (idx : nat) (sentence : str) (score : Q),
    TextSummary.sentence_score sk tfidf sentences idx sentence = Some score ->
    exists sim,
      centroid_similarity sk tfidf idx = Some sim
      /\ (row_sum sk tfidf idx * 0.22 + sim * 0.18 + 0.048 <= score)%Q
      /\ (score <= row_sum sk tfidf idx * 0.22 + sim * 0.18 + 0.314)%Q.
Proof.
  intros sk tfidf sentences idx sentence score H.
  unfold TextSummary.sentence_score in H. cbv zeta in H.
  apply ScorerFacts.bind_Some in H. destruct H as [sim [Hsim H]].
  injection H as <-. exists sim. split; [exact Hsim|].
  pose proof (FactorFacts.position_factor_range idx (length sentences)) as H1.
  pose proof (FactorFacts.length_factor_range (length (split sentence))) as H2.
  pose proof (FactorFacts.keyword_range (lower sentence)) as H3.
  pose proof (FactorFacts.numeric_range sentence) as H4.
  pose proof (FactorFacts.count_range
                (re_findall_count Patterns.entity sentence) 0.03 0.25
                ltac:(lra) ltac:(lra)) as H5.
  pose proof (FactorFacts.qa_range sentence) as H6.
  pose proof (FactorFacts.count_range
                (re_findall_count Patterns.acronym sentence) 0.06 0.2
                ltac:(lra) ltac:(lra)) as H7.
  pose proof (FactorFacts.completeness_range sentence) as H8.
  pose proof (FactorFacts.tech_range (lower sentence)) as H9.
  pose proof (FactorFacts.coherence_range sentences idx sentence) as H10.
  fold (TextSummary.entity_score sentence) in H5.
  fold (TextSummary.proper_noun_score sentence) in H7.
  set (f1 := TextSummary.position_score idx (length sentences)) in *.
  set (f2 := TextSummary.length_score (length (split sentence))) in *.
  set (f3 := TextSummary.keyword_score (lower sentence)) in *.
  set (f4 := TextSummary.numeric_score sentence) in *.
  set (f5 := TextSummary.entity_score sentence) in *.
  set (f6 := TextSummary.qa_score sentence) in *.
  set (f7 := TextSummary.proper_noun_score sentence) in *.
  set (f8 := TextSummary.completeness_score sentence) in *.
  set (f9 := TextSummary.tech_score (lower sentence)) in *.
  set (f10 := TextSummary.coherence_score sentences idx sentence) in *.
  set (r := row_sum sk tfidf idx) in *.
  clearbody f1 f2 f3 f4 f5 f6 f7 f8 f9 f10 r.
  split; lra.
Qed.

(** The first of the three sentences, with row sum 1 and similarity 1/2. *)
Lemma advanced_score_range_witness :
  exists score,
    TextSummary.sentence_score Examples.sklearn_rising tt
      Examples.three_sentences 0 (getitem Examples.three_sentences 0)
    = Some score
    /\ (1.0 * 0.22 + 0.5 * 0.18 + 0.048 <= score)%Q.
Proof.
  destruct (TextSummary.sentence_score Examples.sklearn_rising tt
              Examples.three_sentences 0 (getitem Examples.three_sentences 0))
    as [score|] eqn:H; [|vm_compute in H; discriminate].
  exists score. split; [reflexivity|].
  destruct (advanced_score_range Examples.sklearn_rising tt
              Examples.three_sentences 0 _ score H) as [sim [Hsim [Hlow _]]].
  cbn in Hsim. injection Hsim as <-. exact Hlow.
Defined.

(** X25 (the ensemble takes the best combined scores).  On the ensemble
    path, when no sentence occurs twice, a sentence that is left out of the
    main summary has at most the combined score of every sentence that is
    in it, for every table of combined scores over the sentences; the table
    the source builds from the votes and the custom scores is one. *)
Theorem ensemble_takes_best :
  forall (combined : list (str * Q)) (sentences : list str) (target_count : nat)
         (p q : str * Q),
    NoDup sentences ->
    map fst combined = sentences ->
    let summary :=
      TextSummary.ordered_summary
        (TextSummary.ensemble_selected combined target_count)
        target_count sentences in
    In p combined -> In q combined ->
    In (fst p) summary -> ~ In (fst q) summary ->
    (snd q <= snd p)%Q
    /\ (forall (sk : Sklearn) (sumy : TextSummary.Sumy) (text : str)
               (doc : TextSummary.document sumy),
          TextSummary.sumy_parse sumy text = Some doc ->
          let table :=
            TextSummary.combined_scores
              (TextSummary.sentence_votes sumy doc target_count)
              (TextSummary.calculate_advanced_scores sk sentences text)
              sentences in
          map fst table = sentences
          /\ TextSummary.ensemble_sentences sk sumy text sentences target_count
             = TextSummary.ordered_summary
                 (TextSummary.ensemble_selected table target_count)
                 target_count sentences).
Proof.
  intros combined sentences t p q Hnd Hkeys summary Hp Hq Hin Hout.
  split.
  - set (selected := TextSummary.ensemble_selected combined t) in *.
    destruct t as [|t].
    { unfold summary, TextSummary.ordered_summary in Hin.
      unfold selected, TextSummary.ensemble_selected, slice_to in Hin.
      cbn [firstn map] in Hin.
      rewrite TextFacts.ordered_from_none in Hin. destruct Hin. }
    unfold summary, TextSummary.ordered_summary in Hin, Hout.
    rewrite TextFacts.ordered_from_spec in Hin, Hout by lia.
    rewrite Nat.sub_0_r in Hin, Hout.
    assert (Hkeys_nd : NoDup (map fst combined)) by now rewrite Hkeys.
    assert (Hsel_nd : NoDup selected).
    { unfold selected, TextSummary.ensemble_selected, slice_to.
      rewrite <- firstn_map. apply Facts.firstn_NoDup.
      eapply Permutation_NoDup; [|exact Hkeys_nd].
      apply Permutation_map, Permutation_sym, Facts.sorted_desc_perm. }
    assert (Hsel_len : length selected <= S t).
    { unfold selected, TextSummary.ensemble_selected, slice_to.
      rewrite length_map, length_firstn. lia. }
    assert (Hall : firstn (S t) (filter (fun s => mem s selected) sentences)
                   = filter (fun s => mem s selected) sentences).
    { assert (Hfl : length (filter (fun s => mem s selected) sentences)
                     <= length selected).
      { apply NoDup_incl_length; [now apply NoDup_filter|].
        intros x Hx. apply filter_In in Hx. apply Facts.mem_In. apply Hx. }
      apply firstn_all2. lia. }
    rewrite Hall in Hin, Hout.
    apply filter_In in Hin. destruct Hin as [_ Hin]. apply Facts.mem_In in Hin.
    assert (Hq_in : In (fst q) sentences)
      by (rewrite <- Hkeys; now apply in_map).
    assert (Hout' : ~ In (fst q) selected).
    { intro H. apply Hout. apply filter_In.
      split; [exact Hq_in | now apply Facts.mem_In]. }
    assert (Hinj : forall x y, In x combined -> In y combined ->
                               fst x = fst y -> x = y).
    { clear - Hkeys_nd. induction combined as [|z l IH]; intros x y Hx Hy Hxy;
        [destruct Hx|].
      cbn [map] in Hkeys_nd. inversion Hkeys_nd as [|? ? Hz Hl]; subst.
      destruct Hx as [-> | Hx], Hy as [-> | Hy].
      - reflexivity.
      - exfalso. apply Hz. rewrite Hxy. now apply in_map.
      - exfalso. apply Hz. rewrite <- Hxy. now apply in_map.
      - now apply IH. }
    unfold selected, TextSummary.ensemble_selected, slice_to in Hin, Hout'.
    apply in_map_iff in Hin. destruct Hin as [p' [Hfst Hp']].
    assert (p' = p) as ->.
    { apply Hinj; [|exact Hp | exact Hfst].
      apply (Permutation_in _ (Facts.sorted_desc_perm combined)).
      exact (Facts.firstn_In _ _ _ Hp'). }
    assert (Hqs : In q (sorted_by_value_desc combined)).
    { apply (Permutation_in _ (Permutation_sym (Facts.sorted_desc_perm combined))).
      exact Hq. }
    rewrite <- (firstn_skipn (S t) (sorted_by_value_desc combined)) in Hqs.
    apply in_app_or in Hqs. destruct Hqs as [Hqs | Hqs].
    + exfalso. apply Hout'. now apply in_map.
    + pose proof (Facts.sorted_desc_descending combined) as Hs.
      rewrite <- (firstn_skipn (S t) (sorted_by_value_desc combined)) in Hs.
      exact (Facts.StronglySorted_app_cross _ _ _ Hs _ _ Hp' Hqs).
  - intros sk sumy text doc Hparse table. split.
    + unfold table, TextSummary.combined_scores.
      rewrite TextFacts.dict_fill_fresh; [|exact Hnd | auto].
      cbn [app]. rewrite map_map. cbn [fst]. apply map_id.
    + unfold TextSummary.ensemble_sentences. now rewrite Hparse.
Qed.

(** A sumy that votes for the first two of three sentences: the third is
    left out and has a lower combined score than the first. *)
Lemma ensemble_takes_best_witness :
  let sentences := Examples.three_sentences in
  let combined :=
    TextSummary.combined_scores
      (TextSummary.sentence_votes
         (Examples.sumy_first Examples.three_sentences) tt 2)
      (TextSummary.calculate_advanced_scores
         Examples.sklearn_rising sentences Examples.short_text)
      sentences in
  let summary :=
    TextSummary.ordered_summary
      (TextSummary.ensemble_selected combined 2) 2 sentences in
  summary = [getitem sentences 0; getitem sentences 1]
  /\ (snd (nth 2 combined ([], 0%Q)) <= snd (nth 0 combined ([], 0%Q)))%Q.
Proof.
  intros sentences combined summary.
  assert (Hsummary : summary = [getitem sentences 0; getitem sentences 1])
    by (vm_compute; reflexivity).
  assert (Hkeys : map fst combined = sentences) by (vm_compute; reflexivity).
  assert (Hlen : length combined = 3)
    by (rewrite <- (length_map fst), Hkeys; reflexivity).
  assert (H0 : fst (nth 0 combined ([], 0%Q)) = getitem sentences 0).
  { change (getitem sentences 0) with (nth 0 sentences []).
    rewrite <- Hkeys. symmetry. apply (map_nth fst combined ([], 0%Q) 0). }
  assert (H2 : fst (nth 2 combined ([], 0%Q)) = getitem sentences 2).
  { change (getitem sentences 2) with (nth 2 sentences []).
    rewrite <- Hkeys. symmetry. apply (map_nth fst combined ([], 0%Q) 2). }
  split; [exact Hsummary|].
  apply (ensemble_takes_best combined sentences 2
           (nth 0 combined ([], 0%Q)) (nth 2 combined ([], 0%Q))).
  - repeat constructor; cbn; intuition discriminate.
  - exact Hkeys.
  - apply nth_In. lia.
  - apply nth_In. lia.
  - fold summary. rewrite Hsummary, H0. now left.
  - fold summary. rewrite Hsummary, H2. cbn. intuition discriminate.
Defined.
